(** * VPS-FastSearch: a shallow embedding of the search core and the daemon

    The development follows the source modules it verifies:

    - [Core]    : [vps_fastsearch/core.py], classes [SearchDB] (the SQLite
                  store with its FTS5 mirror and its vec0 table, the BM25 /
                  vector / hybrid / reranked searches) and [Reranker], with
                  the commands [index] and [search] of [cli.py] that call
                  them;
    - [Daemon]  : [vps_fastsearch/daemon.py], classes [ModelManager] and
                  [FastSearchDaemon] (slot registry, eviction, idle unload,
                  JSON-RPC dispatch, framed connections), with the merge of
                  a configuration file into the defaults of [config.py];
    - [Client]  : [vps_fastsearch/client.py], the receiving half of
                  [FastSearchClient._send_request];
    - [Chunker] : [vps_fastsearch/chunker.py], [chunk_text] and
                  [_split_long_paragraph].

    Python values are modelled as the code has them: [int] as [Z], [str] as
    [string], [bytes] as [list Byte.byte], a [dict] used as a map as [gmap],
    an [OrderedDict] and the rows of a table as association lists (order and
    duplicates matter there), an exception as a value of [exn] returned
    through [Res]. *)

From Stdlib Require Import PrimFloat.
From Stdlib Require Uint63.
From Stdlib Require Import QArith.
From stdpp Require Import base option list gmap strings numbers sorting pretty.
From Stdlib.Strings Require Byte.

Local Open Scope string_scope.
Local Open Scope list_scope.
Local Open Scope Z_scope.

(** ** Exceptions and results *)

(** A raised Python exception: its class name and [str(e)]. *)
Record exn := Exn { exn_class : string; exn_msg : string }.

#[global] Instance exn_eq_dec : EqDecision exn.
Proof. solve_decision. Defined.

Inductive Res (A : Type) : Type :=
| Ok (a : A)
| Raise (e : exn).
Arguments Ok {A} a.
Arguments Raise {A} e.

Definition is_Ok {A} (r : Res A) : bool :=
  match r with Ok _ => true | Raise _ => false end.

Definition res_bind {A B} (r : Res A) (k : A → Res B) : Res B :=
  match r with Ok a => k a | Raise e => Raise e end.

#[global] Instance Res_ret : MRet Res := @Ok.
#[global] Instance Res_bind : MBind Res := λ A B k r, res_bind r k.

(** A loop that builds a list and stops at the first exception. *)
Fixpoint mapM_res {A B} (f : A → Res B) (xs : list A) : Res (list B) :=
  match xs with
  | [] => Ok []
  | x :: xs' => y ← f x; ys ← mapM_res f xs'; Ok (y :: ys)
  end.

Definition ZeroDivisionError : exn := Exn "ZeroDivisionError" "division by zero".
Definition KeyError (key : string) : exn := Exn "KeyError" key.

(** [enumerate(xs, start)] *)
Fixpoint enumerate {A} (start : Z) (xs : list A) : list (Z * A) :=
  match xs with
  | [] => []
  | x :: xs' => (start, x) :: enumerate (start + 1) xs'
  end.

(** [xs[:n]] for a Python [int] n: a negative bound counts from the end. *)
Definition py_slice_to {A} (xs : list A) (n : Z) : list A :=
  if decide (0 ≤ n) then take (Z.to_nat n) xs
  else take (length xs - Z.to_nat (- n))%nat xs.

(** ** core.py *)
Module Core.

Section SearchDB.

Set Default Proof Using "Type".

(** The type of Python floats ([F]), kept abstract with the operations the
    code applies to it. *)
Context {F : Type}.

(** *** The three tables *)

(** A row of [docs]. [metadata] holds the serialised JSON text. *)
Record DocRow := mkDocRow {
  d_id : Z;
  d_source : string;
  d_chunk_index : Z;
  d_content : string;
  d_metadata : string;
}.

(** The database file: the rows of [docs], the entries of the external-content
    FTS5 index [docs_fts] (rowid and indexed content) and the rows of the vec0
    table [docs_vec] (id and embedding), each in insertion order. *)
Record Store := mkStore {
  docs : list DocRow;
  docs_fts : list (Z * string);
  docs_vec : list (Z * list F);
}.

Definition empty_store : Store := mkStore [] [] [].

Definition doc_ids (db : Store) : list Z := d_id <$> docs db.
Definition fts_ids (db : Store) : list Z := fst <$> docs_fts db.
Definition vec_ids (db : Store) : list Z := fst <$> docs_vec db.

(** A method of [SearchDB]: it reads and writes the connection's database and
    returns or raises. APSW runs every statement in autocommit mode and the
    class opens no transaction, so what a statement wrote stays written when a
    later statement of the same method raises: the store is threaded through
    [Raise] as well. *)
Definition M (A : Type) : Type := Store → Res A * Store.

Definition ret {A} (a : A) : M A := fun db => (Ok a, db).
Definition bind {A B} (m : M A) (k : A → M B) : M B :=
  fun db => match m db with
            | (Ok a, db') => k a db'
            | (Raise e, db') => (Raise e, db')
            end.

#[local] Instance M_ret : MRet M := @ret.
#[local] Instance M_bind : MBind M := λ A B k m, bind m k.

(** *** SQL statements *)

(** The rowid SQLite gives to a row inserted without one: 1 in an empty table,
    otherwise one more than the largest rowid in use. (At the largest rowid
    2^63-1 SQLite tries random rowids instead; the model has no such row.) *)
Definition next_rowid (ids : list Z) : Z :=
  match ids with
  | [] => 1
  | i :: rest => 1 + foldr Z.max i rest
  end.

(** [orjson.dumps(metadata or {}).decode()] on the already serialised text. *)
Definition dumps_metadata (metadata : option string) : string :=
  match metadata with
  | Some m => if decide (m = "") then "{}" else m
  | None => "{}"
  end.

(** [INSERT INTO docs (source, chunk_index, content, metadata) VALUES (?,?,?,?)]
    followed by [last_insert_rowid()]. The trigger [docs_ai] runs inside the
    statement and adds the FTS entry [(new.id, new.content)]. *)
Definition insert_docs (source : string) (chunk_index : Z) (content : string)
    (metadata : string) : M Z :=
  fun db =>
    let i := next_rowid (doc_ids db) in
    (Ok i,
     mkStore (docs db ++ [mkDocRow i source chunk_index content metadata])
             (docs_fts db ++ [(i, content)])
             (docs_vec db)).

(** The declared dimension of [docs_vec.embedding]: [FLOAT[768]]. *)
Definition DIMENSIONS : nat := 768.

Definition dimension_mismatch : exn :=
  Exn "SQLError" "Dimension mismatch for inserted vector".
Definition unique_constraint : exn :=
  Exn "ConstraintError" "UNIQUE constraint failed on docs_vec primary key".

(** [INSERT INTO docs_vec (id, embedding) VALUES (?, ?)]: vec0 refuses a
    vector that does not have the declared dimension and an id already in
    use; a refused statement writes nothing. *)
Definition insert_docs_vec (i : Z) (embedding : list F) : M unit :=
  fun db =>
    if decide (length embedding = DIMENSIONS) then
      if decide (i ∈ vec_ids db) then (Raise unique_constraint, db)
      else (Ok tt, mkStore (docs db) (docs_fts db) (docs_vec db ++ [(i, embedding)]))
    else (Raise dimension_mismatch, db).

(** [SELECT id FROM docs WHERE source = ?] *)
Definition select_ids_by_source (source : string) : M (list Z) :=
  fun db => (Ok (d_id <$> filter (λ d, d_source d = source) (docs db)), db).

(** [DELETE FROM docs_vec WHERE id = ?] *)
Definition delete_docs_vec (i : Z) : M unit :=
  fun db =>
    (Ok tt, mkStore (docs db) (docs_fts db) (filter (λ r, r.1 ≠ i) (docs_vec db))).

(** [DELETE FROM docs WHERE source = ?]. The trigger [docs_ad] runs for every
    deleted row and issues the FTS5 ['delete'] command for [old.id]. *)
Definition delete_docs_by_source (source : string) : M unit :=
  fun db =>
    let gone := d_id <$> filter (λ d, d_source d = source) (docs db) in
    (Ok tt,
     mkStore (filter (λ d, d_source d ≠ source) (docs db))
             (filter (λ r, r.1 ∉ gone) (docs_fts db))
             (docs_vec db)).

(** *** Mutations of [SearchDB] *)

(** [SearchDB.index_document] *)
Definition index_document (source : string) (chunk_index : Z) (content : string)
    (embedding : list F) (metadata : option string) : M Z :=
  doc_id ← insert_docs source chunk_index content (dumps_metadata metadata);
  insert_docs_vec doc_id embedding;;
  ret doc_id.

(** An item of [index_batch]: (source, chunk_index, content, embedding, metadata). *)
Definition Item : Type := string * Z * string * list F * option string.

(** The loop of [SearchDB.index_batch], with [doc_ids] the ids appended so far. *)
Fixpoint index_batch_loop (items : list Item) (doc_ids : list Z) : M (list Z) :=
  match items with
  | [] => ret doc_ids
  | (source, chunk_index, content, embedding, metadata) :: rest =>
      doc_id ← insert_docs source chunk_index content (dumps_metadata metadata);
      insert_docs_vec doc_id embedding;;
      index_batch_loop rest (doc_ids ++ [doc_id])
  end.

(** [SearchDB.index_batch] *)
Definition index_batch (items : list Item) : M (list Z) :=
  index_batch_loop items [].

(** [for doc_id in ids: DELETE FROM docs_vec WHERE id = ?] *)
Fixpoint delete_vec_loop (ids : list Z) : M unit :=
  match ids with
  | [] => ret tt
  | i :: rest => delete_docs_vec i;; delete_vec_loop rest
  end.

(** [SearchDB.delete_source] *)
Definition delete_source (source : string) : M Z :=
  ids ← select_ids_by_source source;
  (if decide (ids = []) then ret tt
   else delete_vec_loop ids;; delete_docs_by_source source);;
  ret (Z.of_nat (length ids)).

(** *** Searches *)

(** The operations on floats the searches use: [x + y], [x * y], [1 / n] for
    an [int] n other than 0, [x < y], and the literal [1.0]. *)
Context (fadd fmul : F → F → F) (frecip : Z → F) (flt : F → F → bool) (fone : F).

(** The storage engine. [fts5_match db query] is the cursor of
    [docs_fts f JOIN docs d ON f.rowid = d.id WHERE docs_fts MATCH ? ORDER BY score]
    over the store, each row with its [bm25(docs_fts)] score;
    [vec0_knn db embedding k] is the cursor of
    [docs_vec v JOIN docs d ON v.id = d.id WHERE embedding MATCH ? AND k = ? ORDER BY distance],
    each row with its distance. Either statement can be refused. *)
Context (fts5_match : Store → string → Res (list (DocRow * F))).
Context (vec0_knn : Store → list F → Z → Res (list (DocRow * F))).

(** The order in which CPython iterates over [set(a) | set(b)], given the keys
    of the two dicts in their order. The language leaves it unspecified. *)
Context (set_union_iter : list Z → list Z → list Z).

(** [reranker.rerank(query, documents)] *)
Context (rerank : string → list string → Res (list F)).

(** A result dict. The keys [score], [distance], [rrf_score] and
    [rerank_score] are present on some results only ([None] = no such key);
    [bm25_rank] and [vec_rank] hold an [int] or Python's [None]. *)
Record Result := mkResult {
  r_id : Z;
  r_source : string;
  r_chunk_index : Z;
  r_content : string;
  r_metadata : string;
  r_score : option F;
  r_distance : option F;
  r_rank : Z;
  r_rrf_score : option F;
  r_bm25_rank : option Z;
  r_vec_rank : option Z;
  r_rerank_score : option F;
}.

(** [LIMIT ?]: a negative bound means no bound. *)
Definition sql_limit {A} (limit : Z) (rows : list A) : list A :=
  if decide (limit < 0) then rows else take (Z.to_nat limit) rows.

Definition bm25_result (p : Z * (DocRow * F)) : Result :=
  let '(rank, (d, score)) := p in
  mkResult (d_id d) (d_source d) (d_chunk_index d) (d_content d) (d_metadata d)
           (Some score) None rank None None None None.

Definition vec_result (p : Z * (DocRow * F)) : Result :=
  let '(rank, (d, distance)) := p in
  mkResult (d_id d) (d_source d) (d_chunk_index d) (d_content d) (d_metadata d)
           None (Some distance) rank None None None None.

(** [SearchDB.search_bm25] *)
Definition search_bm25 (db : Store) (query : string) (limit : Z) : Res (list Result) :=
  rows ← fts5_match db query;
  Ok (bm25_result <$> enumerate 1 (sql_limit limit rows)).

(** [SearchDB.search_vector] *)
Definition search_vector (db : Store) (embedding : list F) (limit : Z)
    : Res (list Result) :=
  rows ← vec0_knn db embedding limit;
  Ok (vec_result <$> enumerate 1 rows).

(** [{r["id"]: r["rank"] for r in results}] *)
Definition rank_map (results : list Result) : gmap Z Z :=
  foldl (λ m r, <[r_id r := r_rank r]> m) ∅ results.

(** [for r in results: if r["id"] not in result_lookup: result_lookup[r["id"]] = r] *)
Definition build_lookup (results : list Result) : gmap Z Result :=
  foldl (λ m r, match m !! r_id r with Some _ => m | None => <[r_id r := r]> m end)
        ∅ results.

(** The body of the loop [for doc_id in all_ids]. *)
Definition rrf_result (bm25_ranks vec_ranks : gmap Z Z) (result_lookup : gmap Z Result)
    (default_rank k : Z) (bm25_weight vec_weight : F) (doc_id : Z) : Res Result :=
  let bm25_rank := default default_rank (bm25_ranks !! doc_id) in
  let vec_rank := default default_rank (vec_ranks !! doc_id) in
  if decide (k + bm25_rank = 0) then Raise ZeroDivisionError
  else if decide (k + vec_rank = 0) then Raise ZeroDivisionError
  else
    let rrf_score := fadd (fmul bm25_weight (frecip (k + bm25_rank)))
                          (fmul vec_weight (frecip (k + vec_rank))) in
    match result_lookup !! doc_id with
    | None => Raise (KeyError "doc_id")
    | Some r =>
        Ok (mkResult (r_id r) (r_source r) (r_chunk_index r) (r_content r)
                     (r_metadata r) (r_score r) (r_distance r) (r_rank r)
                     (Some rrf_score)
                     (bm25_ranks !! doc_id) (vec_ranks !! doc_id)
                     (r_rerank_score r))
    end.

(** [xs.sort(key=..., reverse=True)]: the keys are computed first (a missing
    key raises), then the list is sorted by decreasing key with [<], elements
    with equal keys staying in their order (the sort is stable under
    [reverse=True] too). An element goes in front of the sorted rest and
    moves right past the keys that are strictly greater. *)
Fixpoint insert_desc {A} (x : F * A) (sorted : list (F * A)) : list (F * A) :=
  match sorted with
  | [] => [x]
  | y :: rest => if flt x.1 y.1 then y :: insert_desc x rest else x :: sorted
  end.

Definition sort_desc {A} (keyed : list (F * A)) : list (F * A) :=
  foldr insert_desc [] keyed.

Definition list_sort_reverse {A} (field : string) (key : A → option F) (xs : list A)
    : Res (list A) :=
  keyed ← mapM_res (λ x, match key x with
                         | Some s => Ok (s, x)
                         | None => Raise (KeyError field)
                         end) xs;
  Ok (snd <$> sort_desc keyed).

Definition set_rank (p : Z * Result) : Result :=
  let '(i, r) := p in
  mkResult (r_id r) (r_source r) (r_chunk_index r) (r_content r) (r_metadata r)
           (r_score r) (r_distance r) i
           (r_rrf_score r) (r_bm25_rank r) (r_vec_rank r) (r_rerank_score r).

(** [for i, r in enumerate(xs[:limit], 1): r["rank"] = i] and [return xs[:limit]] *)
Definition assign_ranks (xs : list Result) (limit : Z) : list Result :=
  set_rank <$> enumerate 1 (py_slice_to xs limit).

(** The list [rrf_results] of [search_hybrid] before it is sorted. *)
Definition rrf_results (bm25_results vec_results : list Result)
    (fetch_limit k : Z) (bm25_weight vec_weight : F) : Res (list Result) :=
  let bm25_ranks := rank_map bm25_results in
  let vec_ranks := rank_map vec_results in
  let all_ids := set_union_iter (r_id <$> bm25_results) (r_id <$> vec_results) in
  let result_lookup := build_lookup (bm25_results ++ vec_results) in
  let default_rank := fetch_limit + 1 in
  mapM_res (rrf_result bm25_ranks vec_ranks result_lookup default_rank k
                       bm25_weight vec_weight) all_ids.

(** [SearchDB.search_hybrid] *)
Definition search_hybrid (db : Store) (query : string) (embedding : list F)
    (limit k : Z) (bm25_weight vec_weight : F) : Res (list Result) :=
  let fetch_limit := limit * 3 in
  bm25_results ← search_bm25 db query fetch_limit;
  vec_results ← search_vector db embedding fetch_limit;
  scored ← rrf_results bm25_results vec_results fetch_limit k bm25_weight vec_weight;
  sorted ← list_sort_reverse "rrf_score" r_rrf_score scored;
  Ok (assign_ranks sorted limit).

Definition set_rerank_score (r : Result) (score : F) : Result :=
  mkResult (r_id r) (r_source r) (r_chunk_index r) (r_content r) (r_metadata r)
           (r_score r) (r_distance r) (r_rank r)
           (r_rrf_score r) (r_bm25_rank r) (r_vec_rank r) (Some score).

(** [for candidate, score in zip(candidates, rerank_scores): candidate["rerank_score"] = score] *)
Fixpoint attach_scores (candidates : list Result) (scores : list F) : list Result :=
  match candidates, scores with
  | c :: cs, s :: ss => set_rerank_score c s :: attach_scores cs ss
  | _, _ => candidates
  end.

(** [SearchDB.search_hybrid_reranked], with the calls made to the reranker:
    the arguments of each [reranker.rerank(query, doc_contents)]. *)
Definition search_hybrid_reranked (db : Store) (query : string) (embedding : list F)
    (limit rerank_top_k : Z) : Res (list Result) * list (string * list string) :=
  match search_hybrid db query embedding rerank_top_k 60 fone fone with
  | Raise e => (Raise e, [])
  | Ok [] => (Ok [], [])
  | Ok candidates =>
      let doc_contents := r_content <$> candidates in
      (rerank_scores ← rerank query doc_contents;
       sorted ← list_sort_reverse "rerank_score" r_rerank_score
                  (attach_scores candidates rerank_scores);
       Ok (assign_ranks sorted limit),
       [(query, doc_contents)])
  end.

(** *** What the searches are compared with *)

(** The rank a result list gives to [doc_id]: the [rank] of its result with
    that id, if it has one. *)
Fixpoint rank_in (results : list Result) (doc_id : Z) : option Z :=
  match results with
  | [] => None
  | r :: rest => if decide (r_id r = doc_id) then Some (r_rank r)
                 else rank_in rest doc_id
  end.

(** The first result of a list with the id [doc_id]. *)
Fixpoint first_with_id (results : list Result) (doc_id : Z) : option Result :=
  match results with
  | [] => None
  | r :: rest => if decide (r_id r = doc_id) then Some r
                 else first_with_id rest doc_id
  end.

(** No division of the fusion formula is a division by zero. *)
Definition denominators_nonzero (bm25_results vec_results : list Result)
    (fetch_limit k : Z) : Prop :=
  k + (fetch_limit + 1) ≠ 0
  ∧ Forall (λ r, k + r_rank r ≠ 0) (bm25_results ++ vec_results).

(** The fusion formula on a result [r], for the two candidate lists:
    [rrf(id) = w_bm25 * 1/(k + bm25_rank(id)) + w_vec * 1/(k + vec_rank(id))],
    with the rank [fetch_limit + 1] for a list that does not hold the id, and
    the fields [bm25_rank] and [vec_rank] holding the rank or [None]. *)
Definition rrf_spec (bm25_results vec_results : list Result) (fetch_limit k : Z)
    (bm25_weight vec_weight : F) (r : Result) : Prop :=
  let bm25_rank := rank_in bm25_results (r_id r) in
  let vec_rank := rank_in vec_results (r_id r) in
  r_rrf_score r
  = Some (fadd (fmul bm25_weight (frecip (k + default (fetch_limit + 1) bm25_rank)))
               (fmul vec_weight (frecip (k + default (fetch_limit + 1) vec_rank))))
  ∧ r_bm25_rank r = bm25_rank
  ∧ r_vec_rank r = vec_rank.

(** [a] stands before [b] in a list sorted by decreasing [key] in which equal
    keys are ordered by [prec]. *)
Definition desc_then (key : Result → option F) (prec : Result → Result → Prop)
    (a b : Result) : Prop :=
  ∃ sa sb, key a = Some sa ∧ key b = Some sb
           ∧ flt sa sb = false ∧ (flt sb sa = false → prec a b).

(** [a] occurs before [b] in [ids]. *)
Definition occurs_before (ids : list Z) (a b : Z) : Prop :=
  ∃ l1 l2 l3, ids = l1 ++ a :: l2 ++ b :: l3.

(** The tie-break the specification asks of [search_hybrid]: smaller
    [bm25_rank], then smaller [vec_rank], then smaller id, a missing rank
    counting as [fetch_limit + 1]. *)
Definition tie_break (fetch_limit : Z) (a b : Result) : Prop :=
  let ba := default (fetch_limit + 1) (r_bm25_rank a) in
  let bb := default (fetch_limit + 1) (r_bm25_rank b) in
  let va := default (fetch_limit + 1) (r_vec_rank a) in
  let vb := default (fetch_limit + 1) (r_vec_rank b) in
  ba < bb ∨ (ba = bb ∧ (va < vb ∨ (va = vb ∧ r_id a < r_id b))).

#[local] Instance tie_break_dec fetch_limit a b : Decision (tie_break fetch_limit a b).
Proof. unfold tie_break. apply _. Defined.

(** The two results are the same but for their [rank]. *)
Definition same_but_rank (a b : Result) : Prop := set_rank (0, a) = set_rank (0, b).

(** *** The consistency invariant of the three tables *)

(** The number of rows carrying the id [i]. *)
Definition count_id (i : Z) (ids : list Z) : nat :=
  length (filter (λ j, j = i) ids).
Arguments count_id : simpl never.

(** Every id of a chunk has exactly one lexical entry and exactly one vector
    row, and every lexical entry and every vector row belongs to exactly one
    chunk. *)
Definition consistent (db : Store) : Prop :=
  ∀ i : Z,
    (i ∈ doc_ids db →
       count_id i (fts_ids db) = 1%nat ∧ count_id i (vec_ids db) = 1%nat)
    ∧ (i ∈ fts_ids db → count_id i (doc_ids db) = 1%nat)
    ∧ (i ∈ vec_ids db → count_id i (doc_ids db) = 1%nat).

(** The same invariant as equations between the three counts. *)
Definition balanced (db : Store) : Prop :=
  ∀ i : Z,
    count_id i (fts_ids db) = count_id i (doc_ids db)
    ∧ count_id i (vec_ids db) = count_id i (doc_ids db)
    ∧ (count_id i (doc_ids db) ≤ 1)%nat.

(** The rows an item leaves in the three tables under the id [i]. *)
Definition item_embedding (it : Item) : list F := it.1.2.
Definition item_doc_row (i : Z) (it : Item) : DocRow :=
  let '(source, chunk_index, content, _, metadata) := it in
  mkDocRow i source chunk_index content (dumps_metadata metadata).
Definition item_fts_row (i : Z) (it : Item) : Z * string := (i, it.1.1.2).
Definition item_vec_row (i : Z) (it : Item) : Z * list F := (i, item_embedding it).

(** The store after the rows of [items] were added under [ids]. *)
Definition with_items (db : Store) (ids : list Z) (items : list Item) : Store :=
  mkStore (docs db ++ zip_with item_doc_row ids items)
          (docs_fts db ++ zip_with item_fts_row ids items)
          (docs_vec db ++ zip_with item_vec_row ids items).

(** The store after the chunk row and the lexical entry of [it] were added
    under the next rowid, and no vector row. *)
Definition with_half_item (db : Store) (it : Item) : Store :=
  let i := next_rowid (doc_ids db) in
  mkStore (docs db ++ [item_doc_row i it]) (docs_fts db ++ [item_fts_row i it])
          (docs_vec db).

(** Atomicity of a batch as the specification words it: after the call the
    store holds either every row of the batch or none of them. *)
Definition all_or_nothing (items : list Item) (db db' : Store) : Prop :=
  db' = db ∨ ∃ ids, length ids = length items ∧ db' = with_items db ids items.

Definition dim_ok (it : Item) : Prop := length (item_embedding it) = DIMENSIONS.

#[local] Instance dim_ok_dec it : Decision (dim_ok it).
Proof. unfold dim_ok. apply _. Defined.

(** *** Counting ids *)

Lemma count_id_nil i : count_id i [] = 0%nat.
Proof. reflexivity. Qed.

Lemma count_id_cons i j ids :
  count_id i (j :: ids) = ((if decide (j = i) then 1 else 0) + count_id i ids)%nat.
Proof. unfold count_id. rewrite filter_cons. by destruct (decide (j = i)). Qed.

Lemma count_id_app i ids1 ids2 :
  count_id i (ids1 ++ ids2) = (count_id i ids1 + count_id i ids2)%nat.
Proof. unfold count_id. by rewrite list.filter_app, length_app. Qed.

Lemma count_id_snoc i j ids :
  count_id i (ids ++ [j]) = (count_id i ids + if decide (j = i) then 1 else 0)%nat.
Proof. rewrite count_id_app, count_id_cons, count_id_nil. lia. Qed.

Lemma count_id_pos i ids : i ∈ ids ↔ (0 < count_id i ids)%nat.
Proof.
  induction ids as [|j ids IH].
  - rewrite count_id_nil. split; [by intros ?%elem_of_nil | lia].
  - rewrite count_id_cons, elem_of_cons, IH.
    destruct (decide (j = i)) as [->|Hne]; [split; [lia | by left]|].
    split; [intros [->|?]; [done | lia] | intros; right; lia].
Qed.

Lemma count_id_zero i ids : i ∉ ids ↔ count_id i ids = 0%nat.
Proof. rewrite count_id_pos. lia. Qed.

(** Filtering rows on a property of their id. *)
Lemma count_id_filter {A} (f : A → Z) (P : Z → Prop) `{∀ j, Decision (P j)} i (rows : list A) :
  count_id i (f <$> filter (λ r, P (f r)) rows)
  = if decide (P i) then count_id i (f <$> rows) else 0%nat.
Proof.
  induction rows as [|r rows IH]; [by destruct (decide (P i))|].
  rewrite filter_cons. destruct (decide (P (f r))) as [HP|HP].
  - rewrite !fmap_cons, !count_id_cons, IH.
    destruct (decide (P i)); [done|]. destruct (decide (f r = i)); [congruence | done].
  - rewrite fmap_cons, count_id_cons, IH.
    destruct (decide (P i)); [|done]. destruct (decide (f r = i)); [congruence | done].
Qed.

(** Splitting rows in two on any property. *)
Lemma count_id_partition {A} (f : A → Z) (P : A → Prop) `{∀ r, Decision (P r)} i (rows : list A) :
  count_id i (f <$> rows)
  = (count_id i (f <$> filter P rows) + count_id i (f <$> filter (λ r, ¬ P r) rows))%nat.
Proof.
  induction rows as [|r rows IH]; [done|].
  rewrite !filter_cons, fmap_cons, count_id_cons, IH.
  destruct (decide (P r)) as [HP|HP], (decide (¬ P r)) as [HN|HN];
    try (by exfalso; auto); rewrite fmap_cons, count_id_cons; lia.
Qed.

Lemma next_rowid_above ids i : i ∈ ids → i < next_rowid ids.
Proof.
  destruct ids as [|j rest]; [by intros ?%elem_of_nil|]. cbn.
  revert i j. induction rest as [|x rest IH]; intros i j Hi; cbn.
  - apply list_elem_of_singleton in Hi. lia.
  - apply elem_of_cons in Hi as [->|Hi].
    + specialize (IH j j ltac:(left)). lia.
    + apply elem_of_cons in Hi as [->|Hi].
      * assert (foldr Z.max j rest ≤ foldr Z.max j rest) by lia. lia.
      * specialize (IH i j ltac:(by right)). lia.
Qed.

Lemma next_rowid_fresh ids : next_rowid ids ∉ ids.
Proof. intros H%next_rowid_above. lia. Qed.

Lemma consistent_balanced db : consistent db ↔ balanced db.
Proof.
  split; intros H i; specialize (H i).
  - destruct H as (Hd & Hf & Hv).
    rewrite !count_id_pos in *.
    destruct (decide (0 < count_id i (doc_ids db))%nat) as [Hp|Hn].
    + destruct (Hd Hp) as [Hf1 Hv1]. specialize (Hf ltac:(lia)). lia.
    + assert (¬ (0 < count_id i (fts_ids db))%nat) by (intros ?; apply Hn; rewrite Hf; lia).
      assert (¬ (0 < count_id i (vec_ids db))%nat) by (intros ?; apply Hn; rewrite Hv; lia).
      lia.
  - destruct H as (Hf & Hv & Hle). rewrite !count_id_pos. lia.
Qed.

Lemma consistent_empty : consistent empty_store.
Proof. apply consistent_balanced. intros i. cbn. rewrite !count_id_nil. lia. Qed.

(** *** One insertion *)

Lemma next_rowid_snoc ids :
  next_rowid (ids ++ [next_rowid ids]) = next_rowid ids + 1.
Proof.
  destruct ids as [|i rest]; [done|]. cbn.
  assert (Hmax : ∀ x, foldr Z.max i (rest ++ [x]) = Z.max x (foldr Z.max i rest)).
  { intros x. induction rest as [|y rest IH]; cbn; [lia|]. rewrite IH. lia. }
  rewrite Hmax. lia.
Qed.

Lemma with_half_item_unbalanced db it :
  balanced db → ¬ balanced (with_half_item db it).
Proof.
  intros Hb Hb'. set (n := next_rowid (doc_ids db)).
  destruct (Hb n) as (_ & Hv & _). destruct (Hb' n) as (_ & Hv' & _).
  pose proof (next_rowid_fresh (doc_ids db)) as Hfresh.
  apply count_id_zero in Hfresh. fold n in Hfresh.
  destruct it as [[[[source ci] content] emb] md].
  unfold with_half_item, doc_ids, vec_ids in Hv'. cbn in Hv'.
  rewrite fmap_app, count_id_app in Hv'. cbn in Hv'.
  rewrite count_id_cons, count_id_nil in Hv'.
  fold (vec_ids db) (doc_ids db) in Hv'. fold n in Hv'.
  rewrite decide_True in Hv' by done. lia.
Qed.

Lemma with_items_one_balanced db it :
  balanced db → balanced (with_items db [next_rowid (doc_ids db)] [it]).
Proof.
  intros Hb i. destruct (Hb i) as (Hf & Hv & Hle).
  pose proof (next_rowid_fresh (doc_ids db)) as Hfresh.
  apply count_id_zero in Hfresh.
  destruct it as [[[[source ci] content] emb] md].
  unfold with_items, doc_ids, fts_ids, vec_ids. cbn.
  rewrite !fmap_app, !count_id_app. cbn.
  rewrite !count_id_cons, !count_id_nil.
  fold (doc_ids db) (fts_ids db) (vec_ids db).
  destruct (decide (next_rowid (doc_ids db) = i)) as [<-|]; lia.
Qed.

(** The two statements of one insertion, from a consistent store. *)
Lemma insert_item_spec db source ci content emb md :
  balanced db →
  let it : Item := (source, ci, content, emb, md) in
  let n := next_rowid (doc_ids db) in
  insert_docs source ci content (dumps_metadata md) db = (Ok n, with_half_item db it)
  ∧ (length emb = DIMENSIONS →
       insert_docs_vec n emb (with_half_item db it) = (Ok tt, with_items db [n] [it]))
  ∧ (length emb ≠ DIMENSIONS →
       insert_docs_vec n emb (with_half_item db it)
       = (Raise dimension_mismatch, with_half_item db it)).
Proof.
  intros Hb it n. split; [done|]. unfold insert_docs_vec. split; intros Hlen.
  - rewrite decide_True by done.
    rewrite decide_False; [done|].
    cbn. fold (vec_ids db). apply count_id_zero.
    destruct (Hb n) as (_ & -> & _). apply count_id_zero, next_rowid_fresh.
  - by rewrite decide_False.
Qed.

Lemma index_document_ok db source ci content emb md :
  balanced db → length emb = DIMENSIONS →
  index_document source ci content emb md db
  = (Ok (next_rowid (doc_ids db)),
     with_items db [next_rowid (doc_ids db)] [(source, ci, content, emb, md)]).
Proof.
  intros Hb Hlen. destruct (insert_item_spec db source ci content emb md Hb) as (H1 & H2 & _).
  unfold index_document, mbind, M_bind, bind. rewrite H1, (H2 Hlen). done.
Qed.

Lemma index_document_bad_dimension db source ci content emb md :
  balanced db → length emb ≠ DIMENSIONS →
  index_document source ci content emb md db
  = (Raise dimension_mismatch, with_half_item db (source, ci, content, emb, md)).
Proof.
  intros Hb Hlen. destruct (insert_item_spec db source ci content emb md Hb) as (H1 & _ & H3).
  unfold index_document, mbind, M_bind, bind. rewrite H1, (H3 Hlen). done.
Qed.

(** *** The batch loop *)

Lemma with_items_nil db : with_items db [] [] = db.
Proof. destruct db. unfold with_items. cbn. by rewrite !app_nil_r. Qed.

Lemma with_items_cons db i ids it items :
  with_items (with_items db [i] [it]) ids items = with_items db (i :: ids) (it :: items).
Proof. unfold with_items. cbn. by rewrite <- !app_assoc. Qed.

Lemma doc_ids_with_items_one db i it :
  doc_ids (with_items db [i] [it]) = doc_ids db ++ [i].
Proof.
  destruct it as [[[[source ci] content] emb] md].
  unfold doc_ids, with_items. cbn. by rewrite fmap_app.
Qed.

Lemma index_batch_loop_cons it rest acc db :
  balanced db →
  index_batch_loop (it :: rest) acc db
  = if decide (dim_ok it)
    then index_batch_loop rest (acc ++ [next_rowid (doc_ids db)])
           (with_items db [next_rowid (doc_ids db)] [it])
    else (Raise dimension_mismatch, with_half_item db it).
Proof.
  intros Hb. destruct it as [[[[source ci] content] emb] md].
  destruct (insert_item_spec db source ci content emb md Hb) as (H1 & H2 & H3).
  cbn [index_batch_loop]. unfold mbind, M_bind, bind. rewrite H1.
  destruct (decide (dim_ok _)) as [Hd|Hd]; [by rewrite (H2 Hd) | by rewrite (H3 Hd)].
Qed.

(** Every embedding has the declared dimension: all rows are written, under
    consecutive fresh ids, in the order of the items. *)
Lemma index_batch_loop_ok items : ∀ db acc,
  balanced db → Forall dim_ok items →
  let ids := seqZ (next_rowid (doc_ids db)) (Z.of_nat (length items)) in
  index_batch_loop items acc db = (Ok (acc ++ ids), with_items db ids items)
  ∧ balanced (with_items db ids items).
Proof.
  induction items as [|it rest IH]; intros db acc Hb Hall; cbn zeta.
  - cbn. rewrite app_nil_r, with_items_nil. done.
  - apply list.Forall_cons in Hall as [Hit Hrest].
    rewrite index_batch_loop_cons, decide_True by done.
    pose proof (with_items_one_balanced db it Hb) as Hb1.
    destruct (IH _ (acc ++ [next_rowid (doc_ids db)]) Hb1 Hrest) as [Hrun Hbal].
    rewrite doc_ids_with_items_one, next_rowid_snoc in Hrun, Hbal.
    rewrite with_items_cons in Hrun, Hbal.
    rewrite (seqZ_cons _ (Z.of_nat (length (it :: rest)))) by (cbn; lia).
    replace (Z.pred (Z.of_nat (length (it :: rest)))) with (Z.of_nat (length rest))
      by (cbn; lia).
    rewrite Hrun, <- app_assoc. done.
Qed.

(** The first embedding of another dimension stops the loop: the rows of the
    items before it stay, and so do its own chunk row and lexical entry. *)
Lemma index_batch_loop_fail good bad rest : ∀ db acc,
  balanced db → Forall dim_ok good → ¬ dim_ok bad →
  let ids := seqZ (next_rowid (doc_ids db)) (Z.of_nat (length good)) in
  index_batch_loop (good ++ bad :: rest) acc db
  = (Raise dimension_mismatch, with_half_item (with_items db ids good) bad).
Proof.
  induction good as [|it good IH]; intros db acc Hb Hall Hbad; cbn zeta.
  - cbn [app length]. rewrite index_batch_loop_cons, decide_False by done.
    cbn. by rewrite with_items_nil.
  - apply list.Forall_cons in Hall as [Hit Hgood].
    rewrite <- app_comm_cons, index_batch_loop_cons, decide_True by done.
    pose proof (with_items_one_balanced db it Hb) as Hb1.
    rewrite (IH _ _ Hb1 Hgood Hbad).
    rewrite doc_ids_with_items_one, next_rowid_snoc, with_items_cons.
    rewrite (seqZ_cons _ (Z.of_nat (length (it :: good)))) by (cbn; lia).
    replace (Z.pred (Z.of_nat (length (it :: good)))) with (Z.of_nat (length good))
      by (cbn; lia).
    done.
Qed.

Lemma index_batch_loop_balanced items : ∀ db acc ids db',
  balanced db → index_batch_loop items acc db = (Ok ids, db') → balanced db'.
Proof.
  induction items as [|it rest IH]; intros db acc ids db' Hb Hrun.
  - cbn in Hrun. by injection Hrun as _ <-.
  - rewrite index_batch_loop_cons in Hrun by done.
    destruct (decide (dim_ok it)); [|done].
    eapply IH, Hrun. by apply with_items_one_balanced.
Qed.

(** *** Deleting a source *)

Definition without_ids (ids : list Z) (rows : list (Z * list F)) : list (Z * list F) :=
  foldl (λ v i, filter (λ r, r.1 ≠ i) v) rows ids.

Lemma delete_vec_loop_spec ids : ∀ db,
  delete_vec_loop ids db
  = (Ok tt, mkStore (docs db) (docs_fts db) (without_ids ids (docs_vec db))).
Proof.
  induction ids as [|i rest IH]; intros db; [by destruct db|].
  cbn [delete_vec_loop]. unfold mbind, M_bind, bind, delete_docs_vec.
  by rewrite IH.
Qed.

Lemma count_id_without_ids ids : ∀ rows j,
  count_id j (without_ids ids rows).*1
  = if decide (j ∈ ids) then 0%nat else count_id j rows.*1.
Proof.
  induction ids as [|i rest IH]; intros rows j.
  - cbn. rewrite decide_False; [done | apply not_elem_of_nil].
  - change (without_ids (i :: rest) rows)
      with (without_ids rest (filter (λ r, r.1 ≠ i) rows)).
    rewrite IH.
    pose proof (count_id_filter fst (λ x, x ≠ i) j rows) as Hc. cbn beta in Hc. rewrite Hc.
    destruct (decide (j ∈ rest)) as [Hin|Hin].
    + rewrite decide_True; [done | by right].
    + destruct (decide (j ≠ i)) as [Hne|Heq].
      * rewrite decide_False; [done|]. intros [->|?]%elem_of_cons; done.
      * rewrite decide_True; [done|]. destruct (decide (j = i)) as [->|]; [by left | done].
Qed.

Lemma delete_source_spec source db :
  let gone := d_id <$> filter (λ d, d_source d = source) (docs db) in
  delete_source source db
  = (Ok (Z.of_nat (length gone)),
     if decide (gone = []) then db
     else mkStore (filter (λ d, d_source d ≠ source) (docs db))
                  (filter (λ r, r.1 ∉ gone) (docs_fts db))
                  (without_ids gone (docs_vec db))).
Proof.
  cbn zeta. unfold delete_source, mbind, M_bind, bind, select_ids_by_source.
  destruct (decide (_ = [])) as [Hnil|Hne]; [done|].
  unfold bind. rewrite delete_vec_loop_spec. done.
Qed.

Lemma delete_source_balanced source db :
  balanced db → balanced (delete_source source db).2.
Proof.
  intros Hb. rewrite delete_source_spec. cbn [snd].
  destruct (decide (_ = [])) as [Hnil|Hne]; [done|].
  intros j. destruct (Hb j) as (Hf & Hv & Hle).
  unfold doc_ids, fts_ids, vec_ids in Hf, Hv, Hle |- *. cbn [docs docs_fts docs_vec].
  set (gone := d_id <$> filter (λ d, d_source d = source) (docs db)).
  rewrite count_id_without_ids.
  pose proof (count_id_filter fst (λ x, x ∉ gone) j (docs_fts db)) as Hc.
  cbn beta in Hc. rewrite Hc.
  pose proof (count_id_partition d_id (λ d, d_source d = source) j (docs db)) as Hsplit.
  fold gone in Hsplit.
  pose proof (count_id_pos j gone) as Hpos.
  destruct (decide (j ∈ gone)) as [Hin|Hin].
  - rewrite decide_False by (by intros Hx; apply Hx). apply Hpos in Hin. lia.
  - rewrite decide_True by done. apply count_id_zero in Hin. lia.
Qed.


(** *** The invariant under the public mutations *)

(** C1 (as amended). From a consistent store, every public mutation that
    returns leaves a consistent store: [index_document] returns when the
    embedding has the declared dimension, [index_batch] when every embedding
    has, and [delete_source] always returns. *)
Theorem mutations_preserve_consistency (db : Store) :
  consistent db →
  (∀ source chunk_index content embedding metadata,
     let run := index_document source chunk_index content embedding metadata db in
     (length embedding = DIMENSIONS → is_Ok run.1 = true)
     ∧ (is_Ok run.1 = true → consistent run.2))
  ∧ (∀ items,
       let run := index_batch items db in
       (Forall dim_ok items → is_Ok run.1 = true)
       ∧ (is_Ok run.1 = true → consistent run.2))
  ∧ (∀ source,
       let run := delete_source source db in
       is_Ok run.1 = true ∧ consistent run.2).
Proof.
  intros Hb%consistent_balanced. split; [|split].
  - intros source ci content emb md. cbn zeta. split.
    + intros Hlen. by rewrite index_document_ok.
    + destruct (decide (length emb = DIMENSIONS)) as [Hlen|Hlen].
      * rewrite index_document_ok by done. intros _.
        by apply consistent_balanced, with_items_one_balanced.
      * by rewrite index_document_bad_dimension.
  - intros items. cbn zeta. split.
    + intros Hall. unfold index_batch.
      destruct (index_batch_loop_ok items db [] Hb Hall) as [-> _]. done.
    + unfold index_batch.
      destruct (index_batch_loop items [] db) as [[ids|e] db'] eqn:Hrun; [|done].
      intros _. apply consistent_balanced.
      by apply (index_batch_loop_balanced items db [] ids db').
  - intros source. cbn zeta. split.
    + by rewrite delete_source_spec.
    + by apply consistent_balanced, delete_source_balanced.
Qed.

(** C2 (as amended). [index_batch] writes item after item. From a consistent
    store, when every embedding has the declared dimension the call returns
    one fresh id per item, in the order of the items, and the three rows of
    every item are in the store under its id; at the first item whose
    embedding has another dimension the call raises, and the rows of the
    items before it, with its own chunk row and lexical entry, stay. *)
Theorem index_batch_commits_in_order (db : Store) (items : list Item) :
  consistent db →
  (Forall dim_ok items →
     let ids := seqZ (next_rowid (doc_ids db)) (Z.of_nat (length items)) in
     index_batch items db = (Ok ids, with_items db ids items)
     ∧ length ids = length items
     ∧ consistent (with_items db ids items))
  ∧ (∀ good bad rest,
       items = good ++ bad :: rest → Forall dim_ok good → ¬ dim_ok bad →
       let ids := seqZ (next_rowid (doc_ids db)) (Z.of_nat (length good)) in
       index_batch items db
       = (Raise dimension_mismatch, with_half_item (with_items db ids good) bad)).
Proof.
  intros Hb%consistent_balanced. split.
  - intros Hall. cbn zeta.
    destruct (index_batch_loop_ok items db [] Hb Hall) as [Hrun Hbal].
    unfold index_batch. rewrite Hrun. split; [done|]. split.
    + rewrite length_seqZ. lia.
    + by apply consistent_balanced.
  - intros good bad rest -> Hgood Hbad. cbn zeta. unfold index_batch.
    by apply index_batch_loop_fail.
Qed.

(** *** Loops, slices and ranks *)

Lemma mapM_res_Ok {A B} (f : A → Res B) xs ys :
  mapM_res f xs = Ok ys → Forall2 (λ x y, f x = Ok y) xs ys.
Proof.
  revert ys. induction xs as [|x xs IH]; intros ys Hrun; cbn in Hrun.
  - injection Hrun as <-. constructor.
  - unfold mbind, Res_bind, res_bind in Hrun.
    destruct (f x) as [y|e] eqn:Hx; [|done].
    destruct (mapM_res f xs) as [ys'|e]; [|done].
    injection Hrun as <-. constructor; [done | by apply IH].
Qed.

Lemma mapM_res_total {A B} (f : A → Res B) xs :
  (∀ x, x ∈ xs → ∃ y, f x = Ok y) → ∃ ys, mapM_res f xs = Ok ys.
Proof.
  induction xs as [|x xs IH]; intros Hall; [by eexists|].
  destruct (Hall x) as [y Hy]; [by left|].
  destruct IH as [ys Hys]; [intros z Hz; apply Hall; by right|].
  exists (y :: ys). cbn. unfold mbind, Res_bind, res_bind. by rewrite Hy, Hys.
Qed.

Lemma mapM_res_Raise {A B} (f : A → Res B) (e : exn) xs x :
  (∀ y, y ∈ xs → is_Ok (f y) = true ∨ f y = Raise e) →
  x ∈ xs → f x = Raise e → mapM_res f xs = Raise e.
Proof.
  induction xs as [|y xs IH]; intros Hall Hx Hfx; [by apply elem_of_nil in Hx|].
  cbn. unfold mbind, Res_bind, res_bind.
  destruct (Hall y ltac:(by left)) as [Hok|Hr]; [|by rewrite Hr].
  destruct (f y) as [b|e'] eqn:Hy; [|done].
  apply elem_of_cons in Hx as [->|Hx]; [congruence|].
  rewrite IH; auto. intros z Hz. apply Hall. by right.
Qed.

Lemma length_enumerate {A} (xs : list A) start :
  length (enumerate start xs) = length xs.
Proof. revert start. induction xs as [|x xs IH]; intros start; cbn; [done | by rewrite IH]. Qed.

Lemma enumerate_lookup {A} (xs : list A) start (i : nat) :
  enumerate start xs !! i = (λ x, (start + Z.of_nat i, x)) <$> xs !! i.
Proof.
  revert start i. induction xs as [|x xs IH]; intros start [|i]; cbn; try done.
  - by rewrite Z.add_0_r.
  - rewrite IH. destruct (xs !! i); cbn; [|done]. do 2 f_equal. lia.
Qed.

Lemma py_slice_to_take {A} (xs : list A) n :
  ∃ m : nat, py_slice_to xs n = take m xs ∧ (0 ≤ n → m = Z.to_nat n).
Proof.
  unfold py_slice_to. destruct (decide (0 ≤ n)); eexists; split; done.
Qed.

Lemma py_slice_to_length {A} (xs : list A) n :
  0 ≤ n → Z.of_nat (length (py_slice_to xs n)) ≤ n.
Proof.
  intros Hn. unfold py_slice_to. rewrite decide_True by done.
  rewrite length_take. lia.
Qed.

Lemma py_slice_to_zero {A} (xs : list A) : py_slice_to xs 0 = [].
Proof. done. Qed.

Lemma set_rank_rank i r : r_rank (set_rank (i, r)) = i.
Proof. done. Qed.

Lemma set_rank_same i r : same_but_rank r (set_rank (i, r)).
Proof. done. Qed.

Lemma assign_ranks_length xs limit :
  length (assign_ranks xs limit) = length (py_slice_to xs limit).
Proof. unfold assign_ranks. by rewrite length_fmap, length_enumerate. Qed.

(** The result at position [i] of the returned list is the element at
    position [i] of the sorted list, with [rank] set to [i + 1]. *)
Lemma assign_ranks_lookup xs limit (i : nat) r :
  assign_ranks xs limit !! i = Some r →
  ∃ r0, xs !! i = Some r0 ∧ r = set_rank (1 + Z.of_nat i, r0).
Proof.
  unfold assign_ranks. rewrite list_lookup_fmap, enumerate_lookup.
  destruct (py_slice_to_take xs limit) as (m & -> & _).
  destruct (take m xs !! i) as [r0|] eqn:Hi; cbn; [|done].
  intros [= <-]. exists r0. split; [|done].
  by apply lookup_take_Some in Hi as [? _].
Qed.

(** *** The descending stable sort *)

Lemma insert_desc_perm {A} (x : F * A) sorted : insert_desc x sorted ≡ₚ x :: sorted.
Proof.
  induction sorted as [|y rest IH]; cbn; [done|].
  destruct (flt x.1 y.1); [|done]. rewrite IH. apply Permutation_swap.
Qed.

Lemma sort_desc_perm {A} (keyed : list (F * A)) : sort_desc keyed ≡ₚ keyed.
Proof.
  induction keyed as [|x rest IH]; cbn; [done|].
  rewrite insert_desc_perm. by f_equiv.
Qed.

(** [<] on the floats at hand is a strict weak order (as it is on floats
    other than NaN). *)
Hypothesis flt_asym : ∀ x y, flt x y = true → flt y x = false.
Hypothesis flt_negtrans : ∀ x y z, flt x y = false → flt y z = false → flt x z = false.

Definition keyed_before {A} (prec : A → A → Prop) (x y : F * A) : Prop :=
  flt x.1 y.1 = false ∧ (flt y.1 x.1 = false → prec x.2 y.2).

Lemma insert_desc_sorted {A} (prec : A → A → Prop) (x : F * A) sorted :
  StronglySorted (keyed_before prec) sorted →
  Forall (λ y, prec x.2 y.2) sorted →
  StronglySorted (keyed_before prec) (insert_desc x sorted).
Proof using flt_asym flt_negtrans.
  induction sorted as [|y rest IH]; intros Hs Hx; cbn.
  - repeat constructor.
  - apply StronglySorted_cons in Hs as [Hy Hrest].
    apply list.Forall_cons in Hx as [Hxy Hxrest].
    destruct (flt x.1 y.1) eqn:Hlt.
    + apply StronglySorted_cons. split; [|by apply IH].
      rewrite insert_desc_perm. constructor; [|done].
      split; [by apply flt_asym | by rewrite Hlt].
    + apply StronglySorted_cons. split; [|by apply StronglySorted_cons].
      constructor; [by split|].
      rewrite Forall_forall in Hy, Hxrest |- *. intros z Hz.
      destruct (Hy z Hz) as [Hyz _]. split; [by eapply flt_negtrans | auto].
Qed.

Lemma sort_desc_sorted {A} (prec : A → A → Prop) (keyed : list (F * A)) :
  StronglySorted (λ x y, prec x.2 y.2) keyed →
  StronglySorted (keyed_before prec) (sort_desc keyed).
Proof using flt_asym flt_negtrans.
  induction keyed as [|x rest IH]; intros Hs; [constructor|].
  change (sort_desc (x :: rest)) with (insert_desc x (sort_desc rest)).
  apply StronglySorted_cons in Hs as [Hx Hrest].
  apply insert_desc_sorted; [by apply IH|].
  by rewrite sort_desc_perm.
Qed.

Lemma StronglySorted_impl_elem {A} (R R' : relation A) l :
  StronglySorted R l →
  (∀ x y, x ∈ l → y ∈ l → R x y → R' x y) →
  StronglySorted R' l.
Proof.
  induction 1 as [|x l Hs IH Hx]; intros Himpl; constructor.
  - apply IH. intros y z Hy Hz. apply Himpl; by right.
  - rewrite Forall_forall in Hx |- *. intros y Hy.
    apply Himpl; [by left | by right | by apply Hx].
Qed.

Lemma StronglySorted_of_fmap {A B} (f : A → B) (R : relation B) l :
  StronglySorted R (f <$> l) → StronglySorted (λ x y, R (f x) (f y)) l.
Proof.
  induction l as [|x l IH]; intros Hs; [constructor|].
  rewrite fmap_cons in Hs. apply StronglySorted_cons in Hs as [Hx Hl].
  constructor; [by apply IH|]. by rewrite Forall_fmap in Hx.
Qed.

(** Any list is sorted by the order of occurrence in it. *)
Lemma StronglySorted_occurs_before (ids : list Z) :
  StronglySorted (occurs_before ids) ids.
Proof.
  assert (Hgen : ∀ pre l, ids = pre ++ l → StronglySorted (occurs_before ids) l).
  { intros pre l. revert pre. induction l as [|x l IH]; intros pre Hl; constructor.
    - apply (IH (pre ++ [x])). by rewrite <- app_assoc.
    - rewrite Forall_forall. intros y Hy.
      apply list_elem_of_split in Hy as (l2 & l3 & ->).
      by exists pre, l2, l3. }
  by apply (Hgen []).
Qed.

Lemma keyed_of_Ok {A} (field : string) (key : A → option F) xs keyed :
  mapM_res (λ x, match key x with
                 | Some s => Ok (s, x)
                 | None => Raise (KeyError field)
                 end) xs = Ok keyed →
  Forall (λ y, key y.2 = Some y.1) keyed ∧ snd <$> keyed = xs.
Proof.
  intros Hrun%mapM_res_Ok. induction Hrun as [|x y xs ys Hxy _ [IH1 IH2]]; [done|].
  destruct (key x) as [s|] eqn:Hk; [|done]. injection Hxy as <-.
  split; [by constructor | by rewrite fmap_cons, IH2].
Qed.

(** [xs.sort(key=..., reverse=True)] on a list whose elements all have the
    key returns a permutation of the list. *)
Lemma list_sort_reverse_perm field (key : Result → option F) xs :
  Forall (λ x, is_Some (key x)) xs →
  ∃ sorted, list_sort_reverse field key xs = Ok sorted ∧ sorted ≡ₚ xs.
Proof.
  intros Hkeys. unfold list_sort_reverse.
  destruct (mapM_res_total
              (λ x, match key x with
                    | Some s => Ok (s, x)
                    | None => Raise (KeyError field)
                    end) xs) as [keyed Hkeyed].
  { intros x Hx. rewrite Forall_forall in Hkeys.
    destruct (Hkeys x Hx) as [s ->]. by eexists. }
  rewrite Hkeyed. cbn. destruct (keyed_of_Ok _ _ _ _ Hkeyed) as [Hk Hsnd].
  eexists. split; [done|].
  rewrite <- Hsnd. f_equiv. apply sort_desc_perm.
Qed.

(** The sorted list is by decreasing key, equal keys in their former order. *)
Lemma list_sort_reverse_sorted field (key : Result → option F)
    (prec : Result → Result → Prop) xs sorted :
  list_sort_reverse field key xs = Ok sorted →
  StronglySorted prec xs →
  StronglySorted (desc_then key prec) sorted.
Proof using flt_asym flt_negtrans.
  unfold list_sort_reverse. intros Hrun Hs.
  destruct (mapM_res _ xs) as [keyed|e] eqn:Hkeyed; [|done].
  cbn in Hrun. injection Hrun as <-.
  destruct (keyed_of_Ok _ _ _ _ Hkeyed) as [Hk Hsnd].
  rewrite <- Hsnd in Hs. apply StronglySorted_of_fmap in Hs.
  apply (sort_desc_sorted prec) in Hs.
  eapply (StronglySorted_fmap snd (λ x y, key x.2 = Some x.1 ∧ key y.2 = Some y.1
                                          ∧ keyed_before prec x y)).
  - intros x y (Hx & Hy & Hlt & Htie). by exists x.1, y.1.
  - eapply StronglySorted_impl_elem; [exact Hs|].
    intros x y Hx Hy Hb. rewrite sort_desc_perm in Hx, Hy.
    rewrite Forall_forall in Hk. auto.
Qed.

(** *** The rank dicts and the result lookup *)

Lemma rank_in_None results i : i ∉ r_id <$> results → rank_in results i = None.
Proof.
  induction results as [|r rest IH]; intros Hi; cbn; [done|].
  rewrite fmap_cons, not_elem_of_cons in Hi. destruct Hi as [Hne Hi].
  rewrite decide_False by done. by apply IH.
Qed.

Lemma rank_in_Some results i : i ∈ r_id <$> results → is_Some (rank_in results i).
Proof.
  induction results as [|r rest IH]; intros Hi; cbn; [by apply elem_of_nil in Hi|].
  destruct (decide (r_id r = i)); [by eexists|].
  rewrite fmap_cons in Hi. apply elem_of_cons in Hi as [->|Hi]; [done | by apply IH].
Qed.

(** The dict comprehension keeps the last rank of an id; with no id twice
    in the list this is the rank the list gives. *)
Lemma rank_map_lookup results i :
  NoDup (r_id <$> results) → rank_map results !! i = rank_in results i.
Proof.
  unfold rank_map.
  assert (Hgen : ∀ m : gmap Z Z,
            NoDup (r_id <$> results) →
            foldl (λ m r, <[r_id r := r_rank r]> m) m results !! i
            = match rank_in results i with Some v => Some v | None => m !! i end).
  { induction results as [|r rest IH]; intros m Hnd; cbn; [done|].
    rewrite fmap_cons in Hnd. apply NoDup_cons in Hnd as [Hr Hnd].
    rewrite IH by done. destruct (decide (r_id r = i)) as [<-|Hne].
    - by rewrite rank_in_None, lookup_insert_eq.
    - by rewrite lookup_insert_ne. }
  intros Hnd. rewrite Hgen by done. by destruct (rank_in results i).
Qed.

Lemma build_lookup_lookup results i :
  build_lookup results !! i = first_with_id results i.
Proof.
  unfold build_lookup.
  assert (Hgen : ∀ m : gmap Z Result,
            foldl (λ m r, match m !! r_id r with
                          | Some _ => m
                          | None => <[r_id r := r]> m
                          end) m results !! i
            = match m !! i with Some r => Some r | None => first_with_id results i end).
  { induction results as [|r rest IH]; intros m; cbn; [by destruct (m !! i)|].
    rewrite IH. destruct (decide (r_id r = i)) as [<-|Hne].
    - destruct (m !! r_id r) as [r'|] eqn:Hm; [by rewrite Hm|].
      by rewrite lookup_insert_eq.
    - destruct (m !! r_id r) as [r'|] eqn:Hm; [done|].
      by rewrite lookup_insert_ne. }
  by rewrite Hgen.
Qed.

Lemma first_with_id_Some results i :
  i ∈ r_id <$> results → ∃ r, first_with_id results i = Some r ∧ r_id r = i.
Proof.
  induction results as [|r rest IH]; intros Hi; cbn; [by apply elem_of_nil in Hi|].
  destruct (decide (r_id r = i)); [by eexists|].
  rewrite fmap_cons in Hi. apply elem_of_cons in Hi as [->|Hi]; [done | by apply IH].
Qed.

(** *** The fusion loop *)

Lemma rank_in_denominator results fetch_limit k i :
  k + (fetch_limit + 1) ≠ 0 →
  Forall (λ r, k + r_rank r ≠ 0) results →
  k + default (fetch_limit + 1) (rank_in results i) ≠ 0.
Proof.
  intros Hd Hall. induction results as [|r rest IH]; cbn; [done|].
  apply list.Forall_cons in Hall as [Hr Hrest].
  destruct (decide (r_id r = i)); [done | by apply IH].
Qed.

Lemma rrf_result_nonzero bm25_results vec_results fetch_limit k wb wv i :
  NoDup (r_id <$> bm25_results) → NoDup (r_id <$> vec_results) →
  k + default (fetch_limit + 1) (rank_in bm25_results i) ≠ 0 →
  k + default (fetch_limit + 1) (rank_in vec_results i) ≠ 0 →
  i ∈ (r_id <$> bm25_results) ∨ i ∈ (r_id <$> vec_results) →
  ∃ r, rrf_result (rank_map bm25_results) (rank_map vec_results)
                  (build_lookup (bm25_results ++ vec_results))
                  (fetch_limit + 1) k wb wv i = Ok r
       ∧ r_id r = i
       ∧ rrf_spec bm25_results vec_results fetch_limit k wb wv r.
Proof.
  intros Hb Hv Hnb Hnv Hi.
  unfold rrf_result. rewrite !rank_map_lookup by done.
  rewrite decide_False by done. rewrite decide_False by done.
  rewrite build_lookup_lookup.
  destruct (first_with_id_Some (bm25_results ++ vec_results) i) as (r0 & -> & Hr0).
  { rewrite fmap_app, elem_of_app. done. }
  eexists. split; [done|]. split; [done|].
  unfold rrf_spec. cbn. rewrite Hr0. done.
Qed.

Lemma rrf_result_spec bm25_results vec_results fetch_limit k wb wv i :
  NoDup (r_id <$> bm25_results) → NoDup (r_id <$> vec_results) →
  denominators_nonzero bm25_results vec_results fetch_limit k →
  i ∈ (r_id <$> bm25_results) ∨ i ∈ (r_id <$> vec_results) →
  ∃ r, rrf_result (rank_map bm25_results) (rank_map vec_results)
                  (build_lookup (bm25_results ++ vec_results))
                  (fetch_limit + 1) k wb wv i = Ok r
       ∧ r_id r = i
       ∧ rrf_spec bm25_results vec_results fetch_limit k wb wv r.
Proof.
  intros Hb Hv [Hd Hall] Hi. apply Forall_app in Hall as [Hallb Hallv].
  apply rrf_result_nonzero; try done; by apply rank_in_denominator.
Qed.

(** An id for which the loop returns a result is an id of one of the lists. *)
Lemma rrf_result_Ok_found bm25_results vec_results default_rank k wb wv i r :
  rrf_result (rank_map bm25_results) (rank_map vec_results)
             (build_lookup (bm25_results ++ vec_results))
             default_rank k wb wv i = Ok r →
  i ∈ (r_id <$> bm25_results) ∨ i ∈ (r_id <$> vec_results).
Proof.
  intros Hir. unfold rrf_result in Hir.
  destruct (decide _); [done|]. destruct (decide _); [done|].
  rewrite build_lookup_lookup in Hir.
  destruct (decide (i ∈ r_id <$> (bm25_results ++ vec_results))) as [Hin|Hout].
  - by rewrite fmap_app, elem_of_app in Hin.
  - assert (first_with_id (bm25_results ++ vec_results) i = None) as Hnone.
    { clear -Hout. induction (bm25_results ++ vec_results) as [|x l IH]; [done|].
      cbn. rewrite fmap_cons, not_elem_of_cons in Hout. destruct Hout.
      rewrite decide_False by done. auto. }
    by rewrite Hnone in Hir.
Qed.

(** The loop when no division it makes is a division by zero. *)
Lemma rrf_results_nonzero bm25_results vec_results fetch_limit k wb wv :
  let all_ids := set_union_iter (r_id <$> bm25_results) (r_id <$> vec_results) in
  NoDup (r_id <$> bm25_results) → NoDup (r_id <$> vec_results) →
  (∀ i, i ∈ all_ids → i ∈ (r_id <$> bm25_results) ∨ i ∈ (r_id <$> vec_results)) →
  (∀ i, i ∈ (r_id <$> bm25_results) ∨ i ∈ (r_id <$> vec_results) →
        k + default (fetch_limit + 1) (rank_in bm25_results i) ≠ 0
        ∧ k + default (fetch_limit + 1) (rank_in vec_results i) ≠ 0) →
  ∃ scored,
    rrf_results bm25_results vec_results fetch_limit k wb wv = Ok scored
    ∧ r_id <$> scored = all_ids
    ∧ Forall (rrf_spec bm25_results vec_results fetch_limit k wb wv) scored.
Proof.
  intros all_ids Hb Hv Hcover Hnz. unfold rrf_results. fold all_ids.
  destruct (mapM_res_total
              (rrf_result (rank_map bm25_results) (rank_map vec_results)
                          (build_lookup (bm25_results ++ vec_results))
                          (fetch_limit + 1) k wb wv) all_ids) as [scored Hscored].
  { intros i Hi. apply Hcover in Hi. destruct (Hnz i Hi) as [Hnb Hnv].
    destruct (rrf_result_nonzero bm25_results vec_results fetch_limit k wb wv i)
      as (r & ? & _); auto. by exists r. }
  exists scored. split; [done|]. apply mapM_res_Ok in Hscored.
  clear Hcover. induction Hscored as [|i r ids rs Hir _ [IH1 IH2]]; [done|].
  pose proof (rrf_result_Ok_found _ _ _ _ _ _ _ _ Hir) as Hi.
  destruct (Hnz i Hi) as [Hnb Hnv].
  destruct (rrf_result_nonzero bm25_results vec_results fetch_limit k wb wv i
              Hb Hv Hnb Hnv Hi) as (r' & Hr' & Hid & Hspec).
  rewrite Hr' in Hir. injection Hir as <-.
  split; [by rewrite fmap_cons, Hid, IH1 | by constructor].
Qed.

Lemma rrf_results_spec bm25_results vec_results fetch_limit k wb wv :
  let all_ids := set_union_iter (r_id <$> bm25_results) (r_id <$> vec_results) in
  NoDup (r_id <$> bm25_results) → NoDup (r_id <$> vec_results) →
  (∀ i, i ∈ all_ids → i ∈ (r_id <$> bm25_results) ∨ i ∈ (r_id <$> vec_results)) →
  denominators_nonzero bm25_results vec_results fetch_limit k →
  ∃ scored,
    rrf_results bm25_results vec_results fetch_limit k wb wv = Ok scored
    ∧ r_id <$> scored = all_ids
    ∧ Forall (rrf_spec bm25_results vec_results fetch_limit k wb wv) scored.
Proof.
  intros all_ids Hb Hv Hcover [Hd Hall]. apply Forall_app in Hall as [Hallb Hallv].
  apply rrf_results_nonzero; try done.
  intros i _. split; by apply rank_in_denominator.
Qed.

(** The loop when a division it makes is a division by zero. *)
Lemma rrf_results_zero bm25_results vec_results fetch_limit k wb wv i :
  let all_ids := set_union_iter (r_id <$> bm25_results) (r_id <$> vec_results) in
  NoDup (r_id <$> bm25_results) → NoDup (r_id <$> vec_results) →
  (∀ j, j ∈ all_ids → j ∈ (r_id <$> bm25_results) ∨ j ∈ (r_id <$> vec_results)) →
  i ∈ all_ids →
  (k + default (fetch_limit + 1) (rank_in bm25_results i) = 0
   ∨ k + default (fetch_limit + 1) (rank_in vec_results i) = 0) →
  rrf_results bm25_results vec_results fetch_limit k wb wv = Raise ZeroDivisionError.
Proof.
  intros all_ids Hb Hv Hcover Hi Hzero. unfold rrf_results. fold all_ids.
  apply (mapM_res_Raise _ ZeroDivisionError all_ids i); [|done|].
  - intros j Hj. unfold rrf_result.
    destruct (decide _); [by right|]. destruct (decide _); [by right|].
    rewrite build_lookup_lookup.
    destruct (first_with_id_Some (bm25_results ++ vec_results) j) as (r0 & -> & _).
    { rewrite fmap_app, elem_of_app. by apply Hcover. }
    by left.
  - unfold rrf_result. rewrite !rank_map_lookup by done.
    destruct (decide (k + default (fetch_limit + 1) (rank_in bm25_results i) = 0));
      [done|].
    destruct Hzero as [Hz|Hz]; [done|]. by rewrite decide_True.
Qed.

Lemma rrf_spec_set_rank bm25_results vec_results fetch_limit k wb wv i r :
  rrf_spec bm25_results vec_results fetch_limit k wb wv r →
  rrf_spec bm25_results vec_results fetch_limit k wb wv (set_rank (i, r)).
Proof. done. Qed.

Lemma assign_ranks_Forall (P : Result → Prop) xs limit :
  (∀ i r, P r → P (set_rank (i, r))) → Forall P xs → Forall P (assign_ranks xs limit).
Proof.
  intros Hset Hall. rewrite Forall_lookup. intros i r Hi.
  apply assign_ranks_lookup in Hi as (r0 & Hr0 & ->).
  apply Hset. rewrite Forall_lookup in Hall. eauto.
Qed.

(** *** [search_hybrid] *)

(** What a run of [search_hybrid] computes when both queries return and no
    denominator is zero. *)
Lemma search_hybrid_run db query embedding limit k wb wv bm25_results vec_results :
  let fetch_limit := limit * 3 in
  let all_ids := set_union_iter (r_id <$> bm25_results) (r_id <$> vec_results) in
  search_bm25 db query fetch_limit = Ok bm25_results →
  search_vector db embedding fetch_limit = Ok vec_results →
  NoDup (r_id <$> bm25_results) → NoDup (r_id <$> vec_results) →
  (∀ i, i ∈ all_ids → i ∈ (r_id <$> bm25_results) ∨ i ∈ (r_id <$> vec_results)) →
  denominators_nonzero bm25_results vec_results fetch_limit k →
  ∃ scored sorted,
    rrf_results bm25_results vec_results fetch_limit k wb wv = Ok scored
    ∧ r_id <$> scored = all_ids
    ∧ Forall (rrf_spec bm25_results vec_results fetch_limit k wb wv) scored
    ∧ list_sort_reverse "rrf_score" r_rrf_score scored = Ok sorted
    ∧ sorted ≡ₚ scored
    ∧ search_hybrid db query embedding limit k wb wv = Ok (assign_ranks sorted limit).
Proof.
  intros fetch_limit all_ids Hbm Hvec Hb Hv Hcover Hden.
  destruct (rrf_results_spec bm25_results vec_results fetch_limit k wb wv
              Hb Hv Hcover Hden) as (scored & Hscored & Hids & Hspec).
  destruct (list_sort_reverse_perm "rrf_score" r_rrf_score scored)
    as (sorted & Hsorted & Hperm).
  { eapply Forall_impl; [exact Hspec|]. intros r (Hr & _). by rewrite Hr. }
  exists scored, sorted. repeat split; try done.
  unfold search_hybrid. fold fetch_limit. rewrite Hbm. cbn. rewrite Hvec. cbn.
  rewrite Hscored. cbn. by rewrite Hsorted.
Qed.

(** C3 (as amended). [search_hybrid] reads the lexical cursor up to
    [LIMIT 3 * limit] (at most [3 * limit] candidates for [0 ≤ limit]; a
    negative [LIMIT] is no limit) and asks the vector engine for
    [k = 3 * limit] neighbours. With [bm25_rank(id)] and [vec_rank(id)] the
    1-based rank of the id in its list, or [3 * limit + 1] when the list
    does not hold it:
    - if [k + bm25_rank(id)] or [k + vec_rank(id)] is zero for an id of
      either list, the call raises [ZeroDivisionError];
    - otherwise it returns. Every id of either list is scored exactly once,
      with [rrf_score = w_bm25 * 1/(k + bm25_rank(id)) + w_vec * 1/(k + vec_rank(id))],
      and its fields [bm25_rank] and [vec_rank] hold the rank in the list, or
      [None] for a list that does not hold the id. The list returned is the
      slice [[:limit]] of an arrangement of the scored results, with those
      scores and fields, [rank] counting from 1; when [limit] covers all the
      scored results, every id of either list is returned with its score. *)
Theorem search_hybrid_rrf db query embedding limit k wb wv rows_b rows_v :
  let fetch_limit := limit * 3 in
  let bm25_results :=
    bm25_result <$> enumerate 1 (if decide (fetch_limit < 0) then rows_b
                                 else take (Z.to_nat fetch_limit) rows_b) in
  let vec_results := vec_result <$> enumerate 1 rows_v in
  let found := λ i, i ∈ (r_id <$> bm25_results) ∨ i ∈ (r_id <$> vec_results) in
  let bm25_rank := λ i, default (fetch_limit + 1) (rank_in bm25_results i) in
  let vec_rank := λ i, default (fetch_limit + 1) (rank_in vec_results i) in
  let all_ids := set_union_iter (r_id <$> bm25_results) (r_id <$> vec_results) in
  fts5_match db query = Ok rows_b →
  vec0_knn db embedding fetch_limit = Ok rows_v →
  NoDup (r_id <$> bm25_results) → NoDup (r_id <$> vec_results) →
  (NoDup all_ids ∧ ∀ i, i ∈ all_ids ↔ found i) →
  (0 ≤ limit → Z.of_nat (length bm25_results) ≤ fetch_limit)
  ∧ ((∃ i, found i ∧ (k + bm25_rank i = 0 ∨ k + vec_rank i = 0)) →
       search_hybrid db query embedding limit k wb wv = Raise ZeroDivisionError)
  ∧ ((∀ i, found i → k + bm25_rank i ≠ 0 ∧ k + vec_rank i ≠ 0) →
       ∃ scored sorted out,
         rrf_results bm25_results vec_results fetch_limit k wb wv = Ok scored
         ∧ NoDup (r_id <$> scored)
         ∧ (∀ i, found i →
              ∃ r, r ∈ scored ∧ r_id r = i
                   ∧ r_rrf_score r
                     = Some (fadd (fmul wb (frecip (k + bm25_rank i)))
                                  (fmul wv (frecip (k + vec_rank i))))
                   ∧ r_bm25_rank r = rank_in bm25_results i
                   ∧ r_vec_rank r = rank_in vec_results i
                   ∧ (i ∉ r_id <$> bm25_results → r_bm25_rank r = None)
                   ∧ (i ∉ r_id <$> vec_results → r_vec_rank r = None))
         ∧ Forall (λ r, found (r_id r)) scored
         ∧ sorted ≡ₚ scored
         ∧ search_hybrid db query embedding limit k wb wv = Ok out
         ∧ length out
           = (if decide (0 ≤ limit)%Z then Z.to_nat limit `min` length scored
              else length scored - Z.to_nat (- limit))%nat
         ∧ (∀ (i : nat) r, out !! i = Some r →
              r_rank r = Z.of_nat i + 1
              ∧ ∃ r0, sorted !! i = Some r0 ∧ same_but_rank r0 r)
         ∧ Forall (rrf_spec bm25_results vec_results fetch_limit k wb wv) out
         ∧ (Z.of_nat (length scored) ≤ limit →
              ∀ i, found i →
                ∃ r, r ∈ out ∧ r_id r = i
                     ∧ rrf_spec bm25_results vec_results fetch_limit k wb wv r)).
Proof.
  intros fetch_limit bm25_results vec_results found bm25_rank vec_rank all_ids
         Hrows_b Hrows_v Hb Hv [Hnd Hcover].
  assert (Hbm : search_bm25 db query fetch_limit = Ok bm25_results).
  { unfold search_bm25. by rewrite Hrows_b. }
  assert (Hvec : search_vector db embedding fetch_limit = Ok vec_results).
  { unfold search_vector. by rewrite Hrows_v. }
  split; [|split].
  - intros Hlimit. unfold bm25_results.
    rewrite length_fmap, length_enumerate, decide_False by lia.
    rewrite length_take. lia.
  - intros (i & Hi & Hzero).
    unfold search_hybrid. fold fetch_limit. rewrite Hbm. cbn. rewrite Hvec. cbn.
    rewrite (rrf_results_zero bm25_results vec_results fetch_limit k wb wv i);
      [done|done|done| |by apply Hcover|done].
    intros j Hj. by apply Hcover.
  - intros Hnz.
    destruct (rrf_results_nonzero bm25_results vec_results fetch_limit k wb wv
                Hb Hv (λ i, proj1 (Hcover i)) Hnz) as (scored & Hscored & Hids & Hspec).
    fold all_ids in Hids.
    destruct (list_sort_reverse_perm "rrf_score" r_rrf_score scored)
      as (sorted & Hsorted & Hperm).
    { eapply Forall_impl; [exact Hspec|]. intros r (Hr & _). by rewrite Hr. }
    assert (Hrun : search_hybrid db query embedding limit k wb wv
                   = Ok (assign_ranks sorted limit)).
    { unfold search_hybrid. fold fetch_limit. rewrite Hbm. cbn. rewrite Hvec. cbn.
      rewrite Hscored. cbn. by rewrite Hsorted. }
    assert (Hlen : length (assign_ranks sorted limit)
                   = (if decide (0 ≤ limit)%Z then Z.to_nat limit `min` length scored
                      else length scored - Z.to_nat (- limit))%nat).
    { rewrite assign_ranks_length. unfold py_slice_to.
      apply Permutation_length in Hperm.
      destruct (decide (0 ≤ limit)); rewrite length_take; lia. }
    assert (Hout : Forall (rrf_spec bm25_results vec_results fetch_limit k wb wv)
                          (assign_ranks sorted limit)).
    { apply assign_ranks_Forall; [by intros|]. by rewrite Hperm. }
    exists scored, sorted, (assign_ranks sorted limit).
    split; [done|]. split; [by rewrite Hids|]. split; [|split; [|split; [done|]]].
    + intros i Hi. apply Hcover in Hi. rewrite <- Hids in Hi.
      apply list_elem_of_fmap in Hi as (r & -> & Hr). exists r.
      rewrite Forall_forall in Hspec. destruct (Hspec r Hr) as (Hs & Hrb & Hrv).
      split; [done|]. split; [done|]. split; [exact Hs|].
      split; [done|]. split; [done|].
      rewrite Hrb, Hrv. split; apply rank_in_None.
    + rewrite Forall_forall. intros r Hr. apply Hcover. rewrite <- Hids.
      apply list_elem_of_fmap. by exists r.
    + split; [done|]. split; [done|]. split; [|split; [done|]].
      * intros i r Hi. apply assign_ranks_lookup in Hi as (r0 & Hr0 & ->).
        split; [cbn; lia|]. exists r0. split; [done | apply set_rank_same].
      * intros Hall i Hi. apply Hcover in Hi. rewrite <- Hids in Hi.
        apply list_elem_of_fmap in Hi as (r0 & -> & Hr0). rewrite <- Hperm in Hr0.
        apply list_elem_of_lookup in Hr0 as [j Hj].
        assert (Hlt : (j < length (assign_ranks sorted limit))%nat).
        { apply lookup_lt_Some in Hj. apply Permutation_length in Hperm.
          rewrite Hlen, decide_True by lia. lia. }
        apply lookup_lt_is_Some in Hlt as [r Hr].
        pose proof Hr as (r0' & Hr0' & ->)%assign_ranks_lookup.
        assert (r0' = r0) as -> by congruence.
        exists (set_rank (1 + Z.of_nat j, r0)).
        split; [by eapply list_elem_of_lookup_2|]. split; [done|].
        rewrite Forall_forall in Hout. apply Hout. by eapply list_elem_of_lookup_2.
Qed.

Lemma occurs_before_lookup (ids : list Z) a b :
  occurs_before ids a b →
  ∃ i j : nat, ids !! i = Some a ∧ ids !! j = Some b ∧ (i < j)%nat.
Proof.
  intros (l1 & l2 & l3 & ->).
  exists (length l1), (length (l1 ++ a :: l2)). split; [|split].
  - by apply list_lookup_middle.
  - rewrite (app_comm_cons l2), app_assoc. by apply list_lookup_middle.
  - rewrite length_app. cbn. lia.
Qed.

(** In a list without duplicates no two elements occur before each other. *)
Lemma occurs_before_asym (ids : list Z) a b :
  NoDup ids → occurs_before ids a b → occurs_before ids b a → False.
Proof.
  intros Hnd (i & j & Hi & Hj & Hij)%occurs_before_lookup
             (i' & j' & Hi' & Hj' & Hij')%occurs_before_lookup.
  pose proof (NoDup_lookup _ _ _ _ Hnd Hi Hj').
  pose proof (NoDup_lookup _ _ _ _ Hnd Hj Hi'). lia.
Qed.

(** C4 (as amended). The results of [search_hybrid] are in the order of
    decreasing [rrf_score]; results of equal score stay in the order in which
    the set [all_ids] was iterated (the sort is stable and no other key is
    compared), and [rank] numbers the returned results from 1. This fixes
    the list: no other arrangement of the scored results is in that order,
    so the result is determined by the store, the arguments and the
    iteration order of the set. *)
Theorem search_hybrid_order db query embedding limit k wb wv bm25_results vec_results :
  let fetch_limit := limit * 3 in
  let all_ids := set_union_iter (r_id <$> bm25_results) (r_id <$> vec_results) in
  let order := desc_then r_rrf_score (λ a b, occurs_before all_ids (r_id a) (r_id b)) in
  search_bm25 db query fetch_limit = Ok bm25_results →
  search_vector db embedding fetch_limit = Ok vec_results →
  NoDup (r_id <$> bm25_results) → NoDup (r_id <$> vec_results) →
  (NoDup all_ids
   ∧ ∀ i, i ∈ all_ids → i ∈ (r_id <$> bm25_results) ∨ i ∈ (r_id <$> vec_results)) →
  denominators_nonzero bm25_results vec_results fetch_limit k →
  ∃ sorted,
    search_hybrid db query embedding limit k wb wv = Ok (assign_ranks sorted limit)
    ∧ r_id <$> sorted ≡ₚ all_ids
    ∧ StronglySorted order sorted
    ∧ (∀ sorted', sorted' ≡ₚ sorted → StronglySorted order sorted' → sorted' = sorted)
    ∧ ∀ (i : nat) r, assign_ranks sorted limit !! i = Some r →
        r_rank r = Z.of_nat i + 1
        ∧ ∃ r0, sorted !! i = Some r0 ∧ same_but_rank r0 r.
Proof using flt_asym flt_negtrans.
  intros fetch_limit all_ids order Hbm Hvec Hb Hv [Hnd Hcover] Hden.
  destruct (search_hybrid_run db query embedding limit k wb wv bm25_results vec_results
              Hbm Hvec Hb Hv Hcover Hden)
    as (scored & sorted & Hscored & Hids & Hspec & Hsorted & Hperm & Hrun).
  assert (Hs : StronglySorted order sorted).
  { eapply list_sort_reverse_sorted; [exact Hsorted|].
    apply StronglySorted_of_fmap. fold all_ids in Hids. rewrite Hids.
    apply StronglySorted_occurs_before. }
  exists sorted. split; [done|]. split; [by rewrite Hperm, Hids|].
  split; [done|]. split.
  - intros sorted' Hperm' Hs'.
    apply (StronglySorted_unique_strong order); [|done|done|done].
    intros x1 x2 _ _ (sa & sb & Ha & Hb' & Hab & Htie) (sb' & sa' & Hb'' & Ha' & Hba & Htie').
    rewrite Ha in Ha'. rewrite Hb' in Hb''. injection Ha' as <-. injection Hb'' as <-.
    destruct (occurs_before_asym all_ids (r_id x1) (r_id x2)); auto.
  - intros i r Hi. apply assign_ranks_lookup in Hi as (r0 & Hr0 & ->).
    split; [cbn; lia|]. exists r0. split; [done | apply set_rank_same].
Qed.

(** *** [search_hybrid_reranked] *)

Lemma search_hybrid_assigns db query embedding limit k wb wv out :
  search_hybrid db query embedding limit k wb wv = Ok out →
  ∃ sorted, out = assign_ranks sorted limit.
Proof.
  unfold search_hybrid, mbind, Res_bind, res_bind.
  destruct (search_bm25 _ _ _); [|done]. destruct (search_vector _ _ _); [|done].
  destruct (rrf_results _ _ _ _ _ _); [|done].
  destruct (list_sort_reverse _ _ _) as [sorted|]; [|done].
  intros [= <-]. by exists sorted.
Qed.

Lemma enumerate_ranks_sorted (xs : list Result) start :
  StronglySorted (λ a b, r_rank a < r_rank b) (set_rank <$> enumerate start xs)
  ∧ Forall (λ r, start ≤ r_rank r) (set_rank <$> enumerate start xs).
Proof.
  revert start. induction xs as [|x xs IH]; intros start; cbn; [by split; constructor|].
  destruct (IH (start + 1)) as [Hs Hge]. split.
  - constructor; [done|]. eapply Forall_impl; [exact Hge|]. cbn. intros; lia.
  - constructor; [cbn; lia|]. eapply Forall_impl; [exact Hge|]. cbn. intros; lia.
Qed.

Lemma attach_scores_spec candidates : ∀ scores,
  length scores = length candidates →
  Forall (λ r, is_Some (r_rerank_score r)) (attach_scores candidates scores)
  ∧ r_rank <$> attach_scores candidates scores = r_rank <$> candidates.
Proof.
  induction candidates as [|c cs IH]; intros [|s ss] Hlen; try done.
  cbn in Hlen. destruct (IH ss) as [Hsome Hrank]; [lia|].
  split; [by constructor | by cbn; rewrite Hrank].
Qed.

(** C5 (as amended). On the candidates of the hybrid search,
    [search_hybrid_reranked] returns the empty list without a call to the
    reranker when there is no candidate, as is the case for
    [rerank_top_k = 0]; otherwise it calls the reranker once and, given one
    score per candidate, returns the candidates by decreasing reranker score,
    candidates of equal score in the order of their RRF rank, cut with
    [[:limit]] and numbered from 1: at most [limit] results when
    [0 ≤ limit]. *)
Theorem search_hybrid_reranked_spec db query embedding limit rerank_top_k candidates :
  search_hybrid db query embedding rerank_top_k 60 fone fone = Ok candidates →
  (rerank_top_k = 0 → candidates = [])
  ∧ (candidates = [] →
       search_hybrid_reranked db query embedding limit rerank_top_k = (Ok [], []))
  ∧ (candidates ≠ [] →
       ∀ scores,
         rerank query (r_content <$> candidates) = Ok scores →
         length scores = length candidates →
         ∃ sorted,
           search_hybrid_reranked db query embedding limit rerank_top_k
           = (Ok (assign_ranks sorted limit), [(query, r_content <$> candidates)])
           ∧ sorted ≡ₚ attach_scores candidates scores
           ∧ StronglySorted (desc_then r_rerank_score (λ a b, r_rank a < r_rank b)) sorted
           ∧ (0 ≤ limit → Z.of_nat (length (assign_ranks sorted limit)) ≤ limit)
           ∧ ∀ (i : nat) r, assign_ranks sorted limit !! i = Some r →
               r_rank r = Z.of_nat i + 1
               ∧ ∃ r0, sorted !! i = Some r0 ∧ same_but_rank r0 r).
Proof using flt_asym flt_negtrans.
  intros Hcand. split; [|split].
  - intros ->. by apply search_hybrid_assigns in Hcand as [sorted ->].
  - intros ->. unfold search_hybrid_reranked. by rewrite Hcand.
  - intros Hne scores Hscores Hlen.
    destruct (attach_scores_spec candidates scores Hlen) as [Hsome Hranks].
    destruct (list_sort_reverse_perm "rerank_score" r_rerank_score
                (attach_scores candidates scores) Hsome) as (sorted & Hsorted & Hperm).
    exists sorted. split; [|split; [done|split; [|split]]].
    + unfold search_hybrid_reranked. rewrite Hcand.
      destruct candidates as [|c cs]; [done|].
      cbv zeta. rewrite Hscores. unfold mbind, Res_bind, res_bind. by rewrite Hsorted.
    + eapply list_sort_reverse_sorted; [exact Hsorted|].
      apply StronglySorted_of_fmap. rewrite Hranks.
      apply search_hybrid_assigns in Hcand as [sorted0 ->].
      apply (StronglySorted_fmap r_rank (λ a b, r_rank a < r_rank b)); [done|].
      apply enumerate_ranks_sorted.
    + intros Hlimit. rewrite assign_ranks_length. by apply py_slice_to_length.
    + intros i r Hi. apply assign_ranks_lookup in Hi as (r0 & Hr0 & ->).
      split; [cbn; lia|]. exists r0. split; [done | apply set_rank_same].
Qed.

(** *** What [delete_source] removes *)

Lemma filter_all {A} (P : A → Prop) `{∀ x, Decision (P x)} (l : list A) :
  Forall P l → filter P l = l.
Proof.
  induction 1 as [|x l Hx _ IH]; [done|]. by rewrite filter_cons_True, IH.
Qed.

Lemma filter_none {A} (P : A → Prop) `{∀ x, Decision (P x)} (l : list A) :
  Forall (λ x, ¬ P x) l → filter P l = [].
Proof.
  induction 1 as [|x l Hx _ IH]; [done|]. by rewrite filter_cons_False.
Qed.

Lemma filter_nil_Forall {A} (P : A → Prop) `{∀ x, Decision (P x)} (l : list A) :
  filter P l = [] → Forall (λ x, ¬ P x) l.
Proof.
  intros Hnil. rewrite Forall_forall. intros x Hx HP.
  by apply (filter_nil_not_elem_of P l x).
Qed.

(** The loop over the ids deletes the vector rows of these ids, and no other. *)
Lemma without_ids_filter ids : ∀ rows,
  without_ids ids rows = filter (λ r, r.1 ∉ ids) rows.
Proof.
  induction ids as [|i rest IH]; intros rows.
  - cbn. symmetry. apply filter_all, Forall_forall. intros r _. apply not_elem_of_nil.
  - change (without_ids (i :: rest) rows)
      with (without_ids rest (filter (λ r, r.1 ≠ i) rows)).
    rewrite IH, list_filter_filter. apply list_filter_iff.
    intros r. rewrite not_elem_of_cons. by split; intros [? ?].
Qed.

(** The store [delete_source] leaves and the count it returns, with or
    without a chunk of the source. *)
Lemma delete_source_run source db :
  let gone := d_id <$> filter (λ d, d_source d = source) (docs db) in
  delete_source source db
  = (Ok (Z.of_nat (length (filter (λ d, d_source d = source) (docs db)))),
     mkStore (filter (λ d, d_source d ≠ source) (docs db))
             (filter (λ r, r.1 ∉ gone) (docs_fts db))
             (filter (λ r, r.1 ∉ gone) (docs_vec db))).
Proof.
  cbn zeta. rewrite delete_source_spec. cbn zeta. rewrite length_fmap.
  rewrite without_ids_filter.
  destruct (decide (_ = [])) as [Hnil|Hne]; [|done].
  rewrite Hnil. apply fmap_nil_inv in Hnil. f_equal.
  destruct db as [ds fs vs]. cbn [docs docs_fts docs_vec] in *. f_equal.
  - symmetry. apply filter_all. apply filter_nil_Forall in Hnil.
    eapply Forall_impl; [exact Hnil|]. by intros d Hd.
  - symmetry. apply filter_all, Forall_forall. intros r _. apply not_elem_of_nil.
  - symmetry. apply filter_all, Forall_forall. intros r _. apply not_elem_of_nil.
Qed.

(** X1. [delete_source] returns the number of chunks whose source is the
    given one and removes exactly these chunks from the three tables: the
    chunk rows of the source, and the lexical entries and vector rows under
    their ids; every other row stays, in its place. *)
Theorem delete_source_removes_exactly source db :
  let gone := d_id <$> filter (λ d, d_source d = source) (docs db) in
  let run := delete_source source db in
  run.1 = Ok (Z.of_nat (length gone))
  ∧ docs run.2 = filter (λ d, d_source d ≠ source) (docs db)
  ∧ docs_fts run.2 = filter (λ r, r.1 ∉ gone) (docs_fts db)
  ∧ docs_vec run.2 = filter (λ r, r.1 ∉ gone) (docs_vec db)
  ∧ source ∉ d_source <$> docs run.2.
Proof.
  cbn zeta. rewrite delete_source_run. cbn [fst snd docs docs_fts docs_vec].
  rewrite length_fmap. repeat split.
  intros (d & Hs & Hd)%list_elem_of_fmap.
  apply list_elem_of_filter in Hd as [Hne _]. by apply Hne.
Qed.

(** X2. A second [delete_source] of the same source returns 0 and leaves
    the store as the first call left it. *)
Theorem delete_source_twice source db :
  delete_source source (delete_source source db).2
  = (Ok 0, (delete_source source db).2).
Proof.
  rewrite (delete_source_run source db). cbn [snd].
  rewrite delete_source_spec. cbn [docs docs_fts docs_vec].
  assert (Hnone : filter (λ d, d_source d = source)
                    (filter (λ d, d_source d ≠ source) (docs db)) = []).
  { apply filter_none, Forall_forall. intros d Hd.
    by apply list_elem_of_filter in Hd as [Hne _]. }
  rewrite Hnone. cbn. done.
Qed.

(** [index_document] of a chunk of a source the store has no chunk of,
    followed by [delete_source] of that source. *)
Lemma index_then_delete db source ci content emb md :
  balanced db → length emb = DIMENSIONS → source ∉ d_source <$> docs db →
  let n := next_rowid (doc_ids db) in
  index_document source ci content emb md db
  = (Ok n, with_items db [n] [(source, ci, content, emb, md)])
  ∧ delete_source source (with_items db [n] [(source, ci, content, emb, md)])
    = (Ok 1, db).
Proof.
  intros Hb Hlen Hnew n. split; [by apply index_document_ok|].
  rewrite delete_source_run. unfold with_items. cbn [docs docs_fts docs_vec zip_with].
  assert (Hold : Forall (λ d, d_source d ≠ source) (docs db)).
  { rewrite Forall_forall. intros d Hd Hs. apply Hnew.
    apply list_elem_of_fmap. by exists d. }
  rewrite !list.filter_app.
  rewrite (filter_none (λ d, d_source d = source) (docs db))
    by (eapply Forall_impl; [exact Hold|]; by intros d Hd Hs).
  rewrite (filter_all (λ d, d_source d ≠ source) (docs db)) by done.
  cbn [item_doc_row item_fts_row item_vec_row].
  rewrite !filter_cons_True by done. rewrite filter_cons_False by (by intros Hx; apply Hx).
  rewrite !filter_nil. cbn [app fmap list_fmap d_id length].
  pose proof (next_rowid_fresh (doc_ids db)) as Hfresh. fold n in Hfresh.
  destruct (Hb n) as (Hf & Hv & _).
  apply count_id_zero in Hfresh. rewrite Hfresh in Hf, Hv.
  apply count_id_zero in Hf, Hv.
  assert (Hkeep : ∀ {V} (rows : list (Z * V)),
            n ∉ rows.*1 → filter (λ r, r.1 ∉ [n]) (rows) = rows).
  { intros V rows Hn. apply filter_all, Forall_forall. intros r Hr Hin.
    apply list_elem_of_singleton in Hin. apply Hn.
    apply list_elem_of_fmap. by exists r. }
  rewrite (Hkeep _ (docs_fts db)), (Hkeep _ (docs_vec db)) by done.
  rewrite ?filter_cons_False by (cbn; intros Hx; apply Hx; by left).
  rewrite ?filter_nil, !app_nil_r. by destruct db.
Qed.

(** X3. Round trip: from a consistent store with no chunk of [source],
    [index_document] of a chunk of that source followed by
    [delete_source source] returns 1 and gives back the store as it was. *)
Theorem index_then_delete_restores db source ci content emb md :
  consistent db → length emb = DIMENSIONS → source ∉ d_source <$> docs db →
  ∃ i db1,
    index_document source ci content emb md db = (Ok i, db1)
    ∧ delete_source source db1 = (Ok 1, db).
Proof.
  intros Hb%consistent_balanced Hlen Hnew.
  destruct (index_then_delete db source ci content emb md Hb Hlen Hnew) as [H1 H2].
  eauto.
Qed.

(** X4. The table [docs] is declared with [id INTEGER PRIMARY KEY] and no
    [AUTOINCREMENT]: the id of a chunk that was deleted is given again.
    After the round trip above the next [index_document] returns the id the
    deleted chunk had. *)
Theorem deleted_id_is_given_again db source ci content emb md
    source' ci' content' emb' md' :
  consistent db → length emb = DIMENSIONS → length emb' = DIMENSIONS →
  source ∉ d_source <$> docs db →
  ∃ i db1 db2,
    index_document source ci content emb md db = (Ok i, db1)
    ∧ delete_source source db1 = (Ok 1, db2)
    ∧ (index_document source' ci' content' emb' md' db2).1 = Ok i.
Proof.
  intros Hb%consistent_balanced Hlen Hlen' Hnew.
  destruct (index_then_delete db source ci content emb md Hb Hlen Hnew) as [H1 H2].
  eexists _, _, _. split; [exact H1|]. split; [exact H2|].
  by rewrite index_document_ok.
Qed.

(** *** Indexing a file (cli.py) *)

(** The items the command [index] builds for a file from its chunks (text
    and metadata) and their embeddings:
    [for i, ((text, metadata), embedding) in enumerate(zip(chunks, embeddings))]. *)
Definition file_items (source : string) (chunks : list (string * option string))
    (embeddings : list (list F)) : list Item :=
  (λ p, (source, p.1, p.2.1.1, p.2.2, p.2.1.2)) <$> enumerate 0 (zip chunks embeddings).

(** What the loop of [index] does to the store for one file: with
    [--reindex] it deletes the chunks of the source first; a file without
    chunks is skipped after that. *)
Definition index_file (reindex : bool) (source : string)
    (chunks : list (string * option string)) (embeddings : list (list F)) : M unit :=
  (if reindex then delete_source source;; ret tt else ret tt);;
  if decide (chunks = []) then ret tt
  else index_batch (file_items source chunks embeddings);; ret tt.

Lemma file_items_lookup source chunks embeddings (i : nat) it :
  file_items source chunks embeddings !! i = Some it →
  ∃ text metadata embedding,
    chunks !! i = Some (text, metadata) ∧ embeddings !! i = Some embedding
    ∧ it = (source, Z.of_nat i, text, embedding, metadata).
Proof.
  unfold file_items. rewrite list_lookup_fmap, enumerate_lookup.
  destruct (zip chunks embeddings !! i) as [[[text metadata] embedding]|] eqn:Hi;
    [|done].
  cbn. intros [= <-]. apply lookup_zip_with_Some in Hi as (c & e & Heq & Hc & He).
  injection Heq as <- <-.
  exists text, metadata, embedding. rewrite Z.add_0_l. done.
Qed.

Lemma file_items_dim_ok source chunks embeddings :
  Forall (λ e, length e = DIMENSIONS) embeddings →
  Forall dim_ok (file_items source chunks embeddings).
Proof.
  intros Hall. rewrite Forall_lookup. intros i it Hi.
  apply file_items_lookup in Hi as (text & metadata & embedding & _ & He & ->).
  rewrite Forall_lookup in Hall. by apply (Hall i).
Qed.

Lemma file_items_rows source chunks embeddings ids (i : nat) d :
  zip_with item_doc_row ids (file_items source chunks embeddings) !! i = Some d →
  d_source d = source ∧ d_chunk_index d = Z.of_nat i.
Proof.
  intros (j & it & -> & _ & Hit)%lookup_zip_with_Some.
  by apply file_items_lookup in Hit as (text & metadata & embedding & _ & _ & ->).
Qed.

Lemma index_file_run (reindex : bool) source chunks embeddings db :
  balanced db → Forall (λ e, length e = DIMENSIONS) embeddings →
  let items := file_items source chunks embeddings in
  let kept : Store := if reindex then (delete_source source db).2 else db in
  let ids := seqZ (next_rowid (doc_ids kept)) (Z.of_nat (length items)) in
  index_file reindex source chunks embeddings db = (Ok tt, with_items kept ids items)
  ∧ balanced (with_items kept ids items).
Proof.
  intros Hb Hall items kept ids.
  assert (Hkept : balanced kept).
  { unfold kept. destruct reindex; [by apply delete_source_balanced | done]. }
  assert (Hfirst : (if reindex then delete_source source;; ret tt else ret tt) db
                   = (Ok tt, kept)).
  { unfold kept. destruct reindex; [|done].
    unfold mbind, M_bind, bind. by rewrite delete_source_spec. }
  unfold index_file, mbind, M_bind, bind. unfold mbind, M_bind, bind in Hfirst.
  rewrite Hfirst.
  destruct (index_batch_loop_ok items kept [] Hkept) as [Hrun Hbal];
    [by apply file_items_dim_ok|].
  split; [|done]. destruct (decide (chunks = [])) as [->|Hne].
  - unfold ids, items. cbn. by rewrite with_items_nil.
  - unfold index_batch. fold items. by rewrite Hrun.
Qed.

(** X5. The command [index] on a file whose embeddings all have the
    declared dimension, from a consistent store: with [--reindex] the
    chunks of the file replace those the store had of the source; without it
    they are added to them, so that a file indexed twice has every chunk
    twice. Either way the chunks of other sources stay, the new chunks carry
    the chunk indices 0, 1, 2, ... in their order, and the store is
    consistent. *)
Theorem index_file_replaces_or_adds (reindex : bool) source chunks embeddings db :
  consistent db → Forall (λ e, length e = DIMENSIONS) embeddings →
  ∃ added,
    let run := index_file reindex source chunks embeddings db in
    run.1 = Ok tt
    ∧ consistent run.2
    ∧ docs run.2
      = (if reindex then filter (λ d, d_source d ≠ source) (docs db) else docs db)
        ++ added
    ∧ length added = (length chunks `min` length embeddings)%nat
    ∧ (∀ (i : nat) d, added !! i = Some d →
         d_source d = source ∧ d_chunk_index d = Z.of_nat i
         ∧ ∃ metadata, chunks !! i = Some (d_content d, metadata))
    ∧ NoDup (d_id <$> docs run.2).
Proof.
  intros Hb%consistent_balanced Hall.
  destruct (index_file_run reindex source chunks embeddings db Hb Hall) as [Hrun Hbal].
  cbn zeta in Hrun, Hbal. rewrite Hrun. cbn [fst snd].
  set (items := file_items source chunks embeddings) in *.
  set (kept := (if reindex then (delete_source source db).2 else db) : Store) in *.
  set (ids := seqZ (next_rowid (doc_ids kept)) (Z.of_nat (length items))) in *.
  assert (Hitems : length items = (length chunks `min` length embeddings)%nat).
  { unfold items, file_items. by rewrite length_fmap, length_enumerate, length_zip_with. }
  exists (zip_with item_doc_row ids items).
  split; [done|]. split; [by apply consistent_balanced|]. split; [|split; [|split]].
  - unfold with_items. cbn [docs]. f_equal. unfold kept.
    destruct reindex; [|done]. by rewrite delete_source_run.
  - rewrite length_zip_with. unfold ids. rewrite length_seqZ. lia.
  - intros i d Hd. destruct (file_items_rows _ _ _ _ _ _ Hd) as [Hs Hc].
    split; [done|]. split; [done|].
    apply lookup_zip_with_Some in Hd as (j & it & -> & _ & Hit).
    apply file_items_lookup in Hit as (text & metadata & embedding & Hch & _ & ->).
    by exists metadata.
  - apply NoDup_alt. intros i j x Hi Hj.
    fold (doc_ids (with_items kept ids items)) in Hi, Hj.
    destruct (Hbal x) as (_ & _ & Hle).
    destruct (decide (i = j)) as [|Hne]; [done|]. exfalso.
    assert (Hcount : ∀ (l : list Z) (a b : nat),
              (a < b)%nat → l !! a = Some x → l !! b = Some x → (2 ≤ count_id x l)%nat).
    { clear. intros l a b Hab Ha Hb.
      rewrite <- (take_drop b l), count_id_app.
      assert (x ∈ take b l).
      { apply list_elem_of_lookup. exists a. by rewrite lookup_take_lt. }
      assert (x ∈ drop b l).
      { apply list_elem_of_lookup. exists 0%nat. by rewrite lookup_drop, Nat.add_0_r. }
      rewrite !count_id_pos in *. lia. }
    destruct (Nat.lt_total i j) as [Hlt|[Heq|Hgt]]; [|done|].
    + specialize (Hcount _ _ _ Hlt Hi Hj). lia.
    + specialize (Hcount _ _ _ Hgt Hj Hi). lia.
Qed.

(** *** What the searches return *)

Lemma search_bm25_Ok db query limit rows :
  fts5_match db query = Ok rows →
  search_bm25 db query limit = Ok (bm25_result <$> enumerate 1 (sql_limit limit rows)).
Proof. intros Hrows. unfold search_bm25. by rewrite Hrows. Qed.

Lemma sql_limit_lookup {A} (limit : Z) (rows : list A) (i : nat) x :
  sql_limit limit rows !! i = Some x → rows !! i = Some x.
Proof.
  unfold sql_limit. destruct (decide (limit < 0)); [done|].
  by intros [? _]%lookup_take_Some.
Qed.

Lemma sql_limit_length {A} (limit : Z) (rows : list A) :
  length (sql_limit limit rows)
  = if decide (limit < 0) then length rows
    else (Z.to_nat limit `min` length rows)%nat.
Proof.
  unfold sql_limit. destruct (decide (limit < 0)); [done|]. by rewrite length_take.
Qed.

(** X6. [search_bm25] returns the rows of the cursor in their order, the
    first [limit] of them for [0 ≤ limit] and all of them for a negative
    [limit] (SQLite reads a negative [LIMIT] as no limit); the result at
    position [i] has the fields of the row at position [i], its score under
    [score], no [distance], and [rank = i + 1]. *)
Theorem search_bm25_ranks db query limit rows :
  fts5_match db query = Ok rows →
  ∃ out,
    search_bm25 db query limit = Ok out
    ∧ length out = (if decide (limit < 0) then length rows
                    else (Z.to_nat limit `min` length rows)%nat)
    ∧ ∀ (i : nat) r, out !! i = Some r →
        ∃ d score,
          rows !! i = Some (d, score)
          ∧ r = mkResult (d_id d) (d_source d) (d_chunk_index d) (d_content d)
                         (d_metadata d) (Some score) None (Z.of_nat i + 1)
                         None None None None.
Proof.
  intros Hrows. eexists. split; [by apply search_bm25_Ok|]. split.
  - by rewrite length_fmap, length_enumerate, sql_limit_length.
  - intros i r. rewrite list_lookup_fmap, enumerate_lookup.
    destruct (sql_limit limit rows !! i) as [[d score]|] eqn:Hi; [|done].
    cbn. intros [= <-]. exists d, score. split; [by eapply sql_limit_lookup|].
    f_equal. lia.
Qed.

(** The dict of a result but for [rank] and the fields the fusion adds. *)
Definition shown_as (r0 r : Result) : Prop :=
  r_id r = r_id r0 ∧ r_source r = r_source r0 ∧ r_chunk_index r = r_chunk_index r0
  ∧ r_content r = r_content r0 ∧ r_metadata r = r_metadata r0
  ∧ r_score r = r_score r0 ∧ r_distance r = r_distance r0
  ∧ r_rerank_score r = r_rerank_score r0.

Lemma shown_as_set_rank r0 i r : shown_as r0 r → shown_as r0 (set_rank (i, r)).
Proof. done. Qed.

Lemma rrf_result_Ok bm25_ranks vec_ranks result_lookup default_rank k wb wv i r :
  rrf_result bm25_ranks vec_ranks result_lookup default_rank k wb wv i = Ok r →
  ∃ r0, result_lookup !! i = Some r0 ∧ shown_as r0 r.
Proof.
  unfold rrf_result. destruct (decide _); [done|]. destruct (decide _); [done|].
  destruct (result_lookup !! i) as [r0|]; [|done].
  intros [= <-]. exists r0. split; [done|]. by repeat split.
Qed.

Lemma first_with_id_elem results i r :
  first_with_id results i = Some r → r ∈ results ∧ r_id r = i.
Proof.
  induction results as [|x rest IH]; cbn; [done|].
  destruct (decide (r_id x = i)) as [Hx|Hx].
  - intros [= <-]. split; [by left | done].
  - intros [Hr Hid]%IH. split; [by right | done].
Qed.

Lemma first_with_id_None results i :
  i ∉ r_id <$> results → first_with_id results i = None.
Proof.
  induction results as [|x rest IH]; intros Hi; cbn; [done|].
  rewrite fmap_cons, not_elem_of_cons in Hi. destruct Hi as [Hne Hi].
  rewrite decide_False by done. by apply IH.
Qed.

Lemma first_with_id_app xs ys i :
  first_with_id (xs ++ ys) i
  = match first_with_id xs i with
    | Some r => Some r
    | None => first_with_id ys i
    end.
Proof.
  induction xs as [|x xs IH]; cbn; [by destruct (first_with_id ys i)|].
  by destruct (decide (r_id x = i)).
Qed.

Lemma list_sort_reverse_Ok {A} field (key : A → option F) xs sorted :
  list_sort_reverse field key xs = Ok sorted →
  sorted ≡ₚ xs ∧ Forall (λ x, is_Some (key x)) xs.
Proof.
  unfold list_sort_reverse. intros Hrun.
  destruct (mapM_res _ xs) as [keyed|e] eqn:Hkeyed; [|done].
  cbn in Hrun. injection Hrun as <-.
  destruct (keyed_of_Ok _ _ _ _ Hkeyed) as [Hk Hsnd]. split.
  - rewrite <- Hsnd. f_equiv. apply sort_desc_perm.
  - rewrite <- Hsnd, Forall_fmap. eapply Forall_impl; [exact Hk|].
    intros y Hy. cbn. by rewrite Hy.
Qed.

(** The stages of a run of [search_hybrid] that returned. *)
Lemma search_hybrid_inv db query embedding limit k wb wv out :
  search_hybrid db query embedding limit k wb wv = Ok out →
  ∃ bm25_results vec_results scored sorted,
    search_bm25 db query (limit * 3) = Ok bm25_results
    ∧ search_vector db embedding (limit * 3) = Ok vec_results
    ∧ rrf_results bm25_results vec_results (limit * 3) k wb wv = Ok scored
    ∧ sorted ≡ₚ scored
    ∧ out = assign_ranks sorted limit.
Proof.
  unfold search_hybrid, mbind, Res_bind, res_bind.
  destruct (search_bm25 _ _ _) as [bm25_results|] eqn:Hbm; [|done].
  destruct (search_vector _ _ _) as [vec_results|] eqn:Hvec; [|done].
  destruct (rrf_results _ _ _ _ _ _) as [scored|] eqn:Hscored; [|done].
  destruct (list_sort_reverse _ _ _) as [sorted|] eqn:Hsorted; [|done].
  intros [= <-]. exists bm25_results, vec_results, scored, sorted.
  repeat split; try done. by apply list_sort_reverse_Ok in Hsorted as [? _].
Qed.

Lemma rrf_results_shown bm25_results vec_results fetch_limit k wb wv scored :
  rrf_results bm25_results vec_results fetch_limit k wb wv = Ok scored →
  Forall (λ r, ∃ r0, first_with_id (bm25_results ++ vec_results) (r_id r) = Some r0
                     ∧ shown_as r0 r) scored.
Proof.
  unfold rrf_results. intros Hrun%mapM_res_Ok.
  induction Hrun as [|i r ids rs Hir _ IH]; constructor; [|done].
  apply rrf_result_Ok in Hir as (r0 & Hr0 & Hshown).
  rewrite build_lookup_lookup in Hr0. exists r0.
  destruct (first_with_id_elem _ _ _ Hr0) as [_ Hid].
  destruct Hshown as (Hrid & Hrest). rewrite Hrid, Hid. split; [done|].
  by split.
Qed.

Lemma search_bm25_fields db query limit results :
  search_bm25 db query limit = Ok results →
  Forall (λ r, is_Some (r_score r) ∧ r_distance r = None ∧ r_rerank_score r = None)
         results.
Proof.
  unfold search_bm25, mbind, Res_bind, res_bind.
  destruct (fts5_match db query) as [rows|]; [|done]. intros [= <-].
  rewrite Forall_fmap, Forall_forall. intros [rank [d score]] _. cbn. eauto.
Qed.

Lemma search_vector_fields db embedding limit results :
  search_vector db embedding limit = Ok results →
  Forall (λ r, r_score r = None ∧ is_Some (r_distance r) ∧ r_rerank_score r = None)
         results.
Proof.
  unfold search_vector, mbind, Res_bind, res_bind.
  destruct (vec0_knn db embedding limit) as [rows|]; [|done]. intros [= <-].
  rewrite Forall_fmap, Forall_forall. intros [rank [d distance]] _. cbn. eauto.
Qed.

(** X7. A result of [search_hybrid] shows the dict of the lexical result
    whenever the lexical query found the chunk: it has [score] and no
    [distance], also when the vector query found the chunk too. Only a chunk
    that the vector query alone found shows [distance], and then no
    [score]. *)
Theorem search_hybrid_result_fields db query embedding limit k wb wv out :
  search_hybrid db query embedding limit k wb wv = Ok out →
  ∃ bm25_results vec_results,
    search_bm25 db query (limit * 3) = Ok bm25_results
    ∧ search_vector db embedding (limit * 3) = Ok vec_results
    ∧ ∀ r, r ∈ out →
        (r_id r ∈ r_id <$> bm25_results →
           (∃ r0, first_with_id bm25_results (r_id r) = Some r0 ∧ shown_as r0 r)
           ∧ is_Some (r_score r) ∧ r_distance r = None)
        ∧ (r_id r ∉ r_id <$> bm25_results →
           (∃ r0, first_with_id vec_results (r_id r) = Some r0 ∧ shown_as r0 r)
           ∧ r_score r = None ∧ is_Some (r_distance r)).
Proof.
  intros (bm25_results & vec_results & scored & sorted & Hbm & Hvec & Hscored & Hperm & ->)
    %search_hybrid_inv.
  exists bm25_results, vec_results. split; [done|]. split; [done|].
  apply rrf_results_shown in Hscored. rewrite <- Hperm in Hscored.
  apply (assign_ranks_Forall _ _ limit) in Hscored;
    [|intros i r (r0 & Hr0 & Hs); exists r0; by split].
  rewrite Forall_forall in Hscored. intros r Hr.
  destruct (Hscored r Hr) as (r0 & Hr0 & Hshown).
  rewrite first_with_id_app in Hr0.
  pose proof (search_bm25_fields _ _ _ _ Hbm) as Hfb.
  pose proof (search_vector_fields _ _ _ _ Hvec) as Hfv.
  rewrite Forall_forall in Hfb, Hfv. split; intros Hin.
  - destruct (first_with_id_Some bm25_results (r_id r) Hin) as (rb & Hrb & _).
    rewrite Hrb in Hr0. injection Hr0 as <-.
    destruct (first_with_id_elem _ _ _ Hrb) as [Hel _].
    destruct (Hfb rb Hel) as (Hs & Hd & _).
    pose proof Hshown as (_ & _ & _ & _ & _ & Hscore & Hdist & _).
    split; [by exists rb|]. by rewrite Hscore, Hdist.
  - rewrite (first_with_id_None bm25_results) in Hr0 by done.
    destruct (first_with_id_elem _ _ _ Hr0) as [Hel _].
    destruct (Hfv r0 Hel) as (Hs & Hd & _).
    pose proof Hshown as (_ & _ & _ & _ & _ & Hscore & Hdist & _).
    split; [by exists r0|]. by rewrite Hscore, Hdist.
Qed.

Lemma NoDup_fmap_take {A B} (f : A → B) (l : list A) n :
  NoDup (f <$> l) → NoDup (f <$> take n l).
Proof.
  intros Hnd. rewrite <- (take_drop n l), fmap_app in Hnd.
  by apply NoDup_app in Hnd as [? _].
Qed.

Lemma assign_ranks_ids xs limit :
  ∃ m : nat, r_id <$> assign_ranks xs limit = take m (r_id <$> xs).
Proof.
  unfold assign_ranks. destruct (py_slice_to_take xs limit) as (m & -> & _).
  exists m. rewrite <- fmap_take. generalize (take m xs) as l. generalize 1.
  intros start l. revert start. induction l as [|x l IH]; intros start; [done|].
  cbn. by rewrite IH.
Qed.

(** X8. When both queries return and no denominator is zero, [search_hybrid]
    returns no chunk twice, only chunks that one of the two queries found,
    at most [limit] of them for [0 ≤ limit], and never more than the two
    queries found together. *)
Theorem search_hybrid_distinct_bounded db query embedding limit k wb wv
    bm25_results vec_results :
  let fetch_limit := limit * 3 in
  let all_ids := set_union_iter (r_id <$> bm25_results) (r_id <$> vec_results) in
  search_bm25 db query fetch_limit = Ok bm25_results →
  search_vector db embedding fetch_limit = Ok vec_results →
  NoDup (r_id <$> bm25_results) → NoDup (r_id <$> vec_results) →
  (NoDup all_ids
   ∧ ∀ i, i ∈ all_ids → i ∈ (r_id <$> bm25_results) ∨ i ∈ (r_id <$> vec_results)) →
  denominators_nonzero bm25_results vec_results fetch_limit k →
  ∃ out,
    search_hybrid db query embedding limit k wb wv = Ok out
    ∧ NoDup (r_id <$> out)
    ∧ (∀ r, r ∈ out →
         r_id r ∈ (r_id <$> bm25_results) ∨ r_id r ∈ (r_id <$> vec_results))
    ∧ (0 ≤ limit → Z.of_nat (length out) ≤ limit)
    ∧ (length out ≤ length bm25_results + length vec_results)%nat.
Proof.
  intros fetch_limit all_ids Hbm Hvec Hb Hv [Hnd Hcover] Hden.
  destruct (search_hybrid_run db query embedding limit k wb wv bm25_results vec_results
              Hbm Hvec Hb Hv Hcover Hden)
    as (scored & sorted & Hscored & Hids & Hspec & Hsorted & Hperm & Hrun).
  fold all_ids in Hids.
  assert (Hsorted_ids : r_id <$> sorted ≡ₚ all_ids) by (by rewrite Hperm, Hids).
  destruct (assign_ranks_ids sorted limit) as [m Hm].
  exists (assign_ranks sorted limit). split; [done|]. split; [|split; [|split]].
  - rewrite Hm. rewrite <- fmap_take. apply NoDup_fmap_take. by rewrite Hsorted_ids.
  - intros r Hr. apply Hcover. rewrite <- Hsorted_ids.
    assert (Hin : r_id r ∈ r_id <$> assign_ranks sorted limit)
      by (apply list_elem_of_fmap; by exists r).
    rewrite Hm in Hin. apply list_elem_of_lookup in Hin as [j Hj].
    apply lookup_take_Some in Hj as [Hj _]. by eapply list_elem_of_lookup_2.
  - intros Hlimit. rewrite assign_ranks_length. by apply py_slice_to_length.
  - rewrite assign_ranks_length.
    destruct (py_slice_to_take sorted limit) as (m' & -> & _).
    rewrite length_take.
    assert (Hlen : (length all_ids ≤ length ((r_id <$> bm25_results) ++ (r_id <$> vec_results)))%nat).
    { apply submseteq_length, NoDup_submseteq; [done|].
      intros i Hi. rewrite elem_of_app. by apply Hcover. }
    rewrite length_app, !length_fmap in Hlen.
    apply Permutation_length in Hsorted_ids. rewrite length_fmap in Hsorted_ids. lia.
Qed.

(** X9. [search_hybrid] divides by [k + rank] unguarded: when both queries
    return and, for some chunk they found, [k] plus its rank in one of the
    two lists (the rank [3 * limit + 1] for a list that does not hold it) is
    zero, the call raises [ZeroDivisionError]. So does [k = -1] as soon as
    the lexical query finds a chunk. *)
Theorem search_hybrid_division_by_zero db query embedding limit k wb wv
    bm25_results vec_results i :
  let fetch_limit := limit * 3 in
  let all_ids := set_union_iter (r_id <$> bm25_results) (r_id <$> vec_results) in
  search_bm25 db query fetch_limit = Ok bm25_results →
  search_vector db embedding fetch_limit = Ok vec_results →
  NoDup (r_id <$> bm25_results) → NoDup (r_id <$> vec_results) →
  (∀ j, j ∈ all_ids → j ∈ (r_id <$> bm25_results) ∨ j ∈ (r_id <$> vec_results)) →
  i ∈ all_ids →
  (k + default (fetch_limit + 1) (rank_in bm25_results i) = 0
   ∨ k + default (fetch_limit + 1) (rank_in vec_results i) = 0) →
  search_hybrid db query embedding limit k wb wv = Raise ZeroDivisionError.
Proof.
  intros fetch_limit all_ids Hbm Hvec Hb Hv Hcover Hi Hzero.
  unfold search_hybrid. fold fetch_limit. rewrite Hbm. cbn. rewrite Hvec. cbn.
  unfold rrf_results. fold all_ids.
  rewrite (mapM_res_Raise _ ZeroDivisionError all_ids i); [done| |done|].
  - intros j Hj. unfold rrf_result.
    destruct (decide _); [by right|]. destruct (decide _); [by right|].
    rewrite build_lookup_lookup.
    destruct (first_with_id_Some (bm25_results ++ vec_results) j) as (r0 & -> & _).
    { rewrite fmap_app, elem_of_app. by apply Hcover. }
    by left.
  - unfold rrf_result. rewrite !rank_map_lookup by done.
    destruct (decide (k + default (fetch_limit + 1) (rank_in bm25_results i) = 0));
      [done|].
    destruct Hzero as [Hz|Hz]; [done|]. by rewrite decide_True.
Qed.

(** The candidates of the reranked search carry no [rerank_score] yet. *)
Lemma search_hybrid_no_rerank_score db query embedding limit k wb wv out :
  search_hybrid db query embedding limit k wb wv = Ok out →
  Forall (λ r, r_rerank_score r = None) out.
Proof.
  intros (bm25_results & vec_results & scored & sorted & Hbm & Hvec & Hscored & Hperm & ->)
    %search_hybrid_inv.
  apply assign_ranks_Forall; [done|]. rewrite Hperm.
  apply rrf_results_shown in Hscored.
  pose proof (search_bm25_fields _ _ _ _ Hbm) as Hfb.
  pose proof (search_vector_fields _ _ _ _ Hvec) as Hfv.
  rewrite Forall_forall in Hfb, Hfv.
  eapply Forall_impl; [exact Hscored|]. intros r (r0 & Hr0 & Hshown). cbn beta.
  destruct Hshown as (_ & _ & _ & _ & _ & _ & _ & ->).
  apply first_with_id_elem in Hr0 as [Hel _].
  apply elem_of_app in Hel as [Hel|Hel].
  - by destruct (Hfb r0 Hel) as (_ & _ & ?).
  - by destruct (Hfv r0 Hel) as (_ & _ & ?).
Qed.

Lemma attach_scores_short candidates : ∀ scores,
  Forall (λ r, r_rerank_score r = None) candidates →
  (length scores < length candidates)%nat →
  ∃ r, r ∈ attach_scores candidates scores ∧ r_rerank_score r = None.
Proof.
  induction candidates as [|c cs IH]; intros scores Hnone Hlen; [cbn in Hlen; lia|].
  apply list.Forall_cons in Hnone as [Hc Hcs].
  destruct scores as [|s ss]; [exists c; split; [by left | done]|].
  cbn in Hlen. destruct (IH ss Hcs ltac:(lia)) as (r & Hr & Hnone).
  exists r. split; [by right | done].
Qed.

Lemma list_sort_reverse_KeyError {A} field (key : A → option F) xs x :
  x ∈ xs → key x = None → list_sort_reverse field key xs = Raise (KeyError field).
Proof.
  intros Hx Hk. unfold list_sort_reverse.
  rewrite (mapM_res_Raise _ (KeyError field) xs x); [done| |done|by rewrite Hk].
  intros y _. destruct (key y); [by left | by right].
Qed.

(** X10. [search_hybrid_reranked] pairs candidates and scores with [zip]: when
    the reranker returns fewer scores than there are candidates, the
    candidates left without a score have no key [rerank_score] and the sort
    raises [KeyError]; an exception of the reranker leaves the method as it
    is. Either way the reranker was called once. *)
Theorem search_hybrid_reranked_scores_missing db query embedding limit rerank_top_k
    candidates :
  search_hybrid db query embedding rerank_top_k 60 fone fone = Ok candidates →
  candidates ≠ [] →
  (∀ scores,
     rerank query (r_content <$> candidates) = Ok scores →
     (length scores < length candidates)%nat →
     search_hybrid_reranked db query embedding limit rerank_top_k
     = (Raise (KeyError "rerank_score"), [(query, r_content <$> candidates)]))
  ∧ (∀ e,
       rerank query (r_content <$> candidates) = Raise e →
       search_hybrid_reranked db query embedding limit rerank_top_k
       = (Raise e, [(query, r_content <$> candidates)])).
Proof.
  intros Hcand Hne. pose proof (search_hybrid_no_rerank_score _ _ _ _ _ _ _ _ Hcand) as Hnone.
  unfold search_hybrid_reranked. rewrite Hcand.
  destruct candidates as [|c cs]; [done|]. cbv zeta. split.
  - intros scores -> Hlen. unfold mbind, Res_bind, res_bind.
    destruct (attach_scores_short (c :: cs) scores Hnone Hlen) as (r & Hr & Hrn).
    by rewrite (list_sort_reverse_KeyError _ _ _ r).
  - by intros e ->.
Qed.

Lemma length_attach_scores candidates : ∀ scores,
  length (attach_scores candidates scores) = length candidates.
Proof.
  induction candidates as [|c cs IH]; intros [|s ss]; cbn; try done. by rewrite IH.
Qed.

Lemma attach_scores_rrf_score candidates : ∀ scores,
  Forall (λ r, is_Some (r_rrf_score r)) candidates →
  Forall (λ r, is_Some (r_rrf_score r)) (attach_scores candidates scores).
Proof.
  induction candidates as [|c cs IH]; intros [|s ss] Hall; cbn; try done.
  apply list.Forall_cons in Hall as [Hc Hcs]. constructor; [done | by apply IH].
Qed.

Lemma assign_ranks_length_le xs limit :
  (length (assign_ranks xs limit) ≤ length xs)%nat.
Proof.
  rewrite assign_ranks_length. destruct (py_slice_to_take xs limit) as (m & -> & _).
  rewrite length_take. lia.
Qed.

(** The stages of a run of [search_hybrid_reranked] that returned. *)
Lemma search_hybrid_reranked_inv db query embedding limit rerank_top_k out calls :
  search_hybrid_reranked db query embedding limit rerank_top_k = (Ok out, calls) →
  ∃ candidates sorted,
    search_hybrid db query embedding rerank_top_k 60 fone fone = Ok candidates
    ∧ length sorted = length candidates
    ∧ Forall (λ r, is_Some (r_rerank_score r)) sorted
    ∧ (Forall (λ r, is_Some (r_rrf_score r)) candidates →
       Forall (λ r, is_Some (r_rrf_score r)) sorted)
    ∧ out = assign_ranks sorted limit.
Proof.
  unfold search_hybrid_reranked. intros Hrun.
  destruct (search_hybrid db query embedding rerank_top_k 60 fone fone)
    as [candidates|] eqn:Hcand; [|done].
  exists candidates. destruct candidates as [|c cs].
  { injection Hrun as <- _. exists [].
    split; [done|]. split; [done|]. split; [constructor|]. split; [done|].
    unfold assign_ranks, py_slice_to. destruct (decide _); by rewrite take_nil. }
  cbv zeta in Hrun. unfold mbind, Res_bind, res_bind in Hrun.
  destruct (rerank query _) as [scores|]; [|done].
  destruct (list_sort_reverse _ _ _) as [sorted|] eqn:Hsorted; [|done].
  injection Hrun as <- _. apply list_sort_reverse_Ok in Hsorted as [Hperm Hkeys].
  exists sorted. split; [done|]. split; [|split; [|split; [|done]]].
  - apply Permutation_length in Hperm. by rewrite length_attach_scores in Hperm.
  - by rewrite Hperm.
  - intros Hrrf. rewrite Hperm. by apply attach_scores_rrf_score.
Qed.

Lemma search_hybrid_rrf_score db query embedding limit k wb wv out :
  search_hybrid db query embedding limit k wb wv = Ok out →
  Forall (λ r, is_Some (r_rrf_score r)) out.
Proof.
  unfold search_hybrid, mbind, Res_bind, res_bind.
  destruct (search_bm25 _ _ _); [|done]. destruct (search_vector _ _ _); [|done].
  destruct (rrf_results _ _ _ _ _ _) as [scored|]; [|done].
  destruct (list_sort_reverse _ _ _) as [sorted|] eqn:Hsorted; [|done].
  intros [= <-]. apply list_sort_reverse_Ok in Hsorted as [Hperm Hkeys].
  apply assign_ranks_Forall; [done|]. by rewrite Hperm.
Qed.

(** The reranked search returns no more results than it asked candidates. *)
Lemma search_hybrid_reranked_length db query embedding limit rerank_top_k out calls :
  search_hybrid_reranked db query embedding limit rerank_top_k = (Ok out, calls) →
  0 ≤ rerank_top_k →
  Z.of_nat (length out) ≤ rerank_top_k
  ∧ (0 ≤ limit → Z.of_nat (length out) ≤ limit).
Proof.
  intros (candidates & sorted & Hcand & Hlen & _ & _ & ->)%search_hybrid_reranked_inv Htop.
  apply search_hybrid_assigns in Hcand as [sorted0 ->].
  pose proof (assign_ranks_length_le sorted limit) as Hle.
  rewrite assign_ranks_length in Hlen.
  pose proof (py_slice_to_length sorted0 rerank_top_k Htop). split; [lia|].
  intros Hlimit. rewrite assign_ranks_length. by apply py_slice_to_length.
Qed.

(** X11. [search_hybrid_reranked] reranks the [rerank_top_k] candidates of
    the hybrid search and nothing else: for [0 ≤ rerank_top_k] it returns at
    most [rerank_top_k] results, whatever [limit] is, and every result it
    returns has a [rerank_score] and an [rrf_score]. *)
Theorem search_hybrid_reranked_at_most_top_k db query embedding limit rerank_top_k
    out calls :
  search_hybrid_reranked db query embedding limit rerank_top_k = (Ok out, calls) →
  0 ≤ rerank_top_k →
  Z.of_nat (length out) ≤ rerank_top_k
  ∧ Forall (λ r, is_Some (r_rerank_score r) ∧ is_Some (r_rrf_score r)) out.
Proof.
  intros Hrun Htop.
  split; [by apply (search_hybrid_reranked_length _ _ _ _ _ _ _ Hrun)|].
  apply search_hybrid_reranked_inv in Hrun
    as (candidates & sorted & Hcand & _ & Hscore & Hrrf & ->).
  apply assign_ranks_Forall; [done|]. apply Forall_and. split; [done|].
  apply Hrrf. by eapply search_hybrid_rrf_score.
Qed.

(** The choice of the search by [mode] and [rerank], as the command [search]
    of cli.py (direct mode) and [_handle_search] of daemon.py make it, with
    the calls made to the reranker. *)
Definition search_by_mode (db : Store) (mode : string) (rerank_flag : bool)
    (query : string) (embedding : list F) (limit : Z)
    : Res (list Result) * list (string * list string) :=
  if decide (mode = "bm25") then (search_bm25 db query limit, [])
  else if decide (mode = "vector") then (search_vector db embedding limit, [])
  else if rerank_flag
       then search_hybrid_reranked db query embedding limit (Z.min (limit * 3) 30)
       else (search_hybrid db query embedding limit 60 fone fone, []).

(** X12. A hybrid search with reranking returns at most 30 results, and at
    most [limit]: the front ends ask for [min(limit * 3, 30)] candidates. In
    the modes [bm25] and [vector] the flag [rerank] changes nothing and the
    reranker is not called. *)
Theorem search_by_mode_rerank db mode query embedding limit :
  (mode ≠ "bm25" → mode ≠ "vector" → 0 ≤ limit →
   ∀ out calls,
     search_by_mode db mode true query embedding limit = (Ok out, calls) →
     Z.of_nat (length out) ≤ Z.min limit 30)
  ∧ (mode = "bm25" ∨ mode = "vector" →
     search_by_mode db mode true query embedding limit
     = search_by_mode db mode false query embedding limit
     ∧ (search_by_mode db mode true query embedding limit).2 = []).
Proof.
  unfold search_by_mode. split.
  - intros Hb Hv Hlimit out calls. rewrite !decide_False by done. intros Hrun.
    apply search_hybrid_reranked_length in Hrun as [Hk Hl]; lia.
  - intros [->| ->]; [by rewrite !decide_True by done|].
    rewrite !(decide_False (P := "vector" = "bm25")) by done.
    by rewrite !decide_True by done.
Qed.

(** *** [Reranker] *)

(** [self._model.predict(pairs).tolist()] of the cross-encoder. *)
Context (predict : list (string * string) → Res (list F)).

(** [Reranker.rerank] *)
Definition Reranker_rerank (query : string) (documents : list string) : Res (list F) :=
  if decide (documents = []) then Ok []
  else predict ((λ doc, (query, doc)) <$> documents).

(** [Reranker.rerank_with_indices]; [top_k] is an [int] or [None]. *)
Definition rerank_with_indices (query : string) (documents : list string)
    (top_k : option Z) : Res (list (Z * F)) :=
  scores ← Reranker_rerank query documents;
  let indexed_scores := enumerate 0 scores in
  let indexed_scores := snd <$> sort_desc ((λ x, (x.2, x)) <$> indexed_scores) in
  Ok (match top_k with
      | None => indexed_scores
      | Some n => if decide (n = 0) then indexed_scores
                  else py_slice_to indexed_scores n
      end).

Lemma enumerate_sorted {A} (xs : list A) start :
  StronglySorted (λ a b, a.1 < b.1) (enumerate start xs)
  ∧ Forall (λ a, start ≤ a.1) (enumerate start xs).
Proof.
  revert start. induction xs as [|x xs IH]; intros start; cbn; [by split; constructor|].
  destruct (IH (start + 1)) as [Hs Hge]. split.
  - constructor; [done|]. eapply Forall_impl; [exact Hge|]. cbn. intros; lia.
  - constructor; [cbn; lia|]. eapply Forall_impl; [exact Hge|]. cbn. intros; lia.
Qed.

(** X13. Given the scores of [Reranker.rerank], [rerank_with_indices] pairs
    every score with its index from 0, sorts the pairs by decreasing score,
    pairs of equal score by increasing index, and cuts the list with
    [[:top_k]] only for a [top_k] other than [None] and 0: [top_k = 0]
    returns every pair, not none. *)
Theorem rerank_with_indices_spec query documents top_k scores :
  Reranker_rerank query documents = Ok scores →
  ∃ sorted,
    sorted ≡ₚ enumerate 0 scores
    ∧ StronglySorted (λ a b, flt a.2 b.2 = false ∧ (flt b.2 a.2 = false → a.1 < b.1))
                     sorted
    ∧ (top_k = None ∨ top_k = Some 0 →
         rerank_with_indices query documents top_k = Ok sorted)
    ∧ (∀ n, top_k = Some n → n ≠ 0 →
         rerank_with_indices query documents top_k = Ok (py_slice_to sorted n)).
Proof using flt_asym flt_negtrans.
  intros Hscores.
  set (keyed := (λ x : Z * F, (x.2, x)) <$> enumerate 0 scores).
  exists (snd <$> sort_desc keyed). split; [|split; [|split]].
  - rewrite sort_desc_perm. unfold keyed. rewrite <- list_fmap_compose.
    by rewrite list_fmap_id.
  - apply (StronglySorted_fmap snd
             (λ x y, x.1 = x.2.2 ∧ y.1 = y.2.2
                     ∧ keyed_before (λ a b : Z * F, a.1 < b.1) x y)).
    + intros x y (Hx & Hy & Hlt & Htie). rewrite <- Hx, <- Hy. by split.
    + eapply StronglySorted_impl_elem.
      * apply (sort_desc_sorted (λ a b : Z * F, a.1 < b.1)). unfold keyed.
        apply (StronglySorted_fmap (λ x : Z * F, (x.2, x)) (λ a b, a.1 < b.1));
          [done | apply enumerate_sorted].
      * intros x y Hx Hy Hb. rewrite sort_desc_perm in Hx, Hy.
        unfold keyed in Hx, Hy.
        apply list_elem_of_fmap in Hx as (x' & -> & _).
        apply list_elem_of_fmap in Hy as (y' & -> & _). done.
  - intros Htop. unfold rerank_with_indices. rewrite Hscores. cbn. fold keyed.
    by destruct Htop as [->| ->].
  - intros n -> Hn. unfold rerank_with_indices. rewrite Hscores. cbn. fold keyed.
    by rewrite decide_False.
Qed.

End SearchDB.

(** *** Instances *)

(** A database right after [_init_schema]. *)
Definition new_db : @Store Q := @empty_store Q.

(** Python's floats as IEEE binary64 numbers: [float(n)] and [1 / n] for an
    [int] n below 2^53 in absolute value. *)
Definition float_of_Z (n : Z) : PrimFloat.float :=
  if decide (n < 0) then PrimFloat.opp (PrimFloat.of_uint63 (Uint63.of_Z (- n)))
  else PrimFloat.of_uint63 (Uint63.of_Z n).
Definition float_recip (n : Z) : PrimFloat.float :=
  PrimFloat.div PrimFloat.one (float_of_Z n).

(** Exact rationals, with their strict order. *)
Definition Q_recip (n : Z) : Q := / inject_Z n.
Definition Q_ltb (x y : Q) : bool := negb (Qle_bool y x).

(** CPython's [set] of small non-negative ints, for at most four elements:
    a table of 8 slots, an int hashing to itself, the first slot [hash & 7],
    on a collision the next slot [(5 * i + 1 + perturb) & 7] with [perturb]
    shifted right by 5 every time; iteration goes through the slots in
    order. (A fifth element would resize the table.) *)
Fixpoint set_add_probe (fuel : nat) (table : list (option Z)) (key perturb i : Z)
    : list (option Z) :=
  match fuel with
  | O => table
  | S fuel' =>
      match table !! Z.to_nat i with
      | Some None => <[Z.to_nat i := Some key]> table
      | Some (Some other) =>
          if decide (other = key) then table
          else let perturb' := Z.shiftr perturb 5 in
               set_add_probe fuel' table key perturb' (Z.land (i * 5 + 1 + perturb') 7)
      | None => table
      end
  end.

Definition set_add (table : list (option Z)) (key : Z) : list (option Z) :=
  set_add_probe 64 table key key (Z.land key 7).

Definition set_of (keys : list Z) : list (option Z) :=
  foldl set_add (replicate 8 None) keys.

Definition set_iter (table : list (option Z)) : list Z := omap id table.

(** [set(a) | set(b)]: a copy of [set(a)], then the elements of [set(b)]
    added in the order of its slots. *)
Definition cpython_set_union_iter (a b : list Z) : list Z :=
  set_iter (foldl set_add (set_of a) (set_iter (set_of b))).

(** Two chunks; the lexical query ranks chunk 1 before chunk 8 and the
    vector query ranks chunk 8 before chunk 1. *)
Definition chunk_1 : DocRow := mkDocRow 1 "a.md" 0 "the quick brown fox" "{}".
Definition chunk_8 : DocRow := mkDocRow 8 "b.md" 0 "a fox" "{}".

Definition two_chunks {F} (e1 e8 : list F) : @Store F :=
  mkStore [chunk_1; chunk_8] [(1, d_content chunk_1); (8, d_content chunk_8)]
          [(1, e1); (8, e8)].

Definition fts_1_8 {F} (s1 s8 : F) : @Store F → string → Res (list (DocRow * F)) :=
  λ _ _, Ok [(chunk_1, s1); (chunk_8, s8)].
Definition knn_8_1 {F} (d8 d1 : F) : @Store F → list F → Z → Res (list (DocRow * F)) :=
  λ _ _ _, Ok [(chunk_8, d8); (chunk_1, d1)].

(** The lexical query finds chunk 1 only. *)
Definition fts_1 {F} (s1 : F) : @Store F → string → Res (list (DocRow * F)) :=
  λ _ _, Ok [(chunk_1, s1)].

(** The searches on binary64 floats. *)
Definition float_search_hybrid :=
  search_hybrid PrimFloat.add PrimFloat.mul float_recip PrimFloat.ltb
    (fts_1_8 (-1.5)%float (-0.75)%float) (knn_8_1 0.125%float 0.5%float)
    cpython_set_union_iter.

Definition float_search_hybrid_1 :=
  search_hybrid PrimFloat.add PrimFloat.mul float_recip PrimFloat.ltb
    (fts_1 (-1.5)%float) (knn_8_1 0.125%float 0.5%float)
    cpython_set_union_iter.

Definition float_rerank (query : string) (documents : list string)
    : Res (list PrimFloat.float) :=
  Ok ((λ d, float_of_Z (Z.of_nat (String.length d))) <$> documents).

Definition float_search_hybrid_reranked :=
  search_hybrid_reranked PrimFloat.add PrimFloat.mul float_recip PrimFloat.ltb
    PrimFloat.one
    (fts_1_8 (-1.5)%float (-0.75)%float) (knn_8_1 0.125%float 0.5%float)
    cpython_set_union_iter float_rerank.

(** The searches on exact rationals. *)
Definition Q_search_hybrid :=
  search_hybrid Qplus Qmult Q_recip Q_ltb
    (fts_1_8 (-3#2)%Q (-3#4)%Q) (knn_8_1 (1#8)%Q (1#2)%Q) cpython_set_union_iter.

Definition Q_rerank (query : string) (documents : list string) : Res (list Q) :=
  Ok ((λ d, inject_Z (Z.of_nat (String.length d))) <$> documents).

Definition Q_search_hybrid_reranked :=
  search_hybrid_reranked Qplus Qmult Q_recip Q_ltb 1%Q
    (fts_1_8 (-3#2)%Q (-3#4)%Q) (knn_8_1 (1#8)%Q (1#2)%Q)
    cpython_set_union_iter Q_rerank.

(** The candidate lists of the two paths for [limit = 5]. *)
Definition float_bm25_results : list (@Result float) :=
  bm25_result <$> enumerate 1 [(chunk_1, (-1.5)%float); (chunk_8, (-0.75)%float)].
Definition Q_bm25_results : list (@Result Q) :=
  bm25_result <$> enumerate 1 [(chunk_1, (-3#2)%Q); (chunk_8, (-3#4)%Q)].
Definition Q_vec_results : list (@Result Q) :=
  vec_result <$> enumerate 1 [(chunk_8, (1#8)%Q); (chunk_1, (1#2)%Q)].

(** The candidates of the reranked search for [rerank_top_k = 20]. *)
Definition Q_candidates : list (@Result Q) :=
  Eval vm_compute in
    match Q_search_hybrid (two_chunks [] []) "quick fox" [] 20 60 1%Q 1%Q with
    | Ok candidates => candidates
    | Raise _ => []
    end.

(** The order the specification asks of the results of [search_hybrid]. *)
Definition spec_order {F} (flt : F → F → bool) (fetch_limit : Z) (a b : @Result F)
    : Prop :=
  ∃ sa sb, r_rrf_score a = Some sa ∧ r_rrf_score b = Some sb
           ∧ (flt sb sa = true
              ∨ (flt sa sb = false ∧ flt sb sa = false ∧ tie_break fetch_limit a b)).

(** A batch of two items on the empty store, the second with an embedding of
    three components. *)
Definition chunk_a : Item (F := Q) :=
  ("a.md", 0, "the quick brown fox", replicate 768 (0 : Q), None).
Definition chunk_b : Item (F := Q) :=
  ("a.md", 1, "jumps over the lazy dog", [1#2; 0; 0]%Q, None).

Lemma chunk_a_dim_ok : dim_ok chunk_a.
Proof. reflexivity. Qed.

Lemma chunk_b_dim_bad : ¬ dim_ok chunk_b.
Proof. discriminate. Qed.

(** C1: [index_document] with an embedding of three components raises after
    the chunk row and the lexical entry were written, and leaves a chunk
    without a vector row. *)
Lemma index_document_breaks_consistency :
  consistent new_db
  ∧ ¬ consistent
        (index_document "a.md" 1 "jumps over the lazy dog" [1#2; 0; 0]%Q None
                        new_db).2.
Proof.
  split; [apply consistent_empty|].
  intros H. destruct (H 1) as [Hd _].
  destruct Hd as [_ Hv]; [by left|]. discriminate Hv.
Qed.

Lemma mutations_preserve_consistency_witness :
  (∀ source chunk_index content embedding metadata,
     let run := index_document source chunk_index content embedding metadata
                  new_db in
     (length embedding = DIMENSIONS → is_Ok run.1 = true)
     ∧ (is_Ok run.1 = true → consistent run.2))
  ∧ (∀ items,
       let run := index_batch items new_db in
       (Forall dim_ok items → is_Ok run.1 = true)
       ∧ (is_Ok run.1 = true → consistent run.2))
  ∧ (∀ source,
       let run := delete_source source new_db in
       is_Ok run.1 = true ∧ consistent run.2).
Proof. exact (mutations_preserve_consistency new_db consistent_empty). Defined.

(** C2: the batch [chunk_a; chunk_b] raises at [chunk_b], and the store then
    holds the three rows of [chunk_a] and two of the three rows of [chunk_b]:
    neither every row of the batch nor none. *)
Lemma index_batch_not_atomic :
  is_Ok (index_batch [chunk_a; chunk_b] new_db).1 = false
  ∧ ¬ all_or_nothing [chunk_a; chunk_b] new_db
        (index_batch [chunk_a; chunk_b] new_db).2.
Proof.
  assert (Hb : balanced new_db) by apply consistent_balanced, consistent_empty.
  pose proof (index_batch_loop_fail [chunk_a] chunk_b [] new_db [] Hb) as Hfail.
  unfold index_batch. cbn [app] in Hfail.
  rewrite Hfail; [|by constructor; [apply chunk_a_dim_ok|] | apply chunk_b_dim_bad].
  split; [done|]. cbn [snd].
  intros [Hnone | (ids & Hlen & Hall)].
  - apply (f_equal (λ s, length (docs s))) in Hnone. discriminate Hnone.
  - apply (f_equal (λ s, length (docs_vec s))) in Hall.
    destruct ids as [|i [|i' [|]]]; try discriminate Hlen. discriminate Hall.
Qed.

Lemma index_batch_commits_in_order_witness :
  (Forall dim_ok [chunk_a; chunk_a] →
     let ids := seqZ (next_rowid (doc_ids new_db)) (Z.of_nat (length [chunk_a; chunk_a])) in
     index_batch [chunk_a; chunk_a] new_db
     = (Ok ids, with_items new_db ids [chunk_a; chunk_a])
     ∧ length ids = length [chunk_a; chunk_a]
     ∧ consistent (with_items new_db ids [chunk_a; chunk_a]))
  ∧ (∀ good bad rest,
       [chunk_a; chunk_a] = good ++ bad :: rest → Forall dim_ok good → ¬ dim_ok bad →
       let ids := seqZ (next_rowid (doc_ids new_db)) (Z.of_nat (length good)) in
       index_batch [chunk_a; chunk_a] new_db
       = (Raise dimension_mismatch, with_half_item (with_items new_db ids good) bad)).
Proof.
  exact (index_batch_commits_in_order new_db [chunk_a; chunk_a] consistent_empty).
Defined.

Lemma Q_ltb_asym (x y : Q) : Q_ltb x y = true → Q_ltb y x = false.
Proof.
  unfold Q_ltb. rewrite negb_true_iff, negb_false_iff.
  intros Hyx. apply Qle_bool_iff.
  destruct (Qlt_le_dec x y) as [Hlt|Hle]; [by apply Qlt_le_weak|].
  apply Qle_bool_iff in Hle. congruence.
Qed.

Lemma Q_ltb_negtrans (x y z : Q) :
  Q_ltb x y = false → Q_ltb y z = false → Q_ltb x z = false.
Proof.
  unfold Q_ltb. rewrite !negb_false_iff, !Qle_bool_iff.
  intros Hyx Hzy. by apply Qle_trans with y.
Qed.

Lemma all_ids_8_1 : cpython_set_union_iter [1; 8] [8; 1] = [8; 1].
Proof. reflexivity. Qed.

Lemma all_ids_8_1_covered i :
  i ∈ cpython_set_union_iter [1; 8] [8; 1] ↔ i ∈ [1; 8] ∨ i ∈ [8; 1].
Proof. rewrite all_ids_8_1, !elem_of_cons, !elem_of_nil. tauto. Qed.

Lemma NoDup_1_8 : NoDup [1; 8].
Proof. apply (bool_decide_unpack _). by vm_compute. Qed.

Lemma NoDup_8_1 : NoDup [8; 1].
Proof. apply (bool_decide_unpack _). by vm_compute. Qed.

Lemma all_ids_1_covered i :
  i ∈ cpython_set_union_iter [1] [8; 1] ↔ i ∈ [1] ∨ i ∈ [8; 1].
Proof.
  change (cpython_set_union_iter [1] [8; 1]) with [8; 1].
  rewrite !elem_of_cons, !elem_of_nil. tauto.
Qed.

Lemma NoDup_1 : NoDup [1].
Proof. apply (bool_decide_unpack _). by vm_compute. Qed.

(** C3: with [k = -1] the loop divides by [k + 1] for chunk 1, which has the
    lexical rank 1: [search_hybrid] raises and gives no id a score. *)
Lemma search_hybrid_rrf_not_for_every_k :
  search_bm25 (fts_1_8 (-1.5)%float (-0.75)%float) (two_chunks [] []) "quick fox" 15
  = Ok float_bm25_results
  ∧ rank_in float_bm25_results 1 = Some 1
  ∧ float_search_hybrid (two_chunks [] []) "quick fox" [] 5 (-1) 1%float 1%float
    = Raise ZeroDivisionError.
Proof. split; [done|]. split; [done | vm_compute; reflexivity]. Qed.

(** C3 (as amended) on the two chunks with binary64 floats, when the lexical
    query finds chunk 1 only and the vector query finds chunk 8 before
    chunk 1, with [limit = 5] and [k = 60]: chunk 8 is scored with the rank
    [3 * 5 + 1 = 16] for the lexical list, [1.0 * (1/76) + 1.0 * (1/61)], and
    its [bm25_rank] is [None]; chunk 1 is scored [1.0 * (1/61) + 1.0 * (1/62)]. *)
Lemma search_hybrid_rrf_witness :
  ∃ out,
    float_search_hybrid_1 (two_chunks [] []) "quick" [] 5 60 1%float 1%float = Ok out
    ∧ r_id <$> out = [1; 8]
    ∧ r_bm25_rank <$> out = [Some 1; None]
    ∧ r_vec_rank <$> out = [Some 2; Some 1]
    ∧ r_rrf_score <$> out
      = [Some (PrimFloat.add (PrimFloat.mul 1 (float_recip 61))
                             (PrimFloat.mul 1 (float_recip 62)));
         Some (PrimFloat.add (PrimFloat.mul 1 (float_recip 76))
                             (PrimFloat.mul 1 (float_recip 61)))]
    ∧ r_rank <$> out = [1; 2].
Proof.
  destruct (search_hybrid_rrf PrimFloat.add PrimFloat.mul float_recip PrimFloat.ltb
              (fts_1 (-1.5)%float) (knn_8_1 0.125%float 0.5%float)
              cpython_set_union_iter
              (two_chunks [] []) "quick" [] 5 60 1%float 1%float
              [(chunk_1, (-1.5)%float)]
              [(chunk_8, 0.125%float); (chunk_1, 0.5%float)]
              eq_refl eq_refl NoDup_1 NoDup_8_1
              (conj NoDup_8_1 all_ids_1_covered))
    as (_ & _ & Hreturns).
  destruct Hreturns as (scored & sorted & out & _ & _ & _ & _ & _ & Hrun & _).
  { intros i Hi.
    assert (i = 1 ∨ i = 8) as [->| ->].
    { destruct Hi as [Hi|Hi];
        [change (i ∈ [1]) in Hi | change (i ∈ [8; 1]) in Hi];
        rewrite ?elem_of_cons, ?elem_of_nil in Hi; tauto. }
    - by vm_compute.
    - by vm_compute. }
  exists out. split; [exact Hrun|].
  vm_compute in Hrun. injection Hrun as <-. by vm_compute.
Defined.

(** C4: on the two chunks both results have the same score; chunk 8
    ([bm25_rank] 2) is returned before chunk 1 ([bm25_rank] 1), in the order
    in which the set [{1, 8}] is iterated. *)
Lemma search_hybrid_ties_in_set_order :
  ∃ out,
    float_search_hybrid (two_chunks [] []) "quick fox" [] 5 60 1%float 1%float = Ok out
    ∧ r_id <$> out = [8; 1]
    ∧ r_bm25_rank <$> out = [Some 2; Some 1]
    ∧ ¬ StronglySorted (spec_order PrimFloat.ltb 15) out.
Proof.
  eexists. split; [vm_compute; reflexivity|]. split; [done|]. split; [done|].
  intros Hs. apply StronglySorted_cons in Hs as [Hs _].
  apply list.Forall_cons in Hs as [(sa & sb & Ha & Hb & Hord) _].
  cbn in Ha, Hb. injection Ha as <-. injection Hb as <-.
  destruct Hord as [Hlt | (_ & _ & Htie)]; [by vm_compute in Hlt|].
  unfold tie_break in Htie. cbn in Htie. lia.
Qed.

Lemma search_hybrid_order_witness :
  ∃ sorted,
    Q_search_hybrid (two_chunks [] []) "quick fox" [] 5 60 1%Q 1%Q
    = Ok (assign_ranks sorted 5)
    ∧ StronglySorted
        (desc_then Q_ltb r_rrf_score
           (λ a b, occurs_before (cpython_set_union_iter [1; 8] [8; 1]) (r_id a) (r_id b)))
        sorted.
Proof.
  destruct (search_hybrid_order Qplus Qmult Q_recip Q_ltb
              (fts_1_8 (-3#2)%Q (-3#4)%Q) (knn_8_1 (1#8)%Q (1#2)%Q)
              cpython_set_union_iter Q_ltb_asym Q_ltb_negtrans
              (two_chunks [] []) "quick fox" [] 5 60 1%Q 1%Q
              Q_bm25_results Q_vec_results
              eq_refl eq_refl NoDup_1_8 NoDup_8_1
              (conj NoDup_8_1 (λ i, proj1 (all_ids_8_1_covered i))))
    as (sorted & Hrun & _ & Hsorted & _).
  { split; [done|]. repeat constructor; done. }
  by exists sorted.
Defined.

(** C5: with [limit = -1] the slice [[:-1]] drops the last of the two
    reranked candidates and one result is returned. *)
Lemma search_hybrid_reranked_negative_limit :
  ∃ out,
    (float_search_hybrid_reranked (two_chunks [] []) "quick fox" [] (-1) 20).1 = Ok out
    ∧ length out = 1%nat
    ∧ ¬ (Z.of_nat (length out) ≤ -1).
Proof. eexists. split; [vm_compute; reflexivity|]. split; [done | cbn; lia]. Qed.

Lemma search_hybrid_reranked_spec_witness :
  (20 = 0 → Q_candidates = [])
  ∧ (Q_candidates = [] →
       Q_search_hybrid_reranked (two_chunks [] []) "quick fox" [] 1 20 = (Ok [], []))
  ∧ (Q_candidates ≠ [] →
       ∀ scores,
         Q_rerank "quick fox" (r_content <$> Q_candidates) = Ok scores →
         length scores = length Q_candidates →
         ∃ sorted,
           Q_search_hybrid_reranked (two_chunks [] []) "quick fox" [] 1 20
           = (Ok (assign_ranks sorted 1), [("quick fox", r_content <$> Q_candidates)])
           ∧ sorted ≡ₚ attach_scores Q_candidates scores
           ∧ StronglySorted
               (desc_then Q_ltb r_rerank_score (λ a b, r_rank a < r_rank b)) sorted
           ∧ (0 ≤ 1 → Z.of_nat (length (assign_ranks sorted 1)) ≤ 1)
           ∧ ∀ (i : nat) r, assign_ranks sorted 1 !! i = Some r →
               r_rank r = Z.of_nat i + 1
               ∧ ∃ r0, sorted !! i = Some r0 ∧ same_but_rank r0 r).
Proof.
  exact (search_hybrid_reranked_spec Qplus Qmult Q_recip Q_ltb 1%Q
           (fts_1_8 (-3#2)%Q (-3#4)%Q) (knn_8_1 (1#8)%Q (1#2)%Q)
           cpython_set_union_iter Q_rerank Q_ltb_asym Q_ltb_negtrans
           (two_chunks [] []) "quick fox" [] 1 20 Q_candidates eq_refl).
Defined.

(** X3 on the empty store. *)
Lemma index_then_delete_restores_witness :
  ∃ i db1,
    index_document "a.md" 0 "the quick brown fox" (replicate 768 (0 : Q)) None new_db
    = (Ok i, db1)
    ∧ delete_source "a.md" db1 = (Ok 1, new_db).
Proof.
  apply index_then_delete_restores;
    [apply consistent_empty | reflexivity | apply not_elem_of_nil].
Defined.

(** X4 on the empty store: the chunk of [b.md] gets the id the deleted chunk
    of [a.md] had. *)
Lemma deleted_id_is_given_again_witness :
  ∃ i db1 db2,
    index_document "a.md" 0 "the quick brown fox" (replicate 768 (0 : Q)) None new_db
    = (Ok i, db1)
    ∧ delete_source "a.md" db1 = (Ok 1, db2)
    ∧ (index_document "b.md" 0 "a fox" (replicate 768 (1 : Q)) None db2).1 = Ok i.
Proof.
  apply deleted_id_is_given_again;
    [apply consistent_empty | reflexivity | reflexivity | apply not_elem_of_nil].
Defined.

(** X6 on the two chunks, with [limit = 1]. *)
Lemma search_bm25_ranks_witness :
  ∃ out,
    search_bm25 (fts_1_8 (-3#2)%Q (-3#4)%Q) (two_chunks [] []) "quick fox" 1 = Ok out
    ∧ length out = 1%nat.
Proof.
  destruct (search_bm25_ranks (fts_1_8 (-3#2)%Q (-3#4)%Q) (two_chunks [] [])
              "quick fox" 1 _ eq_refl) as (out & Hrun & Hlen & _).
  by exists out.
Defined.

Lemma Q_search_hybrid_candidates :
  Q_search_hybrid (two_chunks [] []) "quick fox" [] 20 60 1%Q 1%Q = Ok Q_candidates.
Proof. reflexivity. Qed.

(** X7 on the two chunks: both were found by the lexical query, and both
    results show [score] and no [distance]. *)
Lemma search_hybrid_result_fields_witness :
  Forall (λ r, is_Some (r_score r) ∧ r_distance r = None) Q_candidates.
Proof.
  destruct (search_hybrid_result_fields Qplus Qmult Q_recip Q_ltb
              (fts_1_8 (-3#2)%Q (-3#4)%Q) (knn_8_1 (1#8)%Q (1#2)%Q)
              cpython_set_union_iter
              (two_chunks [] []) "quick fox" [] 20 60 1%Q 1%Q Q_candidates
              Q_search_hybrid_candidates)
    as (bm25_results & vec_results & Hbm & Hvec & Hout).
  injection Hbm as <-. rewrite Forall_forall. intros r Hr.
  destruct (Hout r Hr) as [Hlex _].
  assert (Hid : r_id r ∈ [1; 8]).
  { unfold Q_candidates in Hr. rewrite !elem_of_cons in Hr.
    destruct Hr as [->|[->|Hr]]; [by right; left | by left | by apply elem_of_nil in Hr]. }
  by destruct (Hlex Hid) as (_ & ? & ?).
Defined.

(** X8 on the two chunks, with [limit = 1]. *)
Lemma search_hybrid_distinct_bounded_witness :
  ∃ out,
    Q_search_hybrid (two_chunks [] []) "quick fox" [] 1 60 1%Q 1%Q = Ok out
    ∧ NoDup (r_id <$> out)
    ∧ Z.of_nat (length out) ≤ 1.
Proof.
  destruct (search_hybrid_distinct_bounded Qplus Qmult Q_recip Q_ltb
              (fts_1_8 (-3#2)%Q (-3#4)%Q) (knn_8_1 (1#8)%Q (1#2)%Q)
              cpython_set_union_iter
              (two_chunks [] []) "quick fox" [] 1 60 1%Q 1%Q
              Q_bm25_results Q_vec_results
              eq_refl eq_refl NoDup_1_8 NoDup_8_1
              (conj NoDup_8_1 (λ i, proj1 (all_ids_8_1_covered i))))
    as (out & Hrun & Hnd & _ & Hlen & _).
  { split; [done|]. repeat constructor; done. }
  exists out. split; [done|]. split; [done|]. by apply Hlen.
Defined.

(** X9 on the two chunks, with [k = -1]: chunk 1 has the lexical rank 1. *)
Lemma search_hybrid_division_by_zero_witness :
  Q_search_hybrid (two_chunks [] []) "quick fox" [] 5 (-1) 1%Q 1%Q
  = Raise ZeroDivisionError.
Proof.
  apply (search_hybrid_division_by_zero Qplus Qmult Q_recip Q_ltb
           (fts_1_8 (-3#2)%Q (-3#4)%Q) (knn_8_1 (1#8)%Q (1#2)%Q)
           cpython_set_union_iter
           (two_chunks [] []) "quick fox" [] 5 (-1) 1%Q 1%Q
           Q_bm25_results Q_vec_results 1
           eq_refl eq_refl NoDup_1_8 NoDup_8_1
           (λ i, proj1 (all_ids_8_1_covered i))).
  - apply all_ids_8_1_covered. left. by left.
  - by left.
Defined.

(** A reranker that scores the first document only. *)
Definition Q_rerank_first (query : string) (documents : list string) : Res (list Q) :=
  Ok (take 1 ((λ d, inject_Z (Z.of_nat (String.length d))) <$> documents)).

(** X10 on the two chunks. *)
Lemma search_hybrid_reranked_scores_missing_witness :
  search_hybrid_reranked Qplus Qmult Q_recip Q_ltb 1%Q
    (fts_1_8 (-3#2)%Q (-3#4)%Q) (knn_8_1 (1#8)%Q (1#2)%Q)
    cpython_set_union_iter Q_rerank_first (two_chunks [] []) "quick fox" [] 5 20
  = (Raise (KeyError "rerank_score"), [("quick fox", r_content <$> Q_candidates)]).
Proof.
  destruct (search_hybrid_reranked_scores_missing Qplus Qmult Q_recip Q_ltb 1%Q
              (fts_1_8 (-3#2)%Q (-3#4)%Q) (knn_8_1 (1#8)%Q (1#2)%Q)
              cpython_set_union_iter Q_rerank_first
              (two_chunks [] []) "quick fox" [] 5 20 Q_candidates
              Q_search_hybrid_candidates ltac:(discriminate)) as [Hshort _].
  apply (Hshort [inject_Z 5]); [reflexivity | cbn; lia].
Defined.

(** A cross-encoder that scores a document by its length. *)
Definition Q_predict (pairs : list (string * string)) : Res (list Q) :=
  Ok ((λ p, inject_Z (Z.of_nat (String.length p.2))) <$> pairs).

(** X13 on three documents, with [top_k = 0]: all three pairs are returned. *)
Lemma rerank_with_indices_spec_witness :
  ∃ sorted,
    rerank_with_indices Q_ltb Q_predict "fox" ["a fox"; "the quick brown fox"; "a dog"]
                        (Some 0)
    = Ok sorted
    ∧ sorted ≡ₚ [(0, 5%Q); (1, 19%Q); (2, 5%Q)].
Proof.
  destruct (rerank_with_indices_spec Q_ltb Q_ltb_asym Q_ltb_negtrans Q_predict
              "fox" ["a fox"; "the quick brown fox"; "a dog"] (Some 0)
              [5%Q; 19%Q; 5%Q] eq_refl) as (sorted & Hperm & _ & Hall & _).
  exists sorted. split; [apply Hall; by right | exact Hperm].
Defined.

(** The results of the reranked search on the two chunks. *)
Definition Q_reranked : list (@Result Q) :=
  Eval vm_compute in
    match (Q_search_hybrid_reranked (two_chunks [] []) "quick fox" [] 50 20).1 with
    | Ok out => out
    | Raise _ => []
    end.

(** X11 on the two chunks, with [limit = 50] and [rerank_top_k = 20]. *)
Lemma search_hybrid_reranked_at_most_top_k_witness :
  Z.of_nat (length Q_reranked) ≤ 20
  ∧ Forall (λ r, is_Some (r_rerank_score r) ∧ is_Some (r_rrf_score r)) Q_reranked.
Proof.
  apply (search_hybrid_reranked_at_most_top_k Qplus Qmult Q_recip Q_ltb 1%Q
           (fts_1_8 (-3#2)%Q (-3#4)%Q) (knn_8_1 (1#8)%Q (1#2)%Q)
           cpython_set_union_iter Q_rerank
           (two_chunks [] []) "quick fox" [] 50 20 Q_reranked
           [("quick fox", r_content <$> Q_candidates)]);
    [reflexivity | lia].
Defined.

(** The result of the hybrid search with reranking for [limit = 1]. *)
Definition Q_reranked_first : list (@Result Q) :=
  Eval vm_compute in
    match (Q_search_hybrid_reranked (two_chunks [] []) "quick fox" [] 1 3).1 with
    | Ok out => out
    | Raise _ => []
    end.

Definition Q_reranked_first_calls : list (string * list string) :=
  Eval vm_compute in
    (Q_search_hybrid_reranked (two_chunks [] []) "quick fox" [] 1 3).2.

(** X12 on the two chunks, with [limit = 1]. *)
Lemma search_by_mode_rerank_witness :
  Z.of_nat (length Q_reranked_first) ≤ Z.min 1 30.
Proof.
  apply (proj1 (search_by_mode_rerank Qplus Qmult Q_recip Q_ltb 1%Q
                  (fts_1_8 (-3#2)%Q (-3#4)%Q) (knn_8_1 (1#8)%Q (1#2)%Q)
                  cpython_set_union_iter Q_rerank
                  (two_chunks [] []) "hybrid" "quick fox" [] 1)
           ltac:(done) ltac:(done) ltac:(lia) Q_reranked_first
           Q_reranked_first_calls).
  by vm_compute.
Defined.

(** X5 on the empty store: a file of two chunks, indexed with [--reindex]. *)
Lemma index_file_replaces_or_adds_witness :
  ∃ added,
    let run := index_file true "a.md"
                 [("the quick brown fox", None); ("jumps over the lazy dog", None)]
                 [replicate 768 (0 : Q); replicate 768 (1 : Q)] new_db in
    run.1 = Ok tt
    ∧ consistent run.2
    ∧ docs run.2 = filter (λ d, d_source d ≠ "a.md") (docs new_db) ++ added
    ∧ length added = 2%nat.
Proof.
  destruct (index_file_replaces_or_adds true "a.md"
              [("the quick brown fox", None); ("jumps over the lazy dog", None)]
              [replicate 768 (0 : Q); replicate 768 (1 : Q)] new_db
              consistent_empty)
    as (added & Hok & Hcons & Hdocs & Hlen & _).
  { by repeat constructor. }
  by exists added.
Defined.

End Core.

(** ** daemon.py *)
Module Daemon.

Section Service.

Set Default Proof Using "Type".

(** *** Configuration (config.py) *)

(** [ModelConfig]. [keep_loaded] is the string of the configuration file. *)
Record ModelConfig := mkModelConfig {
  name : string;
  keep_loaded : string;
  idle_timeout_seconds : Z;
}.

(** The parts of [FastSearchConfig] the manager reads: [config.models] and
    [config.memory.max_ram_mb]. *)
Record FastSearchConfig := mkConfig {
  models : gmap string ModelConfig;
  max_ram_mb : Z;
}.

(** [FastSearchConfig.default()] *)
Definition default_config : FastSearchConfig :=
  mkConfig
    (<["embedder" := mkModelConfig "BAAI/bge-base-en-v1.5" "always" 0]>
     (<["reranker" := mkModelConfig "cross-encoder/ms-marco-MiniLM-L-6-v2" "on_demand" 300]>
      ∅))
    4000.

(** *** The registry *)

(** [LoadedModel]. The instance is represented by the name of the model it
    was built from; instants are readings of [time.time()], memory is in MB. *)
Record LoadedModel := mkLoadedModel {
  slot : string;
  instance : string;
  loaded_at : Z;
  last_used : Z;
  memory_mb : Z;
}.

(** [LoadedModel.touch], at the instant [now]. *)
Definition touch (now : Z) (model : LoadedModel) : LoadedModel :=
  mkLoadedModel (slot model) (instance model) (loaded_at model) now (memory_mb model).

(** An [OrderedDict] keyed by slot names: its items in order, every key once. *)
Fixpoint od_get {V} (key : string) (od : list (string * V)) : option V :=
  match od with
  | [] => None
  | kv :: rest => if decide (kv.1 = key) then Some kv.2 else od_get key rest
  end.

(** [del od[key]] *)
Definition od_del {V} (key : string) (od : list (string * V)) : list (string * V) :=
  filter (λ kv, kv.1 ≠ key) od.

(** [od[key] = value]: in place for a key of the dict, at the end otherwise. *)
Definition od_set {V} (key : string) (value : V) (od : list (string * V))
    : list (string * V) :=
  match od_get key od with
  | Some _ => (λ kv, if decide (kv.1 = key) then (key, value) else kv) <$> od
  | None => od ++ [(key, value)]
  end.

(** [od.move_to_end(key)], the value being [value]. *)
Definition od_move_to_end {V} (key : string) (value : V) (od : list (string * V))
    : list (string * V) :=
  od_del key od ++ [(key, value)].

(** A task created by [_schedule_unload]: the timeout it sleeps for, the
    instant its sleep ends, and whether it is over (it ran or was cancelled). *)
Record UnloadTask := mkUnloadTask {
  task_timeout : Z;
  wake_at : Z;
  over : bool;
}.

(** [ModelManager], with the warnings it logged (oldest first). *)
Record ModelManager := mkManager {
  config : FastSearchConfig;
  _models : list (string * LoadedModel);
  _unload_tasks : gmap string UnloadTask;
  warnings : list string;
}.

Definition set_models (m : ModelManager) (ms : list (string * LoadedModel))
    : ModelManager :=
  mkManager (config m) ms (_unload_tasks m) (warnings m).
Definition set_tasks (m : ModelManager) (ts : gmap string UnloadTask) : ModelManager :=
  mkManager (config m) (_models m) ts (warnings m).
Definition warn (m : ModelManager) (msg : string) : ModelManager :=
  mkManager (config m) (_models m) (_unload_tasks m) (warnings m ++ [msg]).

(** [ModelManager.__init__] *)
Definition new_manager (cfg : FastSearchConfig) : ModelManager :=
  mkManager cfg [] ∅ [].

(** [ModelManager.is_loaded] *)
Definition is_loaded (slot : string) (m : ModelManager) : bool :=
  bool_decide (is_Some (od_get slot (_models m))).

(** [ModelManager.estimate_model_memory] *)
Definition estimate_model_memory (slot : string) : Z :=
  if decide (slot = "embedder") then 450
  else if decide (slot = "reranker") then 90
  else if decide (slot = "summarizer") then 4000
  else 500.

(** The constructors [TextEmbedding(name)] and [CrossEncoder(name)]: the
    slot and the model name give an instance or raise. *)
Context (construct : string → string → Res string).

(** [ModelManager._load_model_sync] *)
Definition _load_model_sync (cfg : FastSearchConfig) (slot : string) : Res string :=
  match models cfg !! slot with
  | None => Raise (Exn "ValueError" ("Unknown model slot: " +:+ slot))
  | Some model_config =>
      if decide (slot = "embedder") then construct slot (name model_config)
      else if decide (slot = "reranker") then construct slot (name model_config)
      else Raise (Exn "ValueError" ("Unknown model slot: " +:+ slot))
  end.

(** [model_config and model_config.keep_loaded == "always"] *)
Definition pinned (cfg : FastSearchConfig) (slot : string) : Prop :=
  ∃ model_config, models cfg !! slot = Some model_config
                  ∧ keep_loaded model_config = "always".

(** [model_config and model_config.keep_loaded != "always"] *)
Definition evictable (cfg : FastSearchConfig) (slot : string) : Prop :=
  ∃ model_config, models cfg !! slot = Some model_config
                  ∧ keep_loaded model_config ≠ "always".

#[local] Instance pinned_dec cfg slot : Decision (pinned cfg slot).
Proof.
  unfold pinned. destruct (models cfg !! slot) as [mc|].
  - destruct (decide (keep_loaded mc = "always")).
    + left. by exists mc.
    + right. intros (mc' & [= <-] & ?). done.
  - right. by intros (mc' & ? & _).
Defined.

#[local] Instance evictable_dec cfg slot : Decision (evictable cfg slot).
Proof.
  unfold evictable. destruct (models cfg !! slot) as [mc|].
  - destruct (decide (keep_loaded mc = "always")).
    + right. intros (mc' & [= <-] & ?). done.
    + left. by exists mc.
  - right. by intros (mc' & ? & _).
Defined.

(** [ModelManager.unload_model] *)
Definition unload_model (slot : string) (m : ModelManager) : ModelManager :=
  match od_get slot (_models m) with
  | None => m
  | Some model =>
      if decide (pinned (config m) slot)
      then warn m ("Cannot unload 'always' model: " +:+ slot)
      else set_models m (od_del slot (_models m))
  end.

(** The [for s in self._models] loop of [_ensure_memory_budget]: the first
    slot of the registry that may be evicted. *)
Fixpoint first_evictable (cfg : FastSearchConfig) (slots : list string)
    : option string :=
  match slots with
  | [] => None
  | s :: rest => if decide (evictable cfg s) then Some s else first_evictable cfg rest
  end.

Definition find_evict_slot (m : ModelManager) : option string :=
  first_evictable (config m) (_models m).*1.

(** The [while] loop of [_ensure_memory_budget]. [usage n] is the n-th
    reading of [get_memory_usage()] in this call, [current_usage] the last
    one taken, [n] their number so far. Every turn that does not leave the
    loop unloads a slot, so [fuel] turns are enough when [fuel] is the number
    of loaded slots; [None] stands for a loop cut short by [fuel]. *)
Fixpoint evict_loop (fuel : nat) (needed_mb : Z) (usage : nat → Z)
    (current_usage : Z) (n : nat) (m : ModelManager) : option ModelManager :=
  if decide (current_usage + needed_mb > max_ram_mb (config m) ∧ _models m ≠ []) then
    match find_evict_slot m with
    | None => Some (warn m "Cannot evict: all models are 'always' loaded")
    | Some evict_slot =>
        match fuel with
        | O => None
        | S fuel' =>
            evict_loop fuel' needed_mb usage (usage (S n)) (S n)
                       (unload_model evict_slot m)
        end
    end
  else Some m.

(** [ModelManager._ensure_memory_budget] *)
Definition _ensure_memory_budget (slot : string) (usage : nat → Z) (m : ModelManager)
    : option ModelManager :=
  evict_loop (length (_models m)) (estimate_model_memory slot) usage (usage O) O m.

(** [ModelManager._schedule_unload], at the instant [now]. A task in the
    dict is cancelled before it is replaced. *)
Definition _schedule_unload (slot : string) (now : Z) (m : ModelManager) : ModelManager :=
  match models (config m) !! slot with
  | None => m
  | Some model_config =>
      if decide (keep_loaded model_config ≠ "on_demand") then m
      else
        let timeout := idle_timeout_seconds model_config in
        if decide (timeout ≤ 0) then m
        else set_tasks m (<[slot := mkUnloadTask timeout (now + timeout) false]>
                            (_unload_tasks m))
  end.

(** [ModelManager.load_model], at the instant [now]. *)
Definition load_model (slot : string) (now : Z) (usage : nat → Z) (m : ModelManager)
    : option (Res LoadedModel * ModelManager) :=
  match od_get slot (_models m) with
  | Some model =>
      let model := touch now model in
      Some (Ok model, set_models m (od_move_to_end slot model (_models m)))
  | None =>
      let m := set_tasks m (delete slot (_unload_tasks m)) in
      m ← _ensure_memory_budget slot usage m;
      match _load_model_sync (config m) slot with
      | Raise e => Some (Raise e, m)
      | Ok instance =>
          let memory_mb := estimate_model_memory slot in
          let model := mkLoadedModel slot instance now now memory_mb in
          let m := set_models m (od_set slot model (_models m)) in
          Some (Ok model, _schedule_unload slot now m)
      end
  end.

(** The coroutine [_delayed_unload] of [slot] after its sleep, at the
    instant [now]. *)
Definition _delayed_unload (slot : string) (timeout : Z) (now : Z) (m : ModelManager)
    : ModelManager :=
  match od_get slot (_models m) with
  | Some model =>
      let idle_time := now - last_used model in
      if decide (timeout ≤ idle_time) then unload_model slot m else m
  | None => m
  end.

(** The event loop resumes the task of [slot] at the instant [now]: a task
    that is over, or whose sleep has not ended, does nothing. *)
Definition run_unload_task (slot : string) (now : Z) (m : ModelManager) : ModelManager :=
  match _unload_tasks m !! slot with
  | Some task =>
      if over task then m
      else if decide (now < wake_at task) then m
      else
        let m := _delayed_unload slot (task_timeout task) now m in
        set_tasks m (<[slot := mkUnloadTask (task_timeout task) (wake_at task) true]>
                       (_unload_tasks m))
  | None => m
  end.

(** The slots with a task that can still run. *)
Definition pending_tasks (m : ModelManager) : list string :=
  (map_to_list (filter (λ kv, over kv.2 = false) (_unload_tasks m))).*1.

(** An entry of [get_status()["loaded_models"]]. *)
Record ModelStatus := mkModelStatus {
  st_loaded_at : Z;
  st_last_used : Z;
  st_memory_mb : Z;
  st_idle_seconds : Z;
}.

(** [ModelManager.get_status], at the instant [now], [total_memory_mb] being
    the reading of [get_memory_usage()]. *)
Record Status := mkStatus {
  loaded_models : list (string * ModelStatus);
  total_memory_mb : Z;
  max_memory_mb : Z;
}.

Definition get_status (now : Z) (total : Z) (m : ModelManager) : Status :=
  mkStatus
    ((λ kv, (kv.1, mkModelStatus (loaded_at kv.2) (last_used kv.2) (memory_mb kv.2)
                                 (now - last_used kv.2))) <$> _models m)
    total (max_ram_mb (config m)).

(** *** JSON and requests *)

(** A value built by [json.loads] or given to [json.dumps]; a dict as the
    list of its items, every key once. *)
#[local] Unset Elimination Schemes.
Inductive JSON :=
| JNull
| JBool (b : bool)
| JInt (n : Z)
| JFloat (x : float)
| JStr (s : string)
| JArr (xs : list JSON)
| JObj (items : list (string * JSON)).
#[local] Set Elimination Schemes.

(** [bool(v)] *)
Definition py_truthy (v : JSON) : bool :=
  match v with
  | JNull => false
  | JBool b => b
  | JInt n => bool_decide (n ≠ 0)
  | JFloat x => negb (PrimFloat.eqb x 0%float)
  | JStr s => bool_decide (s ≠ "")
  | JArr xs => match xs with [] => false | _ => true end
  | JObj items => match items with [] => false | _ => true end
  end.

Definition py_type_name (v : JSON) : string :=
  match v with
  | JNull => "NoneType"
  | JBool _ => "bool"
  | JInt _ => "int"
  | JFloat _ => "float"
  | JStr _ => "str"
  | JArr _ => "list"
  | JObj _ => "dict"
  end.

(** [v.get(key, default)]: only a dict has the method. *)
Definition py_get (v : JSON) (key : string) (default : JSON) : Res JSON :=
  match v with
  | JObj items => Ok (from_option id default (od_get key items))
  | _ => Raise (Exn "AttributeError"
                    ("'" +:+ py_type_name v +:+ "' object has no attribute 'get'"))
  end.

(** [json.loads]: the value, or the text of the [JSONDecodeError]. *)
Context (json_loads : string → string + JSON).

(** [str(x)] for a float. *)
Context (float_str : float → string).

(** [f"{v}"] for a value that can be a key of a dict. *)
Definition py_format (v : JSON) : string :=
  match v with
  | JNull => "None"
  | JBool b => if b then "True" else "False"
  | JInt n => pretty n
  | JFloat x => float_str x
  | JStr s => s
  | JArr _ => "[...]"
  | JObj _ => "{...}"
  end.

(** Well-formed UTF-8, byte sequence by byte sequence (no overlong form, no
    surrogate, nothing above U+10FFFF), as the strict codec checks it. *)
Definition in_range (lo hi b : N) : bool := ((lo <=? b) && (b <=? hi))%N.
Definition continuation (b : N) : bool := in_range 128 191 b.

Fixpoint utf8_valid (bs : list N) : bool :=
  match bs with
  | [] => true
  | b0 :: r0 =>
      if (b0 <=? 127)%N then utf8_valid r0
      else if in_range 194 223 b0 then
        match r0 with
        | b1 :: r1 => continuation b1 && utf8_valid r1
        | _ => false
        end
      else if in_range 224 239 b0 then
        match r0 with
        | b1 :: b2 :: r2 =>
            (if (b0 =? 224)%N then in_range 160 191 b1
             else if (b0 =? 237)%N then in_range 128 159 b1
             else continuation b1)
            && continuation b2 && utf8_valid r2
        | _ => false
        end
      else if in_range 240 244 b0 then
        match r0 with
        | b1 :: b2 :: b3 :: r3 =>
            (if (b0 =? 240)%N then in_range 144 191 b1
             else if (b0 =? 244)%N then in_range 128 143 b1
             else continuation b1)
            && continuation b2 && continuation b3 && utf8_valid r3
        | _ => false
        end
      else false
  end.

(** [data.decode()]; the text is kept as its UTF-8 bytes. *)
Definition bytes_decode (data : list Byte.byte) : Res string :=
  if utf8_valid (Byte.to_N <$> data) then Ok (String.string_of_list_byte data)
  else Raise (Exn "UnicodeDecodeError" "'utf-8' codec can't decode byte: invalid start byte").

(** *** The dispatcher *)

(** [FastSearchDaemon]: the manager, the request counter, the shutdown flag. *)
Record FastSearchDaemon := mkDaemon {
  model_manager : ModelManager;
  _request_count : Z;
  _shutdown_event : bool;
}.

(** A handler: from the params it returns a result or raises, and may
    change the daemon. *)
Definition Handler : Type := JSON → FastSearchDaemon → Res JSON * FastSearchDaemon.

(** The handlers of the methods other than [embed], by name, and what
    [_handle_embed] does with texts it accepted. *)
Context (handle : string → Handler).
Context (embed_texts : JSON → FastSearchDaemon → Res JSON * FastSearchDaemon).

(** [FastSearchDaemon._handle_embed] *)
Definition _handle_embed : Handler := λ params d,
  match py_get params "texts" (JArr []) with
  | Raise e => (Raise e, d)
  | Ok texts =>
      if py_truthy texts then embed_texts texts d
      else (Raise (Exn "ValueError" "Missing 'texts' parameter"), d)
  end.

(** The keys of [self._handlers]. *)
Definition handler_names : list string :=
  ["ping"; "status"; "search"; "embed"; "rerank"; "load_model"; "unload_model";
   "reload_config"; "shutdown"].

(** [self._handlers.get(method)] *)
Definition _handlers (method : string) : option Handler :=
  if decide (method = "embed") then Some _handle_embed
  else if decide (method ∈ handler_names) then Some (handle method)
  else None.

(** [method in self._handlers]: a list or a dict is not hashable. *)
Definition find_handler (method : JSON) : Res (option Handler) :=
  match method with
  | JStr s => Ok (_handlers s)
  | JArr _ | JObj _ =>
      Raise (Exn "TypeError" ("unhashable type: '" +:+ py_type_name method +:+ "'"))
  | _ => Ok None
  end.

(** The dicts given to [json.dumps]. *)
Definition error_response (code : Z) (message : string) (id : JSON) : JSON :=
  JObj [("jsonrpc", JStr "2.0");
        ("error", JObj [("code", JInt code); ("message", JStr message)]);
        ("id", id)].

Definition result_response (result id : JSON) : JSON :=
  JObj [("jsonrpc", JStr "2.0"); ("result", result); ("id", id)].

Definition count_request (d : FastSearchDaemon) : FastSearchDaemon :=
  mkDaemon (model_manager d) (_request_count d + 1) (_shutdown_event d).

(** [FastSearchDaemon._handle_request]. [Ok response] stands for the
    returned [json.dumps(response).encode()], [Raise e] for an exception that
    leaves the method. *)
Definition _handle_request (data : list Byte.byte) (d : FastSearchDaemon)
    : Res JSON * FastSearchDaemon :=
  match bytes_decode data with
  | Raise e => (Raise e, d)
  | Ok text =>
      match json_loads text with
      | inl e => (Ok (error_response (-32700) ("Parse error: " +:+ e) JNull), d)
      | inr request =>
          match py_get request "id" JNull,
                py_get request "method" JNull,
                py_get request "params" (JObj []) with
          | Ok request_id, Ok method, Ok params =>
              let d := count_request d in
              match find_handler method with
              | Raise e => (Raise e, d)
              | Ok None =>
                  (Ok (error_response (-32601)
                         ("Method not found: " +:+ py_format method) request_id), d)
              | Ok (Some handler) =>
                  match handler params d with
                  | (Ok result, d) => (Ok (result_response result request_id), d)
                  | (Raise e, d) =>
                      (Ok (error_response (-32000) (exn_msg e) request_id), d)
                  end
              end
          | Raise e, _, _ | _, Raise e, _ | _, _, Raise e => (Raise e, d)
          end
      end
  end.

(** *** What the eviction is compared with *)

(** The slots of the registry that may be evicted, least recently used first. *)
Definition victims (m : ModelManager) : list string :=
  filter (evictable (config m)) (_models m).*1.

(** The manager after the first [j] of them were unloaded, [ws] being the
    warnings logged on the way. *)
Definition evicted (j : nat) (ws : list string) (m : ModelManager) : ModelManager :=
  mkManager (config m)
            (filter (λ kv, kv.1 ∉ take j (victims m)) (_models m))
            (_unload_tasks m)
            (warnings m ++ ws).

(** The registry is in the order of last use. *)
Definition lru_ordered (m : ModelManager) : Prop :=
  StronglySorted (λ a b, last_used a.2 ≤ last_used b.2) (_models m).

(** The instant a loaded slot was last used. *)
Definition last_used_of (m : ModelManager) (slot : string) : Z :=
  default 0 (last_used <$> od_get slot (_models m)).

(** The budget is exceeded at the reading [current_usage] for a load that
    needs [needed_mb]. *)
Definition over_budget (m : ModelManager) (needed_mb current_usage : Z) : Prop :=
  current_usage + needed_mb > max_ram_mb (config m).

(** *** The ordered dict *)

Lemma od_get_Some_elem {V} key (od : list (string * V)) v :
  od_get key od = Some v → (key, v) ∈ od.
Proof.
  induction od as [|[k v'] od IH]; cbn; [done|].
  destruct (decide (k = key)) as [->|]; [intros [= ->]; by left | right; auto].
Qed.

Lemma od_get_None {V} key (od : list (string * V)) :
  od_get key od = None ↔ key ∉ od.*1.
Proof.
  induction od as [|[k v'] od IH]; cbn; [split; [intros _; apply not_elem_of_nil | done]|].
  rewrite not_elem_of_cons. destruct (decide (k = key)) as [->|Hne].
  - split; [done | by intros [? _]].
  - rewrite IH. split; [by split | by intros [_ ?]].
Qed.

Lemma od_get_del {V} key (od : list (string * V)) : od_get key (od_del key od) = None.
Proof.
  apply od_get_None. unfold od_del. intros Hin.
  apply list_elem_of_fmap in Hin as ([k v] & -> & Hkv).
  by apply list_elem_of_filter in Hkv as [Hne _].
Qed.

Lemma od_get_del_ne {V} key key' (od : list (string * V)) :
  key ≠ key' → od_get key' (od_del key od) = od_get key' od.
Proof.
  intros Hne. unfold od_del. induction od as [|[k v] od IH]; [done|].
  rewrite filter_cons. cbn. destruct (decide (k ≠ key)) as [Hk|Hk]; cbn.
  - by rewrite IH.
  - rewrite IH. apply dec_stable in Hk. subst k. by rewrite decide_False.
Qed.

Lemma od_get_snoc {V} key key' (v : V) (od : list (string * V)) :
  od_get key' (od ++ [(key, v)])
  = match od_get key' od with
    | Some v' => Some v'
    | None => if decide (key = key') then Some v else None
    end.
Proof.
  induction od as [|[k v'] od IH]; cbn; [done|].
  destruct (decide (k = key')); [done | apply IH].
Qed.

Lemma filter_not_in_nil {V} (od : list (string * V)) :
  filter (λ kv, kv.1 ∉ []) od = od.
Proof.
  induction od as [|kv od IH]; [done|].
  rewrite filter_cons_True by apply not_elem_of_nil. by rewrite IH.
Qed.

(** *** Choosing the victim *)

Lemma first_evictable_None cfg slots :
  first_evictable cfg slots = None → filter (evictable cfg) slots = [].
Proof.
  induction slots as [|s rest IH]; cbn; [done|].
  destruct (decide (evictable cfg s)); [done|]. auto.
Qed.

Lemma first_evictable_Some cfg slots s :
  first_evictable cfg slots = Some s →
  ∃ pre post, slots = pre ++ s :: post
              ∧ Forall (λ x, ¬ evictable cfg x) pre
              ∧ evictable cfg s.
Proof.
  induction slots as [|x rest IH]; cbn; [done|].
  destruct (decide (evictable cfg x)) as [Hx|Hx].
  - intros [= ->]. by exists [], rest.
  - intros (pre & post & -> & Hpre & Hs)%IH. exists (x :: pre), post.
    split; [done|]. split; [by constructor | done].
Qed.

Lemma filter_evictable_pre cfg pre :
  Forall (λ x, ¬ evictable cfg x) pre → filter (evictable cfg) pre = [].
Proof.
  induction 1 as [|x pre Hx _ IH]; [done|]. by rewrite filter_cons_False.
Qed.

(** The victim is the first of [victims], and the victims of the manager
    without it are the others. *)
Lemma find_evict_slot_Some m s :
  NoDup (_models m).*1 →
  find_evict_slot m = Some s →
  ∃ rest,
    victims m = s :: rest
    ∧ is_Some (od_get s (_models m))
    ∧ ¬ pinned (config m) s
    ∧ victims (set_models m (od_del s (_models m))) = rest.
Proof.
  unfold find_evict_slot, victims. intros Hnd (pre & post & Hks & Hpre & Hs)%first_evictable_Some.
  exists (filter (evictable (config m)) post).
  rewrite Hks in Hnd. apply NoDup_app in Hnd as (_ & Hdisj & Hnd).
  apply NoDup_cons in Hnd as [Hs_post _].
  split; [|split; [|split]].
  - rewrite Hks, list.filter_app, filter_evictable_pre by done.
    by rewrite filter_cons_True.
  - destruct (od_get s (_models m)) eqn:Hget; [by eexists|].
    apply od_get_None in Hget. rewrite Hks in Hget.
    exfalso. apply Hget. apply elem_of_app. right. by left.
  - destruct Hs as (mc & Hmc & Hk). intros (mc' & Hmc' & Hk'). congruence.
  - cbn. unfold od_del.
    assert (Hkeys : (filter (λ kv : string * LoadedModel, kv.1 ≠ s) (_models m)).*1
                    = filter (λ k, k ≠ s) (_models m).*1).
    { generalize (_models m). intros l. induction l as [|[k v] l IH]; [done|].
      rewrite fmap_cons, !filter_cons. cbn.
      destruct (decide (k ≠ s)); cbn; by rewrite IH. }
    rewrite Hkeys, Hks, list.filter_app.
    rewrite (filter_cons_False (λ k, k ≠ s) s post) by (intros Hx; by apply Hx).
    rewrite list.filter_app.
    assert (Hkeep : ∀ l : list string, s ∉ l → filter (λ k, k ≠ s) l = l).
    { intros l Hl. induction l as [|k l IH]; [done|].
      apply not_elem_of_cons in Hl as [? ?].
      rewrite filter_cons_True by done. by rewrite IH. }
    rewrite (Hkeep pre), (Hkeep post); [| done |].
    + by rewrite filter_evictable_pre.
    + intros Hin. by apply (Hdisj s Hin); left.
Qed.

Lemma unload_model_evicts m s :
  is_Some (od_get s (_models m)) → ¬ pinned (config m) s →
  unload_model s m = set_models m (od_del s (_models m)).
Proof.
  intros [model Hget] Hpin. unfold unload_model. rewrite Hget.
  by rewrite decide_False.
Qed.

(** *** The eviction loop *)

Definition cannot_evict : string := "Cannot evict: all models are 'always' loaded".

Lemma evicted_0 m : evicted 0 [] m = m.
Proof.
  destruct m as [cfg ms ts ws]. unfold evicted. cbn.
  by rewrite filter_not_in_nil, app_nil_r.
Qed.

Lemma evicted_0_warn m msg : evicted 0 [msg] m = warn m msg.
Proof. unfold evicted, warn. cbn. by rewrite filter_not_in_nil. Qed.

Lemma od_del_NoDup (s : string) (od : list (string * LoadedModel)) :
  NoDup od.*1 → NoDup (od_del s od).*1.
Proof.
  intros Hnd. eapply sublist_NoDup; [exact Hnd|].
  apply fmap_sublist, sublist_filter.
Qed.

Lemma od_del_length (s : string) (od : list (string * LoadedModel)) :
  is_Some (od_get s od) → (length (od_del s od) < length od)%nat.
Proof.
  intros [v Hv%od_get_Some_elem]. unfold od_del.
  eapply length_filter_lt; [exact Hv|]. cbn. by intros Hx.
Qed.

Lemma evicted_succ m s rest j ws :
  victims m = s :: rest →
  victims (set_models m (od_del s (_models m))) = rest →
  evicted j ws (set_models m (od_del s (_models m))) = evicted (S j) ws m.
Proof.
  intros Hv Hrest. unfold evicted. rewrite Hrest, Hv. cbn. f_equal.
  unfold od_del. rewrite list_filter_filter. apply list_filter_iff.
  intros [k v]. cbn. rewrite not_elem_of_cons. split; intros [? ?]; by split.
Qed.

(** The loop returns: it unloads the first [j] victims, one per reading
    over the budget, and stops at the first reading that fits or when no
    victim is left; in that case it warns unless the registry is empty. *)
Lemma evict_loop_spec fuel : ∀ needed usage (n : nat) m,
  NoDup (_models m).*1 → (length (_models m) ≤ fuel)%nat →
  ∃ (j : nat) ws,
    evict_loop fuel needed usage (usage n) n m = Some (evicted j ws m)
    ∧ (j ≤ length (victims m))%nat
    ∧ (∀ i : nat, (i < j)%nat → usage (n + i)%nat + needed > max_ram_mb (config m))
    ∧ (usage (n + j)%nat + needed ≤ max_ram_mb (config m) ∧ ws = []
       ∨ usage (n + j)%nat + needed > max_ram_mb (config m)
         ∧ j = length (victims m)
         ∧ ws = if decide (_models (evicted j [] m) = []) then [] else [cannot_evict]).
Proof.
  induction fuel as [|fuel IH]; intros needed usage n m Hnd Hfuel.
  - destruct (_models m) as [|kv ms] eqn:Hms; [|cbn in Hfuel; lia].
    exists 0%nat, []. cbn. rewrite Hms.
    rewrite decide_False by (by intros [_ ?]).
    rewrite evicted_0. split; [done|]. split; [lia|]. split; [intros; lia|].
    rewrite Nat.add_0_r.
    destruct (decide (usage n + needed ≤ max_ram_mb (config m))); [by left|].
    right. split; [lia|]. unfold victims. rewrite Hms. by split.
  - cbn [evict_loop].
    destruct (decide (usage n + needed > max_ram_mb (config m) ∧ _models m ≠ []))
      as [[Hover Hne]|Hstop].
    + destruct (find_evict_slot m) as [s|] eqn:Hfind.
      * destruct (find_evict_slot_Some m s Hnd Hfind) as (rest & Hv & Hget & Hpin & Hrest).
        rewrite (unload_model_evicts m s Hget Hpin).
        set (m1 := set_models m (od_del s (_models m))).
        destruct (IH needed usage (S n) m1) as (j & ws & Hrun & Hj & Hreads & Hexit).
        { by apply od_del_NoDup. }
        { pose proof (od_del_length s (_models m) Hget). cbn. lia. }
        exists (S j), ws. rewrite Hrun.
        split; [by rewrite (evicted_succ m s rest)|].
        split; [rewrite Hv; cbn; subst m1; rewrite Hrest in Hj; lia|].
        split.
        { intros [|i] Hi; [by rewrite Nat.add_0_r|].
          replace (n + S i)%nat with (S n + i)%nat by lia. apply Hreads. lia. }
        replace (n + S j)%nat with (S n + j)%nat by lia.
        rewrite <- (evicted_succ m s rest j []) by done.
        destruct Hexit as [[Hfit ->]|(Hnofit & -> & ->)]; [by left|].
        right. split; [done|]. split; [|done].
        subst m1. by rewrite Hrest, Hv.
      * exists 0%nat, [cannot_evict]. rewrite evicted_0_warn.
        split; [done|]. unfold find_evict_slot in Hfind.
        apply first_evictable_None in Hfind. fold (victims m) in Hfind.
        rewrite Hfind, Nat.add_0_r. split; [done|]. split; [intros; lia|].
        right. split; [done|]. split; [done|].
        rewrite evicted_0. by rewrite decide_False.
    + exists 0%nat, []. rewrite evicted_0, Nat.add_0_r.
      split; [done|]. split; [lia|]. split; [intros; lia|].
      destruct (decide (usage n + needed ≤ max_ram_mb (config m))); [by left|].
      right. split; [lia|].
      assert (_models m = []) as Hnil.
      { destruct (_models m); [done|]. exfalso. apply Hstop. split; [lia | done]. }
      unfold victims. rewrite Hnil. split; [done|]. by rewrite decide_True.
Qed.

(** *** Sorted lists and filters *)

Lemma StronglySorted_filter {A} (R : relation A) (P : A → Prop)
    `{∀ x, Decision (P x)} l :
  StronglySorted R l → StronglySorted R (filter P l).
Proof.
  induction 1 as [|x l Hs IH Hx]; [constructor|].
  rewrite filter_cons. destruct (decide (P x)); [|done].
  constructor; [done|]. rewrite Forall_forall in Hx |- *.
  intros y [_ Hy]%list_elem_of_filter. auto.
Qed.

Lemma od_get_elem_NoDup {V} key (v : V) (od : list (string * V)) :
  NoDup od.*1 → (key, v) ∈ od → od_get key od = Some v.
Proof.
  induction od as [|[k v'] od IH]; intros Hnd Hin; [by apply elem_of_nil in Hin|].
  rewrite fmap_cons in Hnd. apply NoDup_cons in Hnd as [Hk Hnd]. cbn.
  apply elem_of_cons in Hin as [[= <- <-]|Hin]; [by rewrite decide_True|].
  rewrite decide_False; [by apply IH|].
  intros ->. apply Hk. apply list_elem_of_fmap. by exists (key, v).
Qed.

Lemma od_get_filter_keys {V} (keys : list string) key (od : list (string * V)) :
  od_get key (filter (λ kv, kv.1 ∉ keys) od)
  = if decide (key ∈ keys) then None else od_get key od.
Proof.
  induction od as [|[k v] od IH]; [by destruct (decide _)|].
  rewrite filter_cons. cbn. destruct (decide (k ∉ keys)) as [Hk|Hk]; cbn.
  - destruct (decide (k = key)) as [->|]; [by rewrite decide_False | done].
  - rewrite IH. destruct (decide (key ∈ keys)); [done|].
    rewrite decide_False; [done|]. by intros ->.
Qed.

(** In a registry in the order of last use, so are the victims. *)
Lemma victims_lru m :
  NoDup (_models m).*1 → lru_ordered m →
  StronglySorted (λ a b, last_used_of m a ≤ last_used_of m b) (victims m).
Proof.
  intros Hnd Hlru. unfold victims. apply StronglySorted_filter.
  apply (StronglySorted_fmap fst
           (λ a b, a ∈ _models m ∧ b ∈ _models m ∧ last_used a.2 ≤ last_used b.2)).
  - intros [k v] [k' v'] (Hin & Hin' & Hle). unfold last_used_of.
    by rewrite (od_get_elem_NoDup k v), (od_get_elem_NoDup k' v').
  - eapply Core.StronglySorted_impl_elem; [exact Hlru|]. by intros.
Qed.

(** *** [load_model] *)

Lemma od_set_absent {V} key (v : V) (od : list (string * V)) :
  od_get key od = None → od_set key v od = od ++ [(key, v)].
Proof. intros Hget. unfold od_set. by rewrite Hget. Qed.

Lemma od_get_evicted j ws m s :
  od_get s (_models (evicted j ws m))
  = if decide (s ∈ take j (victims m)) then None else od_get s (_models m).
Proof. unfold evicted. cbn [_models]. apply od_get_filter_keys. Qed.

Lemma _schedule_unload_models slot now m :
  _models (_schedule_unload slot now m) = _models m
  ∧ config (_schedule_unload slot now m) = config m.
Proof.
  unfold _schedule_unload. destruct (models (config m) !! slot) as [mc|]; [|done].
  destruct (decide _); [done|]. by destruct (decide _).
Qed.

Lemma load_model_hit slot now usage m model :
  od_get slot (_models m) = Some model →
  load_model slot now usage m
  = Some (Ok (touch now model),
          set_models m (od_del slot (_models m) ++ [(slot, touch now model)])).
Proof. intros Hget. unfold load_model. by rewrite Hget. Qed.

(** The manager [load_model] returns on a miss, from the manager [m'] left
    by the eviction. *)
Definition loaded (slot : string) (now : Z) (m' : ModelManager)
    : Res LoadedModel * ModelManager :=
  match _load_model_sync (config m') slot with
  | Raise e => (Raise e, m')
  | Ok instance =>
      let model := mkLoadedModel slot instance now now (estimate_model_memory slot) in
      (Ok model,
       _schedule_unload slot now (set_models m' (_models m' ++ [(slot, model)])))
  end.

Lemma load_model_miss slot now usage m :
  NoDup (_models m).*1 →
  od_get slot (_models m) = None →
  let needed := estimate_model_memory slot in
  let m0 := set_tasks m (delete slot (_unload_tasks m)) in
  ∃ (j : nat) ws,
    _ensure_memory_budget slot usage m0 = Some (evicted j ws m0)
    ∧ (j ≤ length (victims m))%nat
    ∧ (∀ i : nat, (i < j)%nat → over_budget m needed (usage i))
    ∧ (¬ over_budget m needed (usage j) ∧ ws = []
       ∨ over_budget m needed (usage j)
         ∧ j = length (victims m)
         ∧ ws = if decide (_models (evicted j [] m) = []) then [] else [cannot_evict])
    ∧ load_model slot now usage m = Some (loaded slot now (evicted j ws m0)).
Proof.
  intros Hnd Hget needed m0.
  destruct (evict_loop_spec (length (_models m0)) needed usage 0 m0 Hnd (le_n _))
    as (j & ws & Hrun & Hj & Hreads & Hexit).
  exists j, ws. split; [done|]. split; [done|]. split; [done|]. split.
  - destruct Hexit as [[Hfit ->]|(Hover & -> & ->)]; [left|right]; unfold over_budget.
    + split; [cbn in Hfit; lia | done].
    + done.
  - unfold load_model. rewrite Hget. fold m0.
    unfold _ensure_memory_budget in Hrun |- *. fold needed. rewrite Hrun. cbn [mbind option_bind].
    unfold loaded. destruct (_load_model_sync _ slot) as [inst|e]; [|done].
    rewrite od_set_absent; [done|].
    rewrite od_get_evicted. destruct (decide (slot ∈ _)); [done | exact Hget].
Qed.

(** A returned [load_model] leaves the slot in the registry, last used at
    the instant of the call. *)
Lemma load_model_registers slot now usage m model m1 :
  NoDup (_models m).*1 →
  load_model slot now usage m = Some (Ok model, m1) →
  od_get slot (_models m1) = Some model ∧ last_used model = now.
Proof.
  intros Hnd Hrun. destruct (od_get slot (_models m)) as [model0|] eqn:Hget.
  - rewrite (load_model_hit _ _ _ _ _ Hget) in Hrun.
    injection Hrun as Hmodel Hm1. subst model m1.
    split; [|done]. cbn. rewrite od_get_snoc, od_get_del. by rewrite decide_True.
  - destruct (load_model_miss slot now usage m Hnd Hget) as (j & ws & _ & _ & _ & _ & Hload).
    rewrite Hload in Hrun. unfold loaded in Hrun.
    destruct (_load_model_sync _ slot) as [inst|e]; [|done].
    injection Hrun as Hmodel Hm1. subst model m1. split; [|done].
    rewrite (proj1 (_schedule_unload_models _ _ _)).
    unfold set_models at 1. cbn [_models].
    rewrite od_get_snoc, od_get_filter_keys, Hget.
    destruct (decide (slot ∈ _)); by rewrite decide_True.
Qed.

(** C6. On a miss, [load_model] first reads the resident memory; while a
    reading plus the estimate of the slot exceeds [max_ram_mb] it unloads the
    first slot of the registry whose configured [keep_loaded] is not
    ["always"], reads again, and stops at the first reading that fits or when
    no such slot is left (then it logs the warning, unless the registry is
    empty); it then loads the slot whatever the last reading was. Pinned slots
    stay loaded. The registry is in the order of last use: a hit moves the
    entry to the end, a load adds it at the end, and so the slot unloaded is
    the least recently used one that may be. *)
Theorem eviction_policy slot now usage m :
  NoDup (_models m).*1 →
  let needed := estimate_model_memory slot in
  let m0 := set_tasks m (delete slot (_unload_tasks m)) in
  (∀ model, od_get slot (_models m) = Some model →
     load_model slot now usage m
     = Some (Ok (touch now model),
             set_models m (od_del slot (_models m) ++ [(slot, touch now model)])))
  ∧ (od_get slot (_models m) = None →
     ∃ (j : nat) ws,
       (j ≤ length (victims m))%nat
       ∧ (∀ i : nat, (i < j)%nat → over_budget m needed (usage i))
       ∧ (¬ over_budget m needed (usage j) ∧ ws = []
          ∨ over_budget m needed (usage j)
            ∧ j = length (victims m)
            ∧ ws = if decide (_models (evicted j [] m) = []) then [] else [cannot_evict])
       ∧ _ensure_memory_budget slot usage m0 = Some (evicted j ws m0)
       ∧ (∀ s, s ∈ take j (victims m) →
               evictable (config m) s ∧ is_loaded s (evicted j ws m0) = false)
       ∧ (∀ s, pinned (config m) s → is_loaded s (evicted j ws m0) = is_loaded s m)
       ∧ load_model slot now usage m = Some (loaded slot now (evicted j ws m0)))
  ∧ (lru_ordered m →
     StronglySorted (λ a b, last_used_of m a ≤ last_used_of m b) (victims m)
     ∧ ((∀ kv, kv ∈ _models m → last_used kv.2 ≤ now) →
        ∀ r m1, load_model slot now usage m = Some (r, m1) → lru_ordered m1)).
Proof.
  intros Hnd needed m0. split; [|split].
  - intros model Hget. by apply load_model_hit.
  - intros Hget.
    destruct (load_model_miss slot now usage m Hnd Hget)
      as (j & ws & Hrun & Hj & Hreads & Hexit & Hload).
    exists j, ws. do 4 (split; [done|]). split; [|split; [|done]].
    + intros s Hs. split.
      * apply elem_of_take in Hs as (i & Hs & _). apply list_elem_of_lookup_2 in Hs.
        by apply list_elem_of_filter in Hs as [? _].
      * unfold is_loaded. cbn [_models evicted]. rewrite od_get_filter_keys.
        rewrite decide_True by done. apply bool_decide_eq_false. by intros [? ?].
    + intros s (mc & Hmc & Hk). unfold is_loaded. cbn [_models evicted].
      rewrite od_get_filter_keys. rewrite decide_False; [done|].
      intros (i & Hs & _)%elem_of_take. apply list_elem_of_lookup_2 in Hs.
      apply list_elem_of_filter in Hs as [(mc' & Hmc' & Hk') _].
      cbn in Hmc'. congruence.
  - intros Hlru. split; [by apply victims_lru|].
    intros Hnow r m1 Hrun.
    assert (Hsnoc : ∀ (ms : list (string * LoadedModel)) model,
              StronglySorted (λ a b, last_used a.2 ≤ last_used b.2) ms →
              (∀ kv, kv ∈ ms → last_used kv.2 ≤ last_used model) →
              StronglySorted (λ a b, last_used a.2 ≤ last_used b.2) (ms ++ [(slot, model)])).
    { intros ms model Hs Hle. apply StronglySorted_app. split; [|split].
      - intros a b Ha ->%list_elem_of_singleton. by apply Hle.
      - done.
      - repeat constructor. }
    destruct (od_get slot (_models m)) as [model0|] eqn:Hget.
    + rewrite (load_model_hit _ _ _ _ _ Hget) in Hrun.
      injection Hrun as Hr Hm1. subst r m1.
      unfold lru_ordered. cbn [_models set_models]. apply Hsnoc.
      * by apply StronglySorted_filter.
      * intros kv [_ Hkv]%list_elem_of_filter. cbn. auto.
    + destruct (load_model_miss slot now usage m Hnd Hget) as (j & ws & _ & _ & _ & _ & Hload).
      rewrite Hload in Hrun. unfold loaded in Hrun.
      destruct (_load_model_sync _ slot) as [inst|e].
      * injection Hrun as Hr Hm1. subst r m1. unfold lru_ordered.
        rewrite (proj1 (_schedule_unload_models _ _ _)).
        cbn [_models set_models evicted]. apply Hsnoc.
        -- by apply StronglySorted_filter.
        -- intros kv [_ Hkv]%list_elem_of_filter. cbn. auto.
      * injection Hrun as Hr Hm1. subst r m1. unfold lru_ordered. cbn [_models evicted].
        by apply StronglySorted_filter.
Qed.

(** *** Status, unloading and the idle task *)

Lemma od_get_fmap_values {V W} (f : V → W) key (od : list (string * V)) :
  od_get key ((λ kv, (kv.1, f kv.2)) <$> od) = f <$> od_get key od.
Proof.
  induction od as [|[k v] od IH]; [done|]. cbn.
  destruct (decide (k = key)); [done | apply IH].
Qed.

Lemma get_status_lookup now total m s :
  od_get s (loaded_models (get_status now total m))
  = (λ model, mkModelStatus (loaded_at model) (last_used model) (memory_mb model)
                            (now - last_used model)) <$> od_get s (_models m).
Proof.
  unfold get_status. cbn [loaded_models].
  apply (od_get_fmap_values
           (λ model, mkModelStatus (loaded_at model) (last_used model) (memory_mb model)
                                   (now - last_used model))).
Qed.

Lemma unload_model_pinned s m :
  is_Some (od_get s (_models m)) → pinned (config m) s →
  unload_model s m = warn m ("Cannot unload 'always' model: " +:+ s).
Proof.
  intros [model Hget] Hpin. unfold unload_model. rewrite Hget.
  by rewrite decide_True.
Qed.

Lemma unload_model_gone s m :
  ¬ pinned (config m) s → od_get s (_models (unload_model s m)) = None.
Proof.
  intros Hpin. unfold unload_model.
  destruct (od_get s (_models m)) as [model|] eqn:Hget; [|done].
  rewrite decide_False by done. apply od_get_del.
Qed.

(** C9. After [load_model(s)] returned a model, the status lists [s] with
    the idle time [now' - now], which is not negative at a later instant
    [now']; after [unload_model(s)] the status does not list [s] unless the
    slot is configured with [keep_loaded = "always"], in which case the call
    logs the warning, changes nothing else and the status still lists [s]. *)
Theorem load_unload_status slot now now' total usage m model m1 :
  NoDup (_models m).*1 →
  load_model slot now usage m = Some (Ok model, m1) →
  now ≤ now' →
  (∃ st, od_get slot (loaded_models (get_status now' total m1)) = Some st
         ∧ st_idle_seconds st = now' - now
         ∧ 0 ≤ st_idle_seconds st)
  ∧ (¬ pinned (config m1) slot →
       od_get slot (loaded_models (get_status now' total (unload_model slot m1))) = None)
  ∧ (pinned (config m1) slot →
       unload_model slot m1 = warn m1 ("Cannot unload 'always' model: " +:+ slot)
       ∧ is_Some (od_get slot
                    (loaded_models (get_status now' total (unload_model slot m1))))).
Proof.
  intros Hnd Hrun Hlater.
  destruct (load_model_registers slot now usage m model m1 Hnd Hrun) as [Hget Hused].
  split; [|split].
  - rewrite get_status_lookup, Hget. cbn. eexists. split; [done|]. cbn.
    rewrite Hused. split; [done | lia].
  - intros Hpin. by rewrite get_status_lookup, unload_model_gone.
  - intros Hpin. rewrite unload_model_pinned by (by rewrite ?Hget).
    split; [done|]. rewrite get_status_lookup. cbn [_models warn].
    by rewrite Hget.
Qed.

(** The delayed task unloads exactly when the slot has been idle for the
    timeout at the instant it looks, and the slot is not pinned. *)
Lemma _delayed_unload_spec slot timeout now m model :
  od_get slot (_models m) = Some model →
  (is_loaded slot (_delayed_unload slot timeout now m) = false
   ↔ timeout ≤ now - last_used model ∧ ¬ pinned (config m) slot).
Proof.
  intros Hget. unfold _delayed_unload. rewrite Hget. cbn zeta.
  destruct (decide (timeout ≤ now - last_used model)) as [Hidle|Hbusy].
  - unfold unload_model. rewrite Hget. destruct (decide (pinned (config m) slot)) as [Hp|Hp].
    + unfold is_loaded. cbn [_models warn]. rewrite Hget.
      split; [|by intros [_ ?]]. intros Hf. apply bool_decide_eq_false in Hf.
      exfalso. apply Hf. by eexists.
    + unfold is_loaded. cbn [_models set_models]. rewrite od_get_del.
      split; [done|]. intros _. apply bool_decide_eq_false. by intros [? ?].
  - unfold is_loaded. rewrite Hget. split; [|by intros [? _]].
    intros Hf. apply bool_decide_eq_false in Hf. exfalso. apply Hf. by eexists.
Qed.

(** A hit of [load_model] leaves the tasks as they are: no task is armed. *)
Lemma load_model_hit_tasks slot now usage m model r m1 :
  od_get slot (_models m) = Some model →
  load_model slot now usage m = Some (r, m1) →
  _unload_tasks m1 = _unload_tasks m ∧ last_used_of m1 slot = now.
Proof.
  intros Hget Hrun. rewrite (load_model_hit _ _ _ _ _ Hget) in Hrun.
  injection Hrun as Hr Hm1. subst r m1. split; [done|].
  unfold last_used_of. cbn [_models set_models].
  rewrite od_get_snoc, od_get_del. by rewrite decide_True.
Qed.

(** *** The dispatcher *)

(** A payload that decodes and does not parse: the parse error response. *)
Lemma _handle_request_parse_error data text e d :
  bytes_decode data = Ok text → json_loads text = inl e →
  _handle_request data d
  = (Ok (error_response (-32700) ("Parse error: " +:+ e) JNull), d).
Proof. intros Hdec Hparse. unfold _handle_request. by rewrite Hdec, Hparse. Qed.

(** A request whose method is a string outside the handler table. *)
Lemma _handle_request_unknown_method data text items method d :
  bytes_decode data = Ok text → json_loads text = inr (JObj items) →
  od_get "method" items = Some (JStr method) →
  method ∉ handler_names →
  _handle_request data d
  = (Ok (error_response (-32601) ("Method not found: " +:+ method)
           (from_option id JNull (od_get "id" items))),
     count_request d).
Proof.
  intros Hdec Hparse Hmethod Hnot. unfold _handle_request.
  rewrite Hdec, Hparse. cbn [py_get]. rewrite Hmethod. cbn [from_option id find_handler].
  unfold _handlers. rewrite decide_False.
  - by rewrite decide_False.
  - intros ->. apply Hnot. unfold handler_names. rewrite !elem_of_cons.
    by do 3 right; left.
Qed.

(** A request whose handler raises: the exception becomes the response. *)
Lemma _handle_request_handler_raises data text items method handler e d d' :
  bytes_decode data = Ok text → json_loads text = inr (JObj items) →
  od_get "method" items = Some (JStr method) →
  _handlers method = Some handler →
  handler (from_option id (JObj []) (od_get "params" items)) (count_request d)
  = (Raise e, d') →
  _handle_request data d
  = (Ok (error_response (-32000) (exn_msg e)
           (from_option id JNull (od_get "id" items))),
     d').
Proof.
  intros Hdec Hparse Hmethod Hhandler Hraise. unfold _handle_request.
  rewrite Hdec, Hparse. cbn [py_get]. rewrite Hmethod. cbn [from_option id find_handler].
  by rewrite Hhandler, Hraise.
Qed.

(** A payload that parses to something other than a dict: the
    [AttributeError] of [request.get] leaves the method. *)
Lemma _handle_request_not_a_dict data text request d :
  bytes_decode data = Ok text → json_loads text = inr request →
  (∀ items, request ≠ JObj items) →
  ∃ e, _handle_request data d = (Raise e, d) ∧ exn_class e = "AttributeError".
Proof.
  intros Hdec Hparse Hnot. unfold _handle_request. rewrite Hdec, Hparse.
  destruct request; try (by eexists). by destruct (Hnot items).
Qed.

(** C8, at the one-byte payload [0xff]: [data.decode()] raises
    [UnicodeDecodeError], which [except json.JSONDecodeError] does not catch;
    the exception leaves [_handle_request] and no response is returned. *)
Theorem _handle_request_undecodable_payload d :
  ∃ e, _handle_request [Byte.xff] d = (Raise e, d)
       ∧ exn_class e = "UnicodeDecodeError".
Proof. by eexists. Qed.

(** C10. A request for [embed] whose params have no [texts], or the empty
    list as [texts], or that has no params at all, gets the error response
    with the code -32000 and the message [Missing 'texts' parameter], with
    the id of the request. *)
Theorem embed_without_texts data text items d :
  bytes_decode data = Ok text →
  json_loads text = inr (JObj items) →
  od_get "method" items = Some (JStr "embed") →
  (od_get "params" items = None
   ∨ ∃ params, od_get "params" items = Some (JObj params)
               ∧ (od_get "texts" params = None
                  ∨ od_get "texts" params = Some (JArr []))) →
  _handle_request data d
  = (Ok (error_response (-32000) "Missing 'texts' parameter"
           (from_option id JNull (od_get "id" items))),
     count_request d).
Proof.
  intros Hdec Hparse Hmethod Hparams.
  apply (_handle_request_handler_raises data text items "embed" _handle_embed
           (Exn "ValueError" "Missing 'texts' parameter")); try done.
  unfold _handle_embed.
  destruct Hparams as [-> | (params & -> & [Htexts | Htexts])];
    cbn [from_option id py_get]; by rewrite ?Htexts.
Qed.

(** *** More of the manager *)

(** [ModelManager.shutdown]: every task is cancelled and the dict of the
    tasks cleared, then every slot is popped, whatever its configuration. *)
Definition shutdown (m : ModelManager) : ModelManager :=
  let slots := (_models m).*1 in
  mkManager (config m)
            (foldl (λ ms slot, match od_get slot ms with
                               | Some _ => od_del slot ms
                               | None => ms
                               end) (_models m) slots)
            ∅ (warnings m).

(** [model.touch()] on the model of [slot]: the handlers call it on the
    object [load_model] returned, which is the one the registry holds. *)
Definition touch_model (slot : string) (now : Z) (m : ModelManager) : ModelManager :=
  set_models m ((λ kv, if decide (kv.1 = slot) then (kv.1, touch now kv.2) else kv)
                  <$> _models m).

(** [self.model_manager.config = new_config] of [_handle_reload_config]. *)
Definition set_config (m : ModelManager) (cfg : FastSearchConfig) : ModelManager :=
  mkManager cfg (_models m) (_unload_tasks m) (warnings m).

(** What the daemon does to its manager, one call at a time. *)
Inductive manager_step : ModelManager → ModelManager → Prop :=
| step_load slot now usage m r m' :
    load_model slot now usage m = Some (r, m') → manager_step m m'
| step_unload slot m : manager_step m (unload_model slot m)
| step_task slot now m : manager_step m (run_unload_task slot now m)
| step_touch slot now m : manager_step m (touch_model slot now m)
| step_reload cfg m : manager_step m (set_config m cfg)
| step_shutdown m : manager_step m (shutdown m).

(** The slots [_load_model_sync] knows how to build. *)
Definition supported (slot : string) : Prop := slot = "embedder" ∨ slot = "reranker".

Lemma od_del_absent {V} key (od : list (string * V)) :
  od_get key od = None → od_del key od = od.
Proof.
  intros Hget%od_get_None. unfold od_del. apply Core.filter_all, Forall_forall.
  intros [k v] Hkv Hk. cbn in Hk. subst k. apply Hget.
  apply list_elem_of_fmap. by exists (key, v).
Qed.

Lemma foldl_od_del {V} (keys : list string) : ∀ od : list (string * V),
  foldl (λ ms slot, match od_get slot ms with
                    | Some _ => od_del slot ms
                    | None => ms
                    end) od keys
  = filter (λ kv, kv.1 ∉ keys) od.
Proof.
  induction keys as [|k keys IH]; intros od.
  - cbn. symmetry. apply filter_not_in_nil.
  - cbn [foldl]. rewrite IH.
    assert (Hdel : match od_get k od with
                   | Some _ => od_del k od
                   | None => od
                   end = od_del k od).
    { destruct (od_get k od) eqn:Hget; [done|]. by rewrite od_del_absent. }
    rewrite Hdel. unfold od_del. rewrite list_filter_filter. apply list_filter_iff.
    intros kv. rewrite not_elem_of_cons. by split; intros [? ?].
Qed.

Lemma shutdown_models m : _models (shutdown m) = [].
Proof.
  unfold shutdown. cbn [_models]. rewrite foldl_od_del.
  apply Core.filter_none, Forall_forall. intros kv Hkv Hnot. apply Hnot.
  apply list_elem_of_fmap. by exists kv.
Qed.

(** X14. [shutdown] leaves no model loaded, the slots configured with
    [keep_loaded = "always"] included, and without the warning [unload_model]
    logs for them; it leaves no task, so that no delayed unload runs after
    it. *)
Theorem shutdown_unloads_all m :
  _models (shutdown m) = []
  ∧ _unload_tasks (shutdown m) = ∅
  ∧ warnings (shutdown m) = warnings m
  ∧ (∀ slot, is_loaded slot (shutdown m) = false)
  ∧ (∀ slot now, run_unload_task slot now (shutdown m) = shutdown m).
Proof.
  split; [apply shutdown_models|]. split; [done|]. split; [done|]. split.
  - intros slot. unfold is_loaded. by rewrite shutdown_models.
  - intros slot now. unfold run_unload_task. cbn [_unload_tasks shutdown].
    by rewrite lookup_empty.
Qed.

Lemma config_evicted j ws m : config (evicted j ws m) = config m.
Proof. done. Qed.

(** A miss of [load_model] whose constructor returns. *)
Lemma load_model_miss_Ok slot now usage m model m1 :
  NoDup (_models m).*1 →
  od_get slot (_models m) = None →
  load_model slot now usage m = Some (Ok model, m1) →
  let m0 := set_tasks m (delete slot (_unload_tasks m)) in
  ∃ (j : nat) ws instance,
    _load_model_sync (config m) slot = Ok instance
    ∧ model = mkLoadedModel slot instance now now (estimate_model_memory slot)
    ∧ m1 = _schedule_unload slot now
             (set_models (evicted j ws m0) (_models (evicted j ws m0) ++ [(slot, model)])).
Proof.
  intros Hnd Hget Hrun m0.
  destruct (load_model_miss slot now usage m Hnd Hget) as (j & ws & _ & _ & _ & _ & Hload).
  rewrite Hload in Hrun. unfold loaded in Hrun. rewrite config_evicted in Hrun.
  change (config (set_tasks m (delete slot (_unload_tasks m)))) with (config m) in Hrun.
  destruct (_load_model_sync (config m) slot) as [inst|e]; [|done].
  injection Hrun as Hmodel Hm1. exists j, ws, inst. by subst.
Qed.

Lemma _load_model_sync_Ok cfg slot instance :
  _load_model_sync cfg slot = Ok instance → supported slot ∧ is_Some (models cfg !! slot).
Proof.
  unfold _load_model_sync, supported. destruct (models cfg !! slot) as [mc|]; [|done].
  destruct (decide (slot = "embedder")); [by split; [left | eexists]|].
  destruct (decide (slot = "reranker")); [by split; [right | eexists]|]. done.
Qed.

(** X15. [load_model] of a slot that is not loaded, when the constructor
    raises or the slot is unknown: the exception leaves the method after the
    pending task of the slot was cancelled and after the eviction ran, so
    the slot is not loaded, has no task, and the slots evicted to make room
    for it stay unloaded. *)
Theorem load_model_failure slot now usage m e :
  NoDup (_models m).*1 →
  od_get slot (_models m) = None →
  _load_model_sync (config m) slot = Raise e →
  let needed := estimate_model_memory slot in
  ∃ (j : nat) m1,
    load_model slot now usage m = Some (Raise e, m1)
    ∧ is_loaded slot m1 = false
    ∧ _unload_tasks m1 = delete slot (_unload_tasks m)
    ∧ (j ≤ length (victims m))%nat
    ∧ (∀ i : nat, (i < j)%nat → over_budget m needed (usage i))
    ∧ (¬ over_budget m needed (usage j) ∨ j = length (victims m))
    ∧ (∀ s, is_loaded s m1 = true ↔ is_loaded s m = true ∧ s ∉ take j (victims m)).
Proof.
  intros Hnd Hget Hraise needed.
  destruct (load_model_miss slot now usage m Hnd Hget)
    as (j & ws & _ & Hj & Hreads & Hexit & Hload).
  unfold loaded in Hload. rewrite config_evicted in Hload.
  change (config (set_tasks m (delete slot (_unload_tasks m)))) with (config m) in Hload.
  rewrite Hraise in Hload.
  exists j, (evicted j ws (set_tasks m (delete slot (_unload_tasks m)))).
  split; [done|].
  assert (Hloaded : ∀ s, is_loaded s (evicted j ws (set_tasks m (delete slot (_unload_tasks m))))
                         = true ↔ is_loaded s m = true ∧ s ∉ take j (victims m)).
  { intros s. unfold is_loaded. rewrite od_get_evicted.
    change (victims (set_tasks m (delete slot (_unload_tasks m)))) with (victims m).
    cbn [_models set_tasks]. rewrite !bool_decide_eq_true.
    destruct (decide (s ∈ take j (victims m))) as [Hin|Hout].
    - split; [by intros [? ?] | by intros [_ ?]].
    - split; [by split | by intros [? _]]. }
  split; [|split; [done|split; [done|split; [done|split; [|done]]]]].
  - apply not_true_is_false. intros [Hl _]%Hloaded.
    unfold is_loaded in Hl. rewrite Hget in Hl.
    apply bool_decide_eq_true in Hl. by destruct Hl.
  - destruct Hexit as [[? _]|(_ & ? & _)]; [by left | by right].
Qed.

(** The task of the slot after a load. *)
Lemma load_model_arms_idle_task_aux slot now usage m model m1 mc :
  NoDup (_models m).*1 →
  od_get slot (_models m) = None →
  load_model slot now usage m = Some (Ok model, m1) →
  models (config m) !! slot = Some mc →
  _unload_tasks m1 !! slot
  = if decide (keep_loaded mc = "on_demand" ∧ 0 < idle_timeout_seconds mc)
    then Some (mkUnloadTask (idle_timeout_seconds mc) (now + idle_timeout_seconds mc) false)
    else None.
Proof.
  intros Hnd Hget Hrun Hmc.
  destruct (load_model_miss_Ok slot now usage m model m1 Hnd Hget Hrun)
    as (j & ws & inst & _ & _ & ->).
  unfold _schedule_unload. cbn [config set_models evicted set_tasks]. rewrite Hmc.
  destruct (decide (keep_loaded mc ≠ "on_demand")) as [Hk|Hk].
  - rewrite decide_False by (by intros [? _]). cbn. apply lookup_delete_eq.
  - apply dec_stable in Hk.
    destruct (decide (idle_timeout_seconds mc ≤ 0)) as [Ht|Ht].
    + rewrite decide_False by (intros [_ ?]; lia). cbn. apply lookup_delete_eq.
    + rewrite decide_True by (split; [done | lia]). cbn. apply lookup_insert_eq.
Qed.

(** X16. After [load_model] loaded a slot, the slot has a delayed unload
    task exactly when it is configured with [keep_loaded = "on_demand"] and a
    positive [idle_timeout_seconds]; the task sleeps for that time. A slot
    configured with ["never"] gets no task, like one configured with
    ["always"]. *)
Theorem load_model_arms_idle_task slot now usage m model m1 mc :
  NoDup (_models m).*1 →
  od_get slot (_models m) = None →
  load_model slot now usage m = Some (Ok model, m1) →
  models (config m) !! slot = Some mc →
  (_unload_tasks m1 !! slot
   = if decide (keep_loaded mc = "on_demand" ∧ 0 < idle_timeout_seconds mc)
     then Some (mkUnloadTask (idle_timeout_seconds mc) (now + idle_timeout_seconds mc)
                             false)
     else None)
  ∧ (keep_loaded mc = "never" → _unload_tasks m1 !! slot = None)
  ∧ ∀ s, s ≠ slot → _unload_tasks m1 !! s = _unload_tasks m !! s.
Proof.
  intros Hnd Hget Hrun Hmc.
  pose proof (load_model_arms_idle_task_aux slot now usage m model m1 mc Hnd Hget Hrun Hmc)
    as Htask.
  split; [done|]. split.
  - intros Hnever. rewrite Htask. apply decide_False. intros [Hk _]. congruence.
  - intros s Hs.
    destruct (load_model_miss_Ok slot now usage m model m1 Hnd Hget Hrun)
      as (j & ws & inst & _ & _ & ->).
    clear Htask.
    unfold _schedule_unload. cbn [config set_models evicted set_tasks]. rewrite Hmc.
    destruct (decide (keep_loaded mc ≠ "on_demand")); [by apply lookup_delete_ne|].
    destruct (decide (idle_timeout_seconds mc ≤ 0)); [by apply lookup_delete_ne|].
    cbn. rewrite lookup_insert_ne by done. by apply lookup_delete_ne.
Qed.

(** X17. The delayed unload does its work when nothing touches the slot:
    after [load_model] loaded a slot configured with
    [keep_loaded = "on_demand"] and a positive timeout, the task of the slot
    does nothing before [now + timeout], and resumed at or after that instant
    it unloads the slot and only this slot. *)
Theorem idle_unload_fires slot now usage m model m1 mc t :
  NoDup (_models m).*1 →
  od_get slot (_models m) = None →
  load_model slot now usage m = Some (Ok model, m1) →
  models (config m) !! slot = Some mc →
  keep_loaded mc = "on_demand" → 0 < idle_timeout_seconds mc →
  is_loaded slot m1 = true
  ∧ (t < now + idle_timeout_seconds mc → run_unload_task slot t m1 = m1)
  ∧ (now + idle_timeout_seconds mc ≤ t →
       is_loaded slot (run_unload_task slot t m1) = false
       ∧ ∀ s, s ≠ slot →
           od_get s (_models (run_unload_task slot t m1)) = od_get s (_models m1)).
Proof.
  intros Hnd Hget Hrun Hmc Hk Ht.
  destruct (load_model_registers slot now usage m model m1 Hnd Hrun) as [Hreg Hused].
  pose proof (load_model_arms_idle_task_aux slot now usage m model m1 mc Hnd Hget Hrun Hmc)
    as Htask.
  rewrite decide_True in Htask by done.
  assert (Hcfg : config m1 = config m).
  { destruct (load_model_miss_Ok slot now usage m model m1 Hnd Hget Hrun)
      as (j & ws & inst & _ & _ & ->).
    by rewrite (proj2 (_schedule_unload_models _ _ _)). }
  split; [|split].
  - unfold is_loaded. rewrite Hreg. by apply bool_decide_eq_true.
  - intros Hearly. unfold run_unload_task. rewrite Htask. cbn [over wake_at].
    by rewrite decide_True.
  - intros Hlate. unfold run_unload_task. rewrite Htask. cbn [over wake_at task_timeout].
    rewrite decide_False by lia.
    unfold is_loaded, set_tasks. cbn [_models].
    unfold _delayed_unload. rewrite Hreg. cbn zeta. rewrite Hused.
    rewrite decide_True by lia.
    assert (Hpin : ¬ pinned (config m1) slot).
    { rewrite Hcfg. intros (mc' & Hmc' & Hk'). congruence. }
    rewrite unload_model_evicts by (by rewrite ?Hreg). cbn [_models set_models]. split.
    + rewrite od_get_del. apply bool_decide_eq_false. by intros [? ?].
    + intros s Hs. by apply od_get_del_ne.
Qed.

(** *** An invariant of the registry *)

(** Every slot of the registry is there once, and it is one of the slots
    [_load_model_sync] can build. *)
Definition registry_ok (m : ModelManager) : Prop :=
  NoDup (_models m).*1 ∧ Forall supported (_models m).*1.

Lemma registry_ok_sublist m m' :
  (_models m').*1 `sublist_of` (_models m).*1 → registry_ok m → registry_ok m'.
Proof.
  intros Hsub [Hnd Hsup]. split; [by eapply sublist_NoDup|].
  rewrite Forall_forall in Hsup |- *. intros x Hx. apply Hsup.
  by eapply elem_of_sublist.
Qed.

Lemma registry_ok_snoc m slot model ms :
  ms.*1 `sublist_of` (_models m).*1 → slot ∉ ms.*1 → supported slot →
  registry_ok m → registry_ok (set_models m (ms ++ [(slot, model)])).
Proof.
  intros Hsub Hnew Hslot [Hnd Hsup]. unfold registry_ok. cbn [_models set_models].
  rewrite fmap_app. cbn. split.
  - apply NoDup_app. split; [by eapply sublist_NoDup|]. split.
    + intros x Hx ->%list_elem_of_singleton. done.
    + apply NoDup_singleton.
  - apply Forall_app. split; [|by apply Forall_singleton].
    rewrite Forall_forall in Hsup |- *. intros x Hx. apply Hsup.
    by eapply elem_of_sublist.
Qed.

Lemma od_del_keys_sublist {V} slot (od : list (string * V)) :
  (od_del slot od).*1 `sublist_of` od.*1.
Proof. apply fmap_sublist, sublist_filter. Qed.

Lemma od_del_keys_absent {V} slot (od : list (string * V)) : slot ∉ (od_del slot od).*1.
Proof. apply od_get_None, od_get_del. Qed.

Lemma unload_model_keys_sublist slot m :
  (_models (unload_model slot m)).*1 `sublist_of` (_models m).*1.
Proof.
  unfold unload_model. destruct (od_get slot (_models m)); [|done].
  destruct (decide _); [done|]. apply od_del_keys_sublist.
Qed.

Lemma run_unload_task_keys_sublist slot now m :
  (_models (run_unload_task slot now m)).*1 `sublist_of` (_models m).*1.
Proof.
  unfold run_unload_task. destruct (_unload_tasks m !! slot) as [task|]; [|done].
  destruct (over task); [done|]. destruct (decide _); [done|].
  cbn [_models set_tasks]. unfold _delayed_unload.
  destruct (od_get slot (_models m)); [|done].
  destruct (decide _); [|done]. apply unload_model_keys_sublist.
Qed.

Lemma evicted_keys_sublist j ws m :
  (_models (evicted j ws m)).*1 `sublist_of` (_models m).*1.
Proof. apply fmap_sublist, sublist_filter. Qed.

Lemma touch_model_keys slot now m : (_models (touch_model slot now m)).*1 = (_models m).*1.
Proof.
  unfold touch_model. cbn [_models set_models]. rewrite <- list_fmap_compose.
  apply list_fmap_ext. intros i kv _. cbn. by destruct (decide (kv.1 = slot)).
Qed.

(** [load_model] returns: the eviction loop ends. *)
Lemma load_model_returns slot now usage m :
  NoDup (_models m).*1 → is_Some (load_model slot now usage m).
Proof.
  intros Hnd. destruct (od_get slot (_models m)) as [model|] eqn:Hget.
  - by rewrite (load_model_hit _ _ _ _ _ Hget).
  - destruct (load_model_miss slot now usage m Hnd Hget) as (j & ws & _ & _ & _ & _ & ->).
    done.
Qed.

Lemma load_model_registry_ok slot now usage m r m' :
  registry_ok m → load_model slot now usage m = Some (r, m') → registry_ok m'.
Proof.
  intros Hok Hrun. pose proof Hok as [Hnd Hsup].
  destruct (od_get slot (_models m)) as [model|] eqn:Hget.
  - rewrite (load_model_hit _ _ _ _ _ Hget) in Hrun.
    injection Hrun as _ <-. apply registry_ok_snoc; try done.
    + apply od_del_keys_sublist.
    + apply od_del_keys_absent.
    + rewrite Forall_forall in Hsup. apply Hsup.
      apply od_get_Some_elem in Hget. apply list_elem_of_fmap. by exists (slot, model).
  - destruct (load_model_miss slot now usage m Hnd Hget) as (j & ws & _ & _ & _ & _ & Hload).
    rewrite Hload in Hrun. unfold loaded in Hrun.
    destruct (_load_model_sync _ slot) as [inst|e] eqn:Hsync.
    + injection Hrun as _ <-.
      apply _load_model_sync_Ok in Hsync as [Hslot _].
      eapply registry_ok_sublist;
        [rewrite (proj1 (_schedule_unload_models _ _ _)); reflexivity|].
      apply (registry_ok_snoc (evicted j ws (set_tasks m (delete slot (_unload_tasks m))))).
      * done.
      * apply od_get_None. rewrite od_get_filter_keys. by destruct (decide _).
      * done.
      * apply (registry_ok_sublist m); [|exact Hok].
        exact (evicted_keys_sublist j ws (set_tasks m (delete slot (_unload_tasks m)))).
    + injection Hrun as _ <-. apply (registry_ok_sublist m); [|exact Hok].
      exact (evicted_keys_sublist j ws (set_tasks m (delete slot (_unload_tasks m)))).
Qed.

Lemma manager_step_registry_ok m m' :
  manager_step m m' → registry_ok m → registry_ok m'.
Proof.
  intros Hstep Hok. destruct Hstep.
  - by eapply load_model_registry_ok.
  - eapply registry_ok_sublist; [|exact Hok]. apply unload_model_keys_sublist.
  - eapply registry_ok_sublist; [|exact Hok]. apply run_unload_task_keys_sublist.
  - eapply registry_ok_sublist; [|exact Hok]. by rewrite touch_model_keys.
  - done.
  - eapply registry_ok_sublist; [|exact Hok]. rewrite shutdown_models. apply sublist_nil_l.
Qed.

(** X18. Whatever calls the daemon makes on its manager, from the manager
    it starts with: no slot is in the registry twice, only the slots
    [embedder] and [reranker] are ever loaded (a slot [summarizer] can be
    configured and has a memory estimate, but it cannot be loaded), and
    [load_model] returns on every call, its eviction loop never running
    on. *)
Theorem manager_invariant cfg m :
  rtc manager_step (new_manager cfg) m →
  NoDup (_models m).*1
  ∧ (∀ slot, is_loaded slot m = true → supported slot)
  ∧ (∀ slot now usage, is_Some (load_model slot now usage m)).
Proof.
  intros Hreach.
  assert (Hok : registry_ok m).
  { revert m Hreach. apply (rtc_ind_r registry_ok).
    - split; [apply NoDup_nil_2 | constructor].
    - intros m1 m2 _ Hstep IH. by eapply manager_step_registry_ok. }
  destruct Hok as [Hnd Hsup]. split; [done|]. split.
  - intros slot Hl. unfold is_loaded in Hl. apply bool_decide_eq_true in Hl as [model Hget].
    rewrite Forall_forall in Hsup. apply Hsup.
    apply od_get_Some_elem in Hget. apply list_elem_of_fmap. by exists (slot, model).
  - intros slot now usage. by apply load_model_returns.
Qed.

(** *** The handlers of the model slots *)

Definition set_manager (d : FastSearchDaemon) (m : ModelManager) : FastSearchDaemon :=
  mkDaemon m (_request_count d) (_shutdown_event d).

Definition unhashable (v : JSON) : exn :=
  Exn "TypeError" ("unhashable type: '" +:+ py_type_name v +:+ "'").

(** [await self.model_manager.unload_model(slot)] for the value [slot] of a
    request: a list or a dict cannot be looked up in the registry, and a
    value that is not a string is the key of no slot. *)
Definition unload_model_key (slot : JSON) (m : ModelManager) : Res unit * ModelManager :=
  match slot with
  | JStr s => (Ok tt, unload_model s m)
  | JArr _ | JObj _ => (Raise (unhashable slot), m)
  | _ => (Ok tt, m)
  end.

(** [FastSearchDaemon._handle_unload_model] *)
Definition _handle_unload_model : Handler := λ params d,
  match py_get params "slot" JNull with
  | Raise e => (Raise e, d)
  | Ok slot =>
      if py_truthy slot then
        match unload_model_key slot (model_manager d) with
        | (Ok _, m) =>
            (Ok (JObj [("slot", slot); ("unloaded", JBool true)]), set_manager d m)
        | (Raise e, m) => (Raise e, set_manager d m)
        end
      else (Raise (Exn "ValueError" "Missing 'slot' parameter"), d)
  end.

(** [FastSearchDaemon._handle_shutdown] *)
Definition _handle_shutdown : Handler := λ params d,
  (Ok (JObj [("shutdown", JBool true)]),
   mkDaemon (model_manager d) (_request_count d) true).

(** A request whose handler returns: the result becomes the response. *)
Lemma _handle_request_handler_returns data text items method handler result d d' :
  bytes_decode data = Ok text → json_loads text = inr (JObj items) →
  od_get "method" items = Some (JStr method) →
  _handlers method = Some handler →
  handler (from_option id (JObj []) (od_get "params" items)) (count_request d)
  = (Ok result, d') →
  _handle_request data d
  = (Ok (result_response result (from_option id JNull (od_get "id" items))), d').
Proof.
  intros Hdec Hparse Hmethod Hhandler Hret. unfold _handle_request.
  rewrite Hdec, Hparse. cbn [py_get]. rewrite Hmethod. cbn [from_option id find_handler].
  by rewrite Hhandler, Hret.
Qed.

(** X19. A request [unload_model] with a non-empty string as [slot] is
    always answered with [{"slot": slot, "unloaded": true}], whatever the
    manager did: for a slot configured with [keep_loaded = "always"] the
    manager only logs its warning and the slot is still loaded after the
    answer; for a slot that is not loaded, or not known, nothing changes. *)
Theorem unload_request_always_unloaded data text items params s d :
  handle "unload_model" = _handle_unload_model →
  bytes_decode data = Ok text → json_loads text = inr (JObj items) →
  od_get "method" items = Some (JStr "unload_model") →
  od_get "params" items = Some (JObj params) →
  od_get "slot" params = Some (JStr s) → s ≠ "" →
  let m := model_manager d in
  _handle_request data d
  = (Ok (result_response (JObj [("slot", JStr s); ("unloaded", JBool true)])
                         (from_option id JNull (od_get "id" items))),
     set_manager (count_request d) (unload_model s m))
  ∧ (is_loaded s m = true → pinned (config m) s →
       is_loaded s (unload_model s m) = true
       ∧ warnings (unload_model s m)
         = warnings m ++ ["Cannot unload 'always' model: " +:+ s])
  ∧ (is_loaded s m = false → unload_model s m = m).
Proof.
  intros Hhandle Hdec Hparse Hmethod Hparams Hslot Hs m. split; [|split].
  - apply (_handle_request_handler_returns data text items "unload_model"
             _handle_unload_model); try done.
    + unfold _handlers. rewrite decide_False by done.
      rewrite decide_True; [by rewrite Hhandle|].
      unfold handler_names. rewrite !elem_of_cons. by do 6 right; left.
    + rewrite Hparams. cbn [from_option id]. unfold _handle_unload_model.
      cbn [py_get]. rewrite Hslot. cbn [from_option id py_truthy].
      by rewrite bool_decide_eq_true_2.
  - intros Hl Hpin. apply bool_decide_eq_true in Hl.
    rewrite unload_model_pinned by done. split; [|done].
    by apply bool_decide_eq_true.
  - intros Hl. apply bool_decide_eq_false in Hl. unfold unload_model.
    destruct (od_get s (_models m)) eqn:Hget; [|done]. exfalso. apply Hl. by eexists.
Qed.

(** [await self.model_manager.load_model(slot)] for the value [slot] of a
    request. A value that is not a string is the key of no slot, no task and
    no configuration: the eviction runs for the default estimate of 500 MB
    and [_load_model_sync] raises. *)
Definition load_model_key (slot : JSON) (now : Z) (usage : nat → Z) (m : ModelManager)
    : option (Res LoadedModel * ModelManager) :=
  match slot with
  | JStr s => load_model s now usage m
  | JArr _ | JObj _ => Some (Raise (unhashable slot), m)
  | _ =>
      m ← evict_loop (length (_models m)) 500 usage (usage O) O m;
      Some (Raise (Exn "ValueError" ("Unknown model slot: " +:+ py_format slot)), m)
  end.

(** [FastSearchDaemon._handle_load_model], at the instant [now] and with the
    memory readings [usage]. ([None] of [load_model] is an eviction loop cut
    short by its fuel, which does not happen: [load_model_returns].) *)
Definition _handle_load_model (now : Z) (usage : nat → Z) : Handler := λ params d,
  match py_get params "slot" JNull with
  | Raise e => (Raise e, d)
  | Ok slot =>
      if py_truthy slot then
        match load_model_key slot now usage (model_manager d) with
        | Some (Ok model, m) =>
            (Ok (JObj [("slot", slot); ("loaded", JBool true);
                       ("memory_mb", JInt (memory_mb model))]),
             set_manager d m)
        | Some (Raise e, m) => (Raise e, set_manager d m)
        | None => (Raise (Exn "RuntimeError" "the eviction loop did not end"), d)
        end
      else (Raise (Exn "ValueError" "Missing 'slot' parameter"), d)
  end.

Lemma _load_model_sync_unsupported cfg slot :
  ¬ supported slot →
  _load_model_sync cfg slot = Raise (Exn "ValueError" ("Unknown model slot: " +:+ slot)).
Proof.
  intros Hs. unfold _load_model_sync. destruct (models cfg !! slot); [|done].
  destruct (decide (slot = "embedder")); [by destruct Hs; left|].
  destruct (decide (slot = "reranker")); [by destruct Hs; right|]. done.
Qed.

(** X20. A request [load_model] for a slot the daemon cannot build (any
    name but [embedder] and [reranker], [summarizer] included) is answered
    with the error -32000 [Unknown model slot], but only after the eviction
    ran for it: when every memory reading is over the budget for the
    estimate of that slot, every loaded model that is not pinned has been
    unloaded by the time the error is sent. *)
Theorem load_request_unsupported_slot data text items params s now usage d :
  handle "load_model" = _handle_load_model now usage →
  bytes_decode data = Ok text → json_loads text = inr (JObj items) →
  od_get "method" items = Some (JStr "load_model") →
  od_get "params" items = Some (JObj params) →
  od_get "slot" params = Some (JStr s) → s ≠ "" →
  ¬ supported s →
  let m := model_manager d in
  NoDup (_models m).*1 → od_get s (_models m) = None →
  (∀ i, over_budget m (estimate_model_memory s) (usage i)) →
  ∃ d',
    _handle_request data d
    = (Ok (error_response (-32000) ("Unknown model slot: " +:+ s)
                          (from_option id JNull (od_get "id" items))), d')
    ∧ ∀ s', is_loaded s' (model_manager d') = true
            ↔ is_loaded s' m = true ∧ ¬ evictable (config m) s'.
Proof.
  intros Hhandle Hdec Hparse Hmethod Hparams Hslot Hs Hunsup m Hnd Hget Hover.
  destruct (load_model_miss s now usage m Hnd Hget)
    as (j & ws & _ & Hj & _ & Hexit & Hload).
  assert (Hall : j = length (victims m)).
  { destruct Hexit as [[Hfit _]|(_ & ? & _)]; [|done]. by destruct Hfit. }
  unfold loaded in Hload. rewrite config_evicted in Hload.
  rewrite _load_model_sync_unsupported in Hload by done.
  eexists. split.
  - apply (_handle_request_handler_raises data text items "load_model"
             (_handle_load_model now usage)
             (Exn "ValueError" ("Unknown model slot: " +:+ s))); try done.
    + unfold _handlers. rewrite decide_False by done.
      rewrite decide_True; [by rewrite Hhandle|].
      unfold handler_names. rewrite !elem_of_cons. by do 5 right; left.
    + rewrite Hparams. cbn [from_option id]. unfold _handle_load_model.
      cbn [py_get]. rewrite Hslot. cbn [from_option id py_truthy].
      rewrite bool_decide_eq_true_2 by done. cbn [load_model_key model_manager count_request].
      fold m. rewrite Hload. reflexivity.
  - intros s'. cbn [model_manager set_manager]. unfold is_loaded.
    rewrite od_get_evicted. cbn [_models set_tasks].
    change (victims (set_tasks m (delete s (_unload_tasks m)))) with (victims m).
    rewrite Hall, firstn_all, !bool_decide_eq_true.
    destruct (decide (s' ∈ victims m)) as [Hin|Hout].
    + split; [by intros [? ?]|]. intros [_ Hne]. destruct Hne.
      unfold victims in Hin. by apply list_elem_of_filter in Hin as [? _].
    + split; [|by intros [? _]]. intros [model Hm]. split; [by exists model|].
      intros Hev. apply Hout. unfold victims. apply list_elem_of_filter. split; [done|].
      apply od_get_Some_elem in Hm. apply list_elem_of_fmap. by exists (s', model).
Qed.

(** *** Loading the configuration (config.py) *)

(** An entry of [models] in the configuration file: the keys it holds, with
    values of the types [ModelConfig] declares. *)
Record ModelData := mkModelData {
  md_name : option string;
  md_keep_loaded : option string;
  md_idle_timeout_seconds : option Z;
}.

(** [ModelConfig(name=model_data.get("name", ""), ...)] of [from_dict] *)
Definition model_from_dict (model_data : ModelData) : ModelConfig :=
  mkModelConfig (default "" (md_name model_data))
                (default "on_demand" (md_keep_loaded model_data))
                (default 300 (md_idle_timeout_seconds model_data)).

(** [FastSearchConfig.from_dict], for the parts the manager reads: the
    entries of [models] and [memory.max_ram_mb], if the file has it. *)
Definition from_dict (models_data : gmap string ModelData) (max_ram_mb_data : option Z)
    : FastSearchConfig :=
  mkConfig (model_from_dict <$> models_data) (default 4000 max_ram_mb_data).

(** [FastSearchConfig.from_yaml] on the parsed content of a file that
    exists: the defaults, with [config.models.update(loaded.models)] and
    [config.memory = loaded.memory]. *)
Definition from_yaml (models_data : gmap string ModelData) (max_ram_mb_data : option Z)
    : FastSearchConfig :=
  let config := default_config in
  let loaded := from_dict models_data max_ram_mb_data in
  mkConfig (if decide (models loaded = ∅) then models config
            else models loaded ∪ models config)
           (max_ram_mb loaded).

(** X21. The slots of a configuration file are merged into the default
    ones slot by slot, not key by key: a slot the file does not name keeps
    its default configuration, and a slot the file names takes, for every key
    the file leaves out, the default of [from_dict] ([""], ["on_demand"],
    300) and not the value of the default configuration. An entry for
    [embedder] without [keep_loaded] thus makes the embedder an on-demand
    slot that is unloaded after 300 idle seconds and may be evicted. *)
Theorem from_yaml_merges_by_slot models_data max_ram_mb_data :
  let config := from_yaml models_data max_ram_mb_data in
  (∀ slot, models_data !! slot = None →
           models config !! slot = models default_config !! slot)
  ∧ (∀ slot model_data, models_data !! slot = Some model_data →
       models config !! slot = Some (model_from_dict model_data))
  ∧ (∀ model_data, models_data !! "embedder" = Some model_data →
       md_keep_loaded model_data = None →
       ¬ pinned config "embedder" ∧ evictable config "embedder"
       ∧ ∃ mc, models config !! "embedder" = Some mc
               ∧ keep_loaded mc = "on_demand"
               ∧ idle_timeout_seconds mc
                 = default 300 (md_idle_timeout_seconds model_data))
  ∧ max_ram_mb config = default 4000 max_ram_mb_data.
Proof.
  cbn zeta.
  assert (Hsome : ∀ slot model_data, models_data !! slot = Some model_data →
            models (from_yaml models_data max_ram_mb_data) !! slot
            = Some (model_from_dict model_data)).
  { intros slot model_data Hslot. unfold from_yaml. cbn [models from_dict].
    assert (Hl : (model_from_dict <$> models_data) !! slot
                 = Some (model_from_dict model_data)) by (by rewrite lookup_fmap, Hslot).
    destruct (decide _) as [Hempty|_].
    - rewrite Hempty in Hl. by rewrite lookup_empty in Hl.
    - by apply lookup_union_Some_l. }
  split; [|split; [done|split; [|done]]].
  - intros slot Hslot. unfold from_yaml. cbn [models from_dict].
    destruct (decide _); [done|].
    apply lookup_union_r. by rewrite lookup_fmap, Hslot.
  - intros model_data Hslot Hkeep. specialize (Hsome _ _ Hslot).
    assert (Hk : keep_loaded (model_from_dict model_data) = "on_demand").
    { unfold model_from_dict. cbn. by rewrite Hkeep. }
    split; [|split].
    + intros (mc & Hmc & Halways). rewrite Hsome in Hmc. injection Hmc as <-.
      rewrite Hk in Halways. done.
    + exists (model_from_dict model_data). split; [done|]. by rewrite Hk.
    + exists (model_from_dict model_data). by repeat split.
Qed.

(** *** Frames and connections *)

(** [int.from_bytes(bs, "big")] *)
Definition from_bytes_big (bs : list Byte.byte) : Z :=
  foldl (λ acc b, acc * 256 + Z.of_N (Byte.to_N b)) 0 bs.

(** The byte of value [n mod 256]. *)
Definition byte_of_Z (n : Z) : Byte.byte :=
  default Byte.x00 (Byte.of_N (Z.to_N (n `mod` 256))).

(** [n.to_bytes(4, "big")] *)
Definition to_bytes_4_big (n : Z) : Res (list Byte.byte) :=
  if decide (n < 0)
  then Raise (Exn "OverflowError" "can't convert negative int to unsigned")
  else if decide (2 ^ 32 ≤ n) then Raise (Exn "OverflowError" "int too big to convert")
  else Ok [byte_of_Z (n `div` 2 ^ 24); byte_of_Z (n `div` 2 ^ 16);
           byte_of_Z (n `div` 2 ^ 8); byte_of_Z n].

(** A message on the wire, as the client sends a request
    ([sendall(len(data).to_bytes(4, "big"))], [sendall(data)]) and the daemon
    a response ([writer.write] of the same two). *)
Definition frame (data : list Byte.byte) : Res (list Byte.byte) :=
  length_bytes ← to_bytes_4_big (Z.of_nat (length data));
  Ok (length_bytes ++ data).

(** The limit of [_handle_client] on the announced length: 10 MB. *)
Definition MAX_MESSAGE : Z := 10 * 1024 * 1024.

(** [json.dumps(response).encode()] *)
Context (json_dumps : JSON → list Byte.byte).

(** How [_handle_client] leaves its loop: [readexactly] met the end of the
    stream, the announced length is over the limit, or an exception reached
    [except Exception]. The writer is closed in all three cases. *)
Inductive Closed :=
| IncompleteRead
| TooLarge (n : Z)
| Failed (e : exn).

(** The loop of [FastSearchDaemon._handle_client], run to its end, on the
    bytes the client sends before it closes the connection; [written] is
    what was written to the client so far. Every turn reads at least four
    bytes, so [fuel] turns are enough when [fuel] exceeds the length of
    [reader]. *)
Fixpoint _handle_client_loop (fuel : nat) (reader : list Byte.byte)
    (d : FastSearchDaemon) (written : list Byte.byte)
    : option (Closed * list Byte.byte * FastSearchDaemon) :=
  match fuel with
  | O => None
  | S fuel' =>
      if decide (length reader < 4)%nat then Some (IncompleteRead, written, d)
      else
        let length_bytes := take 4 reader in
        let reader := drop 4 reader in
        let len := from_bytes_big length_bytes in
        if decide (len > MAX_MESSAGE) then Some (TooLarge len, written, d)
        else if decide (length reader < Z.to_nat len)%nat
        then Some (IncompleteRead, written, d)
        else
          let data := take (Z.to_nat len) reader in
          let reader := drop (Z.to_nat len) reader in
          match _handle_request data d with
          | (Raise e, d) => Some (Failed e, written, d)
          | (Ok response, d) =>
              let response := json_dumps response in
              match to_bytes_4_big (Z.of_nat (length response)) with
              | Raise e => Some (Failed e, written, d)
              | Ok length_bytes =>
                  _handle_client_loop fuel' reader d (written ++ length_bytes ++ response)
              end
          end
  end.

(** [FastSearchDaemon._handle_client] *)
Definition _handle_client (reader : list Byte.byte) (d : FastSearchDaemon)
    : option (Closed * list Byte.byte * FastSearchDaemon) :=
  _handle_client_loop (S (length reader)) reader d [].

(** The answers of the dispatcher to the payloads of a connection, one after
    the other, as they go on the wire; [None] when an exception leaves the
    dispatcher, when a response cannot be framed, or when a request sets the
    shutdown event: [start] then stops the daemon and the event loop, and the
    connection is not served to its end. *)
Fixpoint answers (payloads : list (list Byte.byte)) (d : FastSearchDaemon)
    : option (list Byte.byte * FastSearchDaemon) :=
  match payloads with
  | [] => Some ([], d)
  | data :: rest =>
      match _handle_request data d with
      | (Ok response, d) =>
          if _shutdown_event d then None
          else
            match frame (json_dumps response) with
            | Ok out =>
                match answers rest d with
                | Some (outs, d) => Some (out ++ outs, d)
                | None => None
                end
            | Raise _ => None
            end
      | (Raise _, _) => None
      end
  end.

Lemma byte_of_Z_value n : Z.of_N (Byte.to_N (byte_of_Z n)) = n `mod` 256.
Proof.
  unfold byte_of_Z. pose proof (Z.mod_pos_bound n 256 ltac:(lia)) as Hb.
  destruct (Byte.of_N (Z.to_N (n `mod` 256))) as [b|] eqn:Hof.
  - apply Byte.to_of_N in Hof. cbn. rewrite Hof. lia.
  - apply Byte.of_N_None_iff in Hof. lia.
Qed.

(** The four bytes of the length give the length back. *)
Lemma from_bytes_to_bytes n length_bytes :
  to_bytes_4_big n = Ok length_bytes →
  from_bytes_big length_bytes = n ∧ length length_bytes = 4%nat ∧ 0 ≤ n < 2 ^ 32.
Proof.
  unfold to_bytes_4_big. destruct (decide (n < 0)); [done|].
  destruct (decide (2 ^ 32 ≤ n)); [done|]. intros [= <-].
  split; [|split; [done | lia]].
  unfold from_bytes_big. cbn [foldl]. rewrite !byte_of_Z_value.
  change (2 ^ 24) with 16777216. change (2 ^ 16) with 65536. change (2 ^ 8) with 256.
  change (2 ^ 32) with 4294967296 in *.
  Z.div_mod_to_equations. lia.
Qed.

Lemma frame_Ok data out :
  frame data = Ok out →
  ∃ length_bytes,
    out = length_bytes ++ data ∧ length length_bytes = 4%nat
    ∧ from_bytes_big length_bytes = Z.of_nat (length data).
Proof.
  unfold frame, mbind, Res_bind, res_bind.
  destruct (to_bytes_4_big _) as [length_bytes|] eqn:Hlen; [|done].
  intros [= <-]. apply from_bytes_to_bytes in Hlen as (? & ? & _). by exists length_bytes.
Qed.

(** One turn of the loop on a framed message. *)
Lemma _handle_client_loop_frame fuel data out rest d written :
  frame data = Ok out → Z.of_nat (length data) ≤ MAX_MESSAGE →
  _handle_client_loop (S fuel) (out ++ rest) d written
  = match _handle_request data d with
    | (Raise e, d) => Some (Failed e, written, d)
    | (Ok response, d) =>
        match to_bytes_4_big (Z.of_nat (length (json_dumps response))) with
        | Raise e => Some (Failed e, written, d)
        | Ok length_bytes =>
            _handle_client_loop fuel rest d
              (written ++ length_bytes ++ json_dumps response)
        end
    end.
Proof.
  intros (length_bytes & -> & Hfour & Hlen)%frame_Ok Hsmall.
  cbn [_handle_client_loop]. rewrite <- !app_assoc.
  rewrite decide_False by (rewrite length_app; lia).
  rewrite take_app_length' by done. rewrite drop_app_length' by done.
  rewrite Hlen, Nat2Z.id.
  rewrite decide_False by lia.
  rewrite decide_False by (rewrite length_app; lia).
  by rewrite take_app_length, drop_app_length.
Qed.

(** The loop on the framed payloads of a connection that are all answered. *)
Lemma _handle_client_loop_frames payloads : ∀ frames d written out d' fuel rest,
  Forall (λ data, Z.of_nat (length data) ≤ MAX_MESSAGE) payloads →
  mapM_res frame payloads = Ok frames →
  answers payloads d = Some (out, d') →
  _handle_client_loop (length payloads + fuel) (concat frames ++ rest) d written
  = _handle_client_loop fuel rest d' (written ++ out).
Proof.
  induction payloads as [|data payloads IH];
    intros frames d written out d' fuel rest Hsmall Hframes Hanswers.
  - cbn in Hframes, Hanswers. injection Hframes as <-. injection Hanswers as <- <-.
    cbn. by rewrite app_nil_r.
  - apply list.Forall_cons in Hsmall as [Hdata Hsmall].
    cbn in Hframes. unfold mbind, Res_bind, res_bind in Hframes.
    destruct (frame data) as [f|] eqn:Hf; [|done].
    destruct (mapM_res frame payloads) as [fs|] eqn:Hfs; [|done].
    injection Hframes as <-. cbn [concat length Nat.add]. rewrite <- app_assoc.
    rewrite (_handle_client_loop_frame _ data f) by done.
    cbn [answers] in Hanswers.
    destruct (_handle_request data d) as [[response|e] d1]; [|done].
    destruct (_shutdown_event d1); [done|].
    unfold frame, mbind, Res_bind, res_bind in Hanswers.
    destruct (to_bytes_4_big _) as [length_bytes|]; [|done].
    destruct (answers payloads d1) as [[outs d2]|] eqn:Hrest; [|done].
    injection Hanswers as <- <-.
    rewrite (IH fs d1 _ outs d2 fuel rest Hsmall eq_refl Hrest).
    by rewrite <- !app_assoc.
Qed.

Lemma frames_length payloads : ∀ frames,
  mapM_res frame payloads = Ok frames →
  (4 * length payloads ≤ length (concat frames))%nat.
Proof.
  induction payloads as [|data payloads IH]; intros frames Hframes.
  - cbn in Hframes. injection Hframes as <-. cbn. lia.
  - cbn in Hframes. unfold mbind, Res_bind, res_bind in Hframes.
    destruct (frame data) as [f|] eqn:Hf; [|done].
    destruct (mapM_res frame payloads) as [fs|] eqn:Hfs; [|done].
    injection Hframes as <-. specialize (IH fs eq_refl).
    apply frame_Ok in Hf as (length_bytes & -> & Hfour & _).
    cbn [concat length]. rewrite !length_app. lia.
Qed.

(** [_handle_client] on framed payloads that are all answered, followed by
    [rest]: the loop reaches [rest] with fuel left. *)
Lemma _handle_client_frames payloads frames d out d' rest :
  Forall (λ data, Z.of_nat (length data) ≤ MAX_MESSAGE) payloads →
  mapM_res frame payloads = Ok frames →
  answers payloads d = Some (out, d') →
  ∃ fuel, _handle_client (concat frames ++ rest) d
          = _handle_client_loop (S fuel) rest d' out.
Proof.
  intros Hsmall Hframes Hanswers. unfold _handle_client.
  pose proof (frames_length payloads frames Hframes) as Hlen.
  exists (length (concat frames ++ rest) - length payloads)%nat.
  replace (S (length (concat frames ++ rest)))
    with (length payloads + S (length (concat frames ++ rest) - length payloads))%nat
    by (rewrite length_app in *; lia).
  by rewrite (_handle_client_loop_frames payloads frames d [] out d').
Qed.

(** X22. A connection on which the client sends framed requests of at most
    10 MB each, all of which the dispatcher answers and none of which sets
    the shutdown event, and then closes (or stops inside the next length
    prefix): [_handle_client] returns, and it has written exactly the framed
    responses, one per request and in the order of the requests; the
    requests changed the daemon one after the other. *)
Theorem _handle_client_answers_in_order payloads frames d out d' rest :
  Forall (λ data, Z.of_nat (length data) ≤ MAX_MESSAGE) payloads →
  mapM_res frame payloads = Ok frames →
  answers payloads d = Some (out, d') →
  (length rest < 4)%nat →
  _handle_client (concat frames ++ rest) d = Some (IncompleteRead, out, d').
Proof.
  intros Hsmall Hframes Hanswers Hrest.
  destruct (_handle_client_frames payloads frames d out d' rest Hsmall Hframes Hanswers)
    as [fuel ->].
  cbn [_handle_client_loop]. by rewrite decide_True.
Qed.

(** X23. How [_handle_client] drops a connection, after the requests it
    answered: at a length prefix that announces more than 10 MB it closes
    without reading on and without a response; at a request on which an
    exception leaves the dispatcher it closes without a response to that
    request; at a payload shorter than announced it closes as for a client
    that disconnected. In all three cases the bytes that follow are never
    served. *)
Theorem _handle_client_drops payloads frames d out d' :
  Forall (λ data, Z.of_nat (length data) ≤ MAX_MESSAGE) payloads →
  mapM_res frame payloads = Ok frames →
  answers payloads d = Some (out, d') →
  (∀ length_bytes rest,
     length length_bytes = 4%nat → from_bytes_big length_bytes > MAX_MESSAGE →
     _handle_client (concat frames ++ length_bytes ++ rest) d
     = Some (TooLarge (from_bytes_big length_bytes), out, d'))
  ∧ (∀ data f rest e d'',
       frame data = Ok f → Z.of_nat (length data) ≤ MAX_MESSAGE →
       _handle_request data d' = (Raise e, d'') →
       _handle_client (concat frames ++ f ++ rest) d = Some (Failed e, out, d''))
  ∧ (∀ data f (n : nat),
       frame data = Ok f → Z.of_nat (length data) ≤ MAX_MESSAGE →
       (4 ≤ n < length f)%nat →
       _handle_client (concat frames ++ take n f) d = Some (IncompleteRead, out, d')).
Proof.
  intros Hsmall Hframes Hanswers. split; [|split].
  - intros length_bytes rest Hfour Hbig.
    destruct (_handle_client_frames payloads frames d out d' (length_bytes ++ rest)
                Hsmall Hframes Hanswers) as [fuel ->].
    cbn [_handle_client_loop].
    rewrite decide_False by (rewrite length_app; lia).
    rewrite take_app_length' by done. by rewrite decide_True.
  - intros data f rest e d'' Hf Hdata Hraise.
    destruct (_handle_client_frames payloads frames d out d' (f ++ rest)
                Hsmall Hframes Hanswers) as [fuel ->].
    by rewrite (_handle_client_loop_frame _ data f), Hraise.
  - intros data f n Hf Hdata Hn.
    destruct (_handle_client_frames payloads frames d out d' (take n f)
                Hsmall Hframes Hanswers) as [fuel ->].
    apply frame_Ok in Hf as (length_bytes & -> & Hfour & Hlen).
    rewrite length_app in Hn.
    cbn [_handle_client_loop].
    rewrite decide_False by (rewrite length_take, length_app; lia).
    rewrite take_take, Nat.min_l by lia.
    rewrite take_app_length' by done. rewrite Hlen, Nat2Z.id.
    rewrite decide_False by lia.
    rewrite decide_True; [done|].
    rewrite length_drop, length_take, length_app. lia.
Qed.

End Service.

(** *** Instances *)

(** Constructors that succeed, and memory readings. *)
Definition build : string → string → Res string := λ _ model_name, Ok model_name.
Definition steady (mb : Z) : nat → Z := λ _, mb.
Definition falling (first then_ : Z) : nat → Z :=
  λ n, match n with O => first | S _ => then_ end.

(** A budget of 100 MB with both slots on demand. *)
Definition small_config : FastSearchConfig :=
  mkConfig
    (<["embedder" := mkModelConfig "BAAI/bge-base-en-v1.5" "on_demand" 0]>
     (<["reranker" := mkModelConfig "cross-encoder/ms-marco-MiniLM-L-6-v2" "on_demand" 300]>
      ∅))
    100.

(** The manager of [small_config] after [load_model("embedder")] at the
    instant 0. *)
Definition embedder_loaded : ModelManager :=
  match load_model build "embedder" 0 (steady 50) (new_manager small_config) with
  | Some (_, m) => m
  | None => new_manager small_config
  end.

Lemma embedder_loaded_NoDup : NoDup (_models embedder_loaded).*1.
Proof. apply (bool_decide_unpack _). by vm_compute. Qed.

(** C6 on [embedder_loaded]: loading the reranker with a first reading of
    500 MB unloads the embedder and then loads the reranker, although the
    second reading of 50 MB plus the estimate of 90 MB is still over the
    budget of 100 MB. *)
Lemma eviction_policy_witness :
  ∃ (j : nat) ws,
    let m0 := set_tasks embedder_loaded (delete "reranker" (_unload_tasks embedder_loaded)) in
    (j ≤ length (victims embedder_loaded))%nat
    ∧ (∀ i : nat, (i < j)%nat → over_budget embedder_loaded 90 (falling 500 50 i))
    ∧ _ensure_memory_budget "reranker" (falling 500 50) m0 = Some (evicted j ws m0)
    ∧ load_model build "reranker" 10 (falling 500 50) embedder_loaded
      = Some (loaded build "reranker" 10 (evicted j ws m0)).
Proof.
  destruct (eviction_policy build "reranker" 10 (falling 500 50) embedder_loaded
              embedder_loaded_NoDup) as (_ & Hmiss & _).
  destruct (Hmiss eq_refl) as (j & ws & Hj & Hreads & _ & Hrun & _ & _ & Hload).
  by exists j, ws.
Defined.

(** The default configuration: the reranker on demand with a timeout of
    300, loaded at the instant 0. *)
Definition reranker_run : option (Res LoadedModel * ModelManager) :=
  load_model build "reranker" 0 (steady 100) (new_manager default_config).

Definition reranker_model : LoadedModel :=
  match reranker_run with
  | Some (Ok model, _) => model
  | _ => mkLoadedModel "" "" 0 0 0
  end.

Definition reranker_loaded : ModelManager :=
  match reranker_run with
  | Some (_, m) => m
  | None => new_manager default_config
  end.

Lemma reranker_run_eq :
  load_model build "reranker" 0 (steady 100) (new_manager default_config)
  = Some (Ok reranker_model, reranker_loaded).
Proof. by vm_compute. Qed.

Lemma load_unload_status_witness :
  (∃ st, od_get "reranker" (loaded_models (get_status 5 600 reranker_loaded)) = Some st
         ∧ st_idle_seconds st = 5 - 0
         ∧ 0 ≤ st_idle_seconds st)
  ∧ (¬ pinned (config reranker_loaded) "reranker" →
       od_get "reranker"
         (loaded_models (get_status 5 600 (unload_model "reranker" reranker_loaded)))
       = None)
  ∧ (pinned (config reranker_loaded) "reranker" →
       unload_model "reranker" reranker_loaded
       = warn reranker_loaded ("Cannot unload 'always' model: " +:+ "reranker")
       ∧ is_Some (od_get "reranker"
                    (loaded_models
                       (get_status 5 600 (unload_model "reranker" reranker_loaded))))).
Proof.
  apply (load_unload_status build "reranker" 0 5 600 (steady 100)
           (new_manager default_config) reranker_model reranker_loaded).
  - constructor.
  - exact reranker_run_eq.
  - lia.
Defined.

(** C7, with the default configuration. The reranker is loaded at the
    instant 0 and its task sleeps until 300; the slot is used again at 200
    (a hit of [load_model], which arms no task); the task wakes at 300, finds
    the slot idle for 100 only and ends. From then on no task is left: the
    slot stays loaded however long it is idle, also at the instant 500 and
    later, 300 and more after its last use. *)
Theorem idle_unload_not_rearmed :
  ∃ model1 m1 model2 m2,
    load_model build "reranker" 0 (steady 100) (new_manager default_config)
    = Some (Ok model1, m1)
    ∧ pending_tasks m1 = ["reranker"]
    ∧ load_model build "reranker" 200 (steady 100) m1 = Some (Ok model2, m2)
    ∧ last_used model2 = 200
    ∧ is_loaded "reranker" (run_unload_task "reranker" 300 m2) = true
    ∧ pending_tasks (run_unload_task "reranker" 300 m2) = []
    ∧ ∀ now, run_unload_task "reranker" now (run_unload_task "reranker" 300 m2)
             = run_unload_task "reranker" 300 m2.
Proof.
  eexists _, _, _, _.
  split; [vm_compute; reflexivity|]. split; [by vm_compute|].
  split; [vm_compute; reflexivity|]. split; [done|].
  split; [by vm_compute|]. split; [by vm_compute|].
  intros now. set (m3 := run_unload_task "reranker" 300 _).
  unfold run_unload_task at 1.
  replace (_unload_tasks m3 !! "reranker") with (Some (mkUnloadTask 300 300 true))
    by (by vm_compute).
  done.
Qed.

(** A request for [embed] with the empty list of texts. *)
Definition dq : string := String (Ascii.ascii_of_nat 34) "".
Definition quoted (s : string) : string := dq +:+ s +:+ dq.

Definition embed_request_text : string :=
  "{" +:+ quoted "jsonrpc" +:+ ": " +:+ quoted "2.0" +:+ ", "
  +:+ quoted "method" +:+ ": " +:+ quoted "embed" +:+ ", "
  +:+ quoted "params" +:+ ": {" +:+ quoted "texts" +:+ ": []}, "
  +:+ quoted "id" +:+ ": 7}".

Definition embed_request_items : list (string * JSON) :=
  [("jsonrpc", JStr "2.0"); ("method", JStr "embed");
   ("params", JObj [("texts", JArr [])]); ("id", JInt 7)].

(** A parser that knows this request. *)
Definition parse_embed_request (text : string) : string + JSON :=
  if decide (text = embed_request_text) then inr (JObj embed_request_items)
  else inl "Expecting value: line 1 column 1 (char 0)".

Definition no_handler : string → Handler := λ _ _ d, (Ok JNull, d).
Definition count_texts : JSON → FastSearchDaemon → Res JSON * FastSearchDaemon :=
  λ texts d,
    (Ok (JObj [("count", match texts with
                         | JArr xs => JInt (Z.of_nat (length xs))
                         | _ => JInt 0
                         end)]), d).

Definition new_daemon : FastSearchDaemon :=
  mkDaemon (new_manager default_config) 0 false.

Lemma embed_without_texts_witness :
  _handle_request parse_embed_request (λ _, "") no_handler count_texts
    (String.list_byte_of_string embed_request_text) new_daemon
  = (Ok (error_response (-32000) "Missing 'texts' parameter"
           (from_option id JNull (od_get "id" embed_request_items))),
     count_request new_daemon).
Proof.
  apply (embed_without_texts parse_embed_request (λ _, "") no_handler count_texts
           (String.list_byte_of_string embed_request_text) embed_request_text
           embed_request_items new_daemon).
  - by vm_compute.
  - done.
  - done.
  - right. exists [("texts", JArr [])]. split; [done | by right].
Defined.

Lemma reranker_loaded_NoDup : NoDup (_models reranker_loaded).*1.
Proof. apply (bool_decide_unpack _). by vm_compute. Qed.

Definition reranker_config : ModelConfig :=
  mkModelConfig "cross-encoder/ms-marco-MiniLM-L-6-v2" "on_demand" 300.

(** X15 with the default configuration and the reranker loaded: a load of
    [summarizer], whose estimate of 4000 MB is over the budget at any
    reading, fails. *)
Lemma load_model_failure_witness :
  ∃ (j : nat) m1,
    load_model build "summarizer" 10 (steady 100) reranker_loaded
    = Some (Raise (Exn "ValueError" "Unknown model slot: summarizer"), m1)
    ∧ is_loaded "summarizer" m1 = false
    ∧ (∀ s, is_loaded s m1 = true
            ↔ is_loaded s reranker_loaded = true ∧ s ∉ take j (victims reranker_loaded)).
Proof.
  destruct (load_model_failure build "summarizer" 10 (steady 100) reranker_loaded
              (Exn "ValueError" "Unknown model slot: summarizer")
              reranker_loaded_NoDup eq_refl eq_refl)
    as (j & m1 & Hrun & Hslot & _ & _ & _ & _ & Hloaded).
  by exists j, m1.
Defined.

(** X16 on the reranker of the default configuration, loaded at 0. *)
Lemma load_model_arms_idle_task_witness :
  _unload_tasks reranker_loaded !! "reranker" = Some (mkUnloadTask 300 300 false).
Proof.
  destruct (load_model_arms_idle_task build "reranker" 0 (steady 100)
              (new_manager default_config) reranker_model reranker_loaded
              reranker_config (NoDup_nil_2) eq_refl reranker_run_eq eq_refl)
    as [Htask _].
  rewrite Htask. by rewrite decide_True.
Defined.

(** X17 on the same load: the task resumed at 300 unloads the reranker. *)
Lemma idle_unload_fires_witness :
  is_loaded "reranker" reranker_loaded = true
  ∧ run_unload_task "reranker" 299 reranker_loaded = reranker_loaded
  ∧ is_loaded "reranker" (run_unload_task "reranker" 300 reranker_loaded) = false.
Proof.
  pose proof (idle_unload_fires build "reranker" 0 (steady 100)
                (new_manager default_config) reranker_model reranker_loaded
                reranker_config 299 NoDup_nil_2 eq_refl reranker_run_eq eq_refl
                eq_refl ltac:(done)) as (Hl & Hearly & _).
  pose proof (idle_unload_fires build "reranker" 0 (steady 100)
                (new_manager default_config) reranker_model reranker_loaded
                reranker_config 300 NoDup_nil_2 eq_refl reranker_run_eq eq_refl
                eq_refl ltac:(done)) as (_ & _ & Hlate).
  split; [done|]. split; [apply Hearly; done|]. apply Hlate. done.
Defined.

(** X18 on the manager that loaded the reranker. *)
Lemma manager_invariant_witness :
  NoDup (_models reranker_loaded).*1
  ∧ (∀ slot, is_loaded slot reranker_loaded = true → supported slot)
  ∧ (∀ slot now usage, is_Some (load_model build slot now usage reranker_loaded)).
Proof.
  apply (manager_invariant build default_config reranker_loaded).
  apply rtc_once. exact (step_load build _ _ _ _ _ _ reranker_run_eq).
Defined.

(** The default configuration with the embedder loaded at the instant 0. *)
Definition embedder_pinned : ModelManager :=
  match load_model build "embedder" 0 (steady 100) (new_manager default_config) with
  | Some (_, m) => m
  | None => new_manager default_config
  end.

(** Requests for [unload_model] and [load_model] of a slot. *)
Definition slot_request_text (method slot : string) : string :=
  "{" +:+ quoted "jsonrpc" +:+ ": " +:+ quoted "2.0" +:+ ", "
  +:+ quoted "method" +:+ ": " +:+ quoted method +:+ ", "
  +:+ quoted "params" +:+ ": {" +:+ quoted "slot" +:+ ": " +:+ quoted slot +:+ "}, "
  +:+ quoted "id" +:+ ": 1}".

Definition slot_request_items (method slot : string) : list (string * JSON) :=
  [("jsonrpc", JStr "2.0"); ("method", JStr method);
   ("params", JObj [("slot", JStr slot)]); ("id", JInt 1)].

(** A parser that knows these two requests. *)
Definition parse_slot_request (text : string) : string + JSON :=
  if decide (text = slot_request_text "unload_model" "embedder")
  then inr (JObj (slot_request_items "unload_model" "embedder"))
  else if decide (text = slot_request_text "load_model" "summarizer")
  then inr (JObj (slot_request_items "load_model" "summarizer"))
  else inl "Expecting value: line 1 column 1 (char 0)".

(** The handlers of the two methods, at the instant 10 and with readings of
    100 MB. *)
Definition slot_handlers : string → Handler := λ method,
  if decide (method = "unload_model") then _handle_unload_model
  else if decide (method = "load_model")
  then _handle_load_model build (λ _, "") 10 (steady 100)
  else no_handler method.

(** X19: the pinned embedder is reported as unloaded and stays loaded. *)
Lemma unload_request_always_unloaded_witness :
  _handle_request parse_slot_request (λ _, "") slot_handlers count_texts
    (String.list_byte_of_string (slot_request_text "unload_model" "embedder"))
    (mkDaemon embedder_pinned 0 false)
  = (Ok (result_response (JObj [("slot", JStr "embedder"); ("unloaded", JBool true)])
                         (JInt 1)),
     set_manager (count_request (mkDaemon embedder_pinned 0 false))
                 (unload_model "embedder" embedder_pinned))
  ∧ is_loaded "embedder" (unload_model "embedder" embedder_pinned) = true.
Proof.
  destruct (unload_request_always_unloaded parse_slot_request (λ _, "") slot_handlers
              count_texts
              (String.list_byte_of_string (slot_request_text "unload_model" "embedder"))
              (slot_request_text "unload_model" "embedder")
              (slot_request_items "unload_model" "embedder")
              [("slot", JStr "embedder")] "embedder"
              (mkDaemon embedder_pinned 0 false))
    as (Hrun & Hpinned & _); done.
Defined.

(** X20: the request to load [summarizer] unloads the reranker and fails. *)
Lemma load_request_unsupported_slot_witness :
  ∃ d',
    _handle_request parse_slot_request (λ _, "") slot_handlers count_texts
      (String.list_byte_of_string (slot_request_text "load_model" "summarizer"))
      (mkDaemon reranker_loaded 0 false)
    = (Ok (error_response (-32000) "Unknown model slot: summarizer" (JInt 1)), d')
    ∧ is_loaded "reranker" (model_manager d') = false.
Proof.
  destruct (load_request_unsupported_slot build parse_slot_request (λ _, "")
              slot_handlers count_texts
              (String.list_byte_of_string (slot_request_text "load_model" "summarizer"))
              (slot_request_text "load_model" "summarizer")
              (slot_request_items "load_model" "summarizer")
              [("slot", JStr "summarizer")] "summarizer" 10 (steady 100)
              (mkDaemon reranker_loaded 0 false))
    as (d' & Hrun & Hloaded); try done.
  { intros [?|?]; done. }
  { exact reranker_loaded_NoDup. }
  exists d'. split; [exact Hrun|].
  apply not_true_is_false. intros [_ Hne]%Hloaded. apply Hne.
  eexists. split; [reflexivity | done].
Defined.

(** A connection that carries the request for [embed] twice, with a
    serialiser that writes every response as [{}]. *)
Definition embed_payload : list Byte.byte := String.list_byte_of_string embed_request_text.
Definition dumps_braces : JSON → list Byte.byte := λ _, String.list_byte_of_string "{}".

Definition embed_frames : list (list Byte.byte) :=
  Eval vm_compute in
    match mapM_res frame [embed_payload; embed_payload] with
    | Ok frames => frames
    | Raise _ => []
    end.

Lemma embed_payloads_small :
  Forall (λ data, Z.of_nat (length data) ≤ MAX_MESSAGE) [embed_payload; embed_payload].
Proof. repeat constructor; by vm_compute. Qed.

(** X22: the two requests are answered in order, and both are counted. *)
Lemma _handle_client_answers_in_order_witness :
  ∃ out d',
    _handle_client parse_embed_request (λ _, "") no_handler count_texts dumps_braces
      (concat embed_frames ++ []) new_daemon
    = Some (IncompleteRead, out, d')
    ∧ _request_count d' = 2
    ∧ out = String.list_byte_of_string
              (String (Ascii.ascii_of_nat 0) (String (Ascii.ascii_of_nat 0)
                (String (Ascii.ascii_of_nat 0) (String (Ascii.ascii_of_nat 2) "{}"))))
            ++ String.list_byte_of_string
                 (String (Ascii.ascii_of_nat 0) (String (Ascii.ascii_of_nat 0)
                   (String (Ascii.ascii_of_nat 0) (String (Ascii.ascii_of_nat 2) "{}")))).
Proof.
  eexists _, _. split; [|split].
  - apply (_handle_client_answers_in_order parse_embed_request (λ _, "") no_handler
             count_texts dumps_braces [embed_payload; embed_payload] embed_frames
             new_daemon).
    + exact embed_payloads_small.
    + by vm_compute.
    + vm_compute. reflexivity.
    + cbn. lia.
  - reflexivity.
  - reflexivity.
Defined.

(** X23: after the two requests, a length prefix that announces 16 MB. *)
Lemma _handle_client_drops_witness :
  ∃ out d',
    answers parse_embed_request (λ _, "") no_handler count_texts dumps_braces
      [embed_payload; embed_payload] new_daemon = Some (out, d')
    ∧ _handle_client parse_embed_request (λ _, "") no_handler count_texts dumps_braces
        (concat embed_frames ++ [Byte.x01; Byte.x00; Byte.x00; Byte.x00] ++ embed_payload)
        new_daemon
      = Some (TooLarge 16777216, out, d').
Proof.
  eexists _, _. split; [vm_compute; reflexivity|].
  destruct (_handle_client_drops parse_embed_request (λ _, "") no_handler
              count_texts dumps_braces [embed_payload; embed_payload] embed_frames
              new_daemon _ _ embed_payloads_small ltac:(by vm_compute) eq_refl)
    as (Hlarge & _ & _).
  apply (Hlarge [Byte.x01; Byte.x00; Byte.x00; Byte.x00] embed_payload); [done|].
  by vm_compute.
Defined.

(** X21 on a file that only names another model for the embedder. *)
Definition embedder_only : gmap string ModelData :=
  {["embedder" := mkModelData (Some "BAAI/bge-small-en-v1.5") None None]}.

Lemma from_yaml_merges_by_slot_witness :
  ¬ pinned (from_yaml embedder_only None) "embedder"
  ∧ evictable (from_yaml embedder_only None) "embedder"
  ∧ models (from_yaml embedder_only None) !! "reranker"
    = models default_config !! "reranker".
Proof.
  destruct (from_yaml_merges_by_slot embedder_only None) as (Hkeep & _ & Hemb & _).
  destruct (Hemb (mkModelData (Some "BAAI/bge-small-en-v1.5") None None))
    as (Hpin & Hev & _); [by vm_compute | done |].
  split; [done|]. split; [done|]. apply Hkeep. by vm_compute.
Defined.

End Daemon.


(** ** client.py *)
Module Client.

Import Daemon.

Section FastSearchClient.

Set Default Proof Using "Type".

(** The daemon at the other end of the socket. *)
Context (json_loads : string → string + JSON).
Context (float_str : float → string).
Context (handle : string → Handler).
Context (embed_texts : JSON → FastSearchDaemon → Res JSON * FastSearchDaemon).

Definition FastSearchError (msg : string) : exn := Exn "FastSearchError" msg.

(** A connected stream socket, seen from the reader: the segments in which
    the bytes of the peer arrive, none of them empty, the peer closing after
    the last one. *)
Definition Socket : Type := list (list Byte.byte).

(** [sock.recv(n)] for a positive [n]: the bytes of the next segment, at
    most [n] of them, and [b""] once the peer closed. *)
Definition recv (n : nat) (sock : Socket) : list Byte.byte * Socket :=
  match sock with
  | [] => ([], [])
  | segment :: rest =>
      if decide (length segment ≤ n)%nat then (segment, rest)
      else (take n segment, drop n segment :: rest)
  end.

(** The loop [while len(response_data) < length] of [_send_request]. Every
    turn that stays in the loop adds a byte at least, so [length] turns are
    enough. *)
Fixpoint recv_loop (fuel : nat) (length : Z) (response_data : list Byte.byte)
    (sock : Socket) : option (Res (list Byte.byte) * Socket) :=
  if decide (Z.of_nat (List.length response_data) < length) then
    match fuel with
    | O => None
    | S fuel' =>
        let '(chunk, sock) :=
          recv (Z.to_nat (Z.min 8192 (length - Z.of_nat (List.length response_data))))
               sock in
        if decide (chunk = [])
        then Some (Raise (FastSearchError "Connection closed while receiving response"),
                   sock)
        else recv_loop fuel' length (response_data ++ chunk) sock
    end
  else Some (Ok response_data, sock).

(** The part of [_send_request] that receives the length-prefixed response. *)
Definition receive_response (sock : Socket) : option (Res (list Byte.byte) * Socket) :=
  let '(length_bytes, sock) := recv 4 sock in
  if decide (length_bytes = [])
  then Some (Raise (FastSearchError "Connection closed by daemon"), sock)
  else
    let length := from_bytes_big length_bytes in
    recv_loop (Z.to_nat length) length [] sock.

(** The part of [_send_request] that follows [json.loads], on a response
    that is a dict (as every response of the daemon is). *)
Definition check_response (response : list (string * JSON)) : Res JSON :=
  match od_get "error" response with
  | Some error =>
      code ← py_get error "code" JNull;
      message ← py_get error "message" JNull;
      Raise (FastSearchError ("RPC error " +:+ py_format float_str code +:+ ": "
                              +:+ py_format float_str message))
  | None => Ok (from_option id (JObj []) (od_get "result" response))
  end.

Lemma app_prefix_split {A} (a r need more : list A) :
  a ++ r = need ++ more → (length a ≤ length need)%nat →
  ∃ need', need = a ++ need' ∧ r = need' ++ more.
Proof.
  intros Heq Hlen. exists (drop (length a) need). split.
  - apply (f_equal (take (length a))) in Heq.
    rewrite take_app_length, take_app_le in Heq by done.
    by rewrite Heq at 1; rewrite take_drop.
  - apply (f_equal (drop (length a))) in Heq.
    by rewrite drop_app_length, drop_app_le in Heq.
Qed.

(** The loop collects the bytes it still needs, however they are cut into
    segments, and leaves what follows them in the socket. *)
Lemma recv_loop_spec fuel : ∀ length response_data sock need more,
  Forall (λ segment, segment ≠ []) sock →
  concat sock = need ++ more →
  Z.of_nat (List.length response_data) + Z.of_nat (List.length need) = length →
  (List.length need ≤ fuel)%nat →
  ∃ sock',
    recv_loop fuel length response_data sock = Some (Ok (response_data ++ need), sock')
    ∧ concat sock' = more
    ∧ Forall (λ segment, segment ≠ []) sock'.
Proof.
  induction fuel as [|fuel IH]; intros len acc sock need more Hne Hcat Hlen Hfuel.
  - destruct need; [|cbn in Hfuel; lia]. cbn in Hlen. cbn.
    rewrite decide_False by lia. exists sock. by rewrite app_nil_r.
  - cbn [recv_loop]. destruct need as [|b need].
    { cbn in Hlen. rewrite decide_False by lia. exists sock. by rewrite app_nil_r. }
    rewrite decide_True by (cbn in Hlen; lia).
    destruct sock as [|segment rest]; [done|].
    apply list.Forall_cons in Hne as [Hseg Hrest]. cbn [concat] in Hcat.
    set (n := Z.to_nat (Z.min 8192 (len - Z.of_nat (List.length acc)))).
    assert (Hn : (1 ≤ n ≤ List.length (b :: need))%nat) by (unfold n; cbn in *; lia).
    unfold recv. destruct (decide (List.length segment ≤ n)%nat) as [Hshort|Hlong].
    + rewrite decide_False by done.
      destruct (app_prefix_split segment (concat rest) (b :: need) more Hcat)
        as (need' & Hneed & Hrest'); [lia|].
      destruct (IH len (acc ++ segment) rest need' more Hrest Hrest') as (sock' & Hrun & ? & ?).
      * rewrite length_app. rewrite Hneed, length_app in Hlen. lia.
      * rewrite Hneed, length_app in Hfuel. destruct segment; [done|]. cbn in *. lia.
      * exists sock'. rewrite Hrun, Hneed, <- app_assoc. done.
    + assert (Htake : take n segment ≠ []).
      { intros Hnil%take_nil_inv. destruct Hnil; [lia | done]. }
      rewrite decide_False by done.
      rewrite <- (take_drop n segment), <- app_assoc in Hcat.
      destruct (app_prefix_split (take n segment) (drop n segment ++ concat rest)
                  (b :: need) more Hcat) as (need' & Hneed & Hrest');
        [rewrite length_take; lia|].
      destruct (IH len (acc ++ take n segment) (drop n segment :: rest) need' more)
        as (sock' & Hrun & ? & ?).
      * constructor; [|done]. intros Hnil. apply (f_equal List.length) in Hnil.
        rewrite length_drop in Hnil. cbn in Hnil. lia.
      * done.
      * rewrite length_app. rewrite Hneed, length_app in Hlen. lia.
      * rewrite Hneed, length_app, length_take in Hfuel. lia.
      * exists sock'. rewrite Hrun, Hneed, <- app_assoc. done.
Qed.

(** X24. The client receives what the daemon framed: when the first
    segment that arrives holds the four bytes of the length, the client
    reads exactly the payload of the frame, however the payload is cut into
    segments, and leaves the bytes after it in the socket. *)
Theorem receive_response_round_trip data out segment sock more :
  frame data = Ok out →
  (4 ≤ length segment)%nat →
  Forall (λ segment, segment ≠ []) sock →
  segment ++ concat sock = out ++ more →
  ∃ sock',
    receive_response (segment :: sock) = Some (Ok data, sock')
    ∧ concat sock' = more.
Proof.
  intros (length_bytes & -> & Hfour & Hlen)%frame_Ok Hseg Hne Hcat.
  rewrite <- app_assoc in Hcat.
  unfold receive_response, recv.
  destruct (decide (length segment ≤ 4)%nat) as [Hexact|Hlonger].
  - destruct (app_prefix_split length_bytes (data ++ more) segment (concat sock))
      as (extra & Hsegment & Hrest); [done | lia|].
    assert (extra = []) as ->.
    { apply (f_equal length) in Hsegment. rewrite length_app in Hsegment.
      destruct extra; [done | cbn in Hsegment; lia]. }
    rewrite app_nil_r in Hsegment. subst segment. cbn [app] in Hrest.
    rewrite decide_False by (intros ->; cbn in Hfour; lia).
    rewrite Hlen, Nat2Z.id.
    destruct (recv_loop_spec (length data) (Z.of_nat (length data)) [] sock data more)
      as (sock' & Hrun & Hmore & _); try done.
    by exists sock'.
  - assert (Htake : take 4 segment = length_bytes).
    { apply (f_equal (take 4)) in Hcat.
      rewrite take_app_le in Hcat by lia. by rewrite take_app_length' in Hcat. }
    rewrite Htake. rewrite decide_False by (intros ->; cbn in Hfour; lia).
    rewrite Hlen, Nat2Z.id.
    destruct (recv_loop_spec (length data) (Z.of_nat (length data)) []
                (drop 4 segment :: sock) data more)
      as (sock' & Hrun & Hmore & _); try done.
    + constructor; [|done]. intros Hnil. apply (f_equal length) in Hnil.
      rewrite length_drop in Hnil. cbn in Hnil. lia.
    + cbn [concat]. apply (f_equal (drop 4)) in Hcat.
      rewrite drop_app_le in Hcat by lia. by rewrite drop_app_length' in Hcat.
    + by exists sock'.
Qed.

(** X25. The client and the envelopes of the daemon: whatever response
    [_handle_request] returns, it is a dict, and the client either returns
    the result of the handler (a response without [error]) or raises
    [FastSearchError] with the code -32700, -32601 or -32000 and the message
    of the daemon; it never returns an error as a result. *)
Theorem check_response_of_daemon data d response d' :
  _handle_request json_loads float_str handle embed_texts data d = (Ok response, d') →
  ∃ items,
    response = JObj items
    ∧ ((∃ result request_id,
          response = result_response result request_id
          ∧ check_response items = Ok result)
       ∨ (∃ code message request_id,
            response = error_response code message request_id
            ∧ code ∈ [-32700; -32601; -32000]
            ∧ check_response items
              = Raise (FastSearchError ("RPC error " +:+ pretty code +:+ ": " +:+ message)))).
Proof.
  unfold _handle_request. destruct (bytes_decode data) as [text|]; [|done].
  destruct (json_loads text) as [err|request].
  { intros [= <- <-]. eexists. split; [done|]. right.
    exists (-32700), ("Parse error: " +:+ err), JNull. split; [done|].
    split; [by left | done]. }
  destruct (py_get request "id" JNull) as [request_id|] eqn:Hid;
    [|by destruct (py_get request "method" JNull), (py_get request "params" (JObj []))].
  destruct (py_get request "method" JNull) as [method|];
    [|by destruct (py_get request "params" (JObj []))].
  destruct (py_get request "params" (JObj [])) as [params|]; [|done].
  destruct (find_handler handle embed_texts method) as [[handler|]|]; [| |done].
  - destruct (handler params (count_request d)) as [[result|e] d1]; intros [= <- <-].
    + eexists. split; [done|]. left. by exists result, request_id.
    + eexists. split; [done|]. right. exists (-32000), (exn_msg e), request_id.
      split; [done|]. split; [by do 2 right; left | done].
  - intros [= <- <-]. eexists. split; [done|]. right.
    exists (-32601), ("Method not found: " +:+ py_format float_str method), request_id.
    split; [done|]. split; [by right; left | done].
Qed.

End FastSearchClient.

(** *** Instances *)

(** X24: the frame of [{}] followed by a byte of the next message, arriving
    as five bytes and then two. *)
Lemma receive_response_round_trip_witness :
  ∃ sock',
    receive_response
      [[Byte.x00; Byte.x00; Byte.x00; Byte.x02; Byte.x7b]; [Byte.x7d; Byte.x00]]
    = Some (Ok [Byte.x7b; Byte.x7d], sock')
    ∧ concat sock' = [Byte.x00].
Proof.
  apply (receive_response_round_trip [Byte.x7b; Byte.x7d]
           [Byte.x00; Byte.x00; Byte.x00; Byte.x02; Byte.x7b; Byte.x7d]
           [Byte.x00; Byte.x00; Byte.x00; Byte.x02; Byte.x7b] [[Byte.x7d; Byte.x00]]
           [Byte.x00]).
  - reflexivity.
  - cbn. lia.
  - by repeat constructor.
  - reflexivity.
Defined.

(** X25 on the request for [embed] without texts: the client raises. *)
Lemma check_response_of_daemon_witness :
  ∃ items,
    error_response (-32000) "Missing 'texts' parameter" (JInt 7) = JObj items
    ∧ check_response (λ _, "") items
      = Raise (FastSearchError "RPC error -32000: Missing 'texts' parameter").
Proof.
  destruct (check_response_of_daemon parse_embed_request (λ _, "") no_handler count_texts
              embed_payload new_daemon
              (error_response (-32000) "Missing 'texts' parameter" (JInt 7))
              (count_request new_daemon))
    as (items & Hitems & _); [by vm_compute|].
  exists items. split; [exact Hitems|]. injection Hitems as <-. reflexivity.
Defined.

End Client.


(** ** chunker.py *)
Module Chunker.

Section Chunking.

Set Default Proof Using "Type".

(** A [str] is the list of its characters. [isspace] tells the characters
    [str.strip] removes; the two regular expressions are kept as the
    functions they compute. *)
Context {C : Type} `{!EqDecision C}.
Context (isspace : C → bool).
Context (newline space : C).

(** [re.split(r'\n\n+', re.sub(r'\n{3,}', '\n\n', text))] *)
Context (split_paragraphs : list C → list (list C)).
(** [re.split(r'(?<=[.!?])\s+', text)] *)
Context (split_sentences : list C → list (list C)).

Definition TARGET_CHARS : Z := 500 * 4.
Definition OVERLAP_CHARS : Z := 50 * 4.

(** [len(s)] *)
Definition len (s : list C) : Z := Z.of_nat (length s).

(** [s.lstrip()], [s.rstrip()], [s.strip()] *)
Fixpoint lstrip (s : list C) : list C :=
  match s with
  | [] => []
  | c :: s' => if isspace c then lstrip s' else s
  end.
Definition rstrip (s : list C) : list C := reverse (lstrip (reverse s)).
Definition strip (s : list C) : list C := rstrip (lstrip s).

(** [sep.join(parts)] *)
Fixpoint join (sep : list C) (parts : list (list C)) : list C :=
  match parts with
  | [] => []
  | [part] => part
  | part :: rest => part ++ sep ++ join sep rest
  end.

(** [s[-n:]] for an [int] n: the last [n] characters for a positive [n],
    and the whole of [s] for [n = 0]. *)
Definition py_suffix (s : list C) (n : Z) : list C :=
  if decide (0 < n) then drop (length s - Z.to_nat n) s
  else drop (Z.to_nat (- n)) s.

(** The chunk that is yielded for [current_chunk]:
    [chunk_text_out = sep.join(current_chunk)], with
    [overlap_text + sep] in front of it [if overlap_text], stripped. *)
Definition emit (sep : list C) (current_chunk : list (list C)) (overlap_text : list C)
    : list C :=
  let chunk_text_out := join sep current_chunk in
  strip (if decide (overlap_text = []) then chunk_text_out
         else overlap_text ++ sep ++ chunk_text_out).

(** The loop of [_split_long_paragraph] over the sentences, with its three
    variables, and what it yields. *)
Fixpoint split_loop (target_chars overlap_chars : Z) (sentences : list (list C))
    (current_chunk : list (list C)) (current_size : Z) (overlap_text : list C)
    : list (list C) :=
  match sentences with
  | [] => if decide (current_chunk = []) then []
          else [emit [space] current_chunk overlap_text]
  | sent :: rest =>
      let sent_size := len sent in
      if decide (current_size + sent_size > target_chars ∧ current_chunk ≠ []) then
        emit [space] current_chunk overlap_text
        :: split_loop target_chars overlap_chars rest [sent] sent_size
             (py_suffix (join [space] current_chunk) overlap_chars)
      else split_loop target_chars overlap_chars rest (current_chunk ++ [sent])
             (current_size + sent_size) overlap_text
  end.

(** [_split_long_paragraph] *)
Definition _split_long_paragraph (text : list C) (target_chars overlap_chars : Z)
    : list (list C) :=
  split_loop target_chars overlap_chars (split_sentences text) [] 0 [].

(** The loop of [chunk_text] over the paragraphs, and what it yields. *)
Fixpoint chunk_loop (target_chars overlap_chars : Z) (paragraphs : list (list C))
    (current_chunk : list (list C)) (current_size : Z) (overlap_text : list C)
    : list (list C) :=
  match paragraphs with
  | [] => if decide (current_chunk = []) then []
          else [emit [newline; newline] current_chunk overlap_text]
  | para :: rest =>
      let para_size := len para in
      if decide (para_size > target_chars) then
        if decide (current_chunk = []) then
          _split_long_paragraph para target_chars overlap_chars
          ++ chunk_loop target_chars overlap_chars rest current_chunk current_size
               overlap_text
        else
          emit [newline; newline] current_chunk overlap_text
          :: _split_long_paragraph para target_chars overlap_chars
          ++ chunk_loop target_chars overlap_chars rest [] 0
               (py_suffix (default [] (last current_chunk)) overlap_chars)
      else if decide (current_size + para_size > target_chars ∧ current_chunk ≠ []) then
        emit [newline; newline] current_chunk overlap_text
        :: chunk_loop target_chars overlap_chars rest [para] para_size
             (py_suffix (default [] (last current_chunk)) overlap_chars)
      else chunk_loop target_chars overlap_chars rest (current_chunk ++ [para])
             (current_size + para_size) overlap_text
  end.

(** [paragraphs = [p.strip() for p in paragraphs if p.strip()]] *)
Definition stripped_paragraphs (text : list C) : list (list C) :=
  omap (λ p, if decide (strip p = []) then None else Some (strip p))
       (split_paragraphs text).

(** [chunk_text], as the list of the chunks it yields. *)
Definition chunk_text (text : list C) (target_chars overlap_chars : Z)
    : list (list C) :=
  if decide (strip text = []) then []
  else
    let paragraphs := stripped_paragraphs text in
    if decide (paragraphs = []) then []
    else chunk_loop target_chars overlap_chars paragraphs [] 0 [].

(** *** What the chunks are compared with *)

(** The characters of a group of paragraphs, as [current_size] counts them:
    the separators are not counted. *)
Definition total (group : list (list C)) : Z := foldr (λ p n, len p + n) 0 group.

(** The chunks of consecutive groups of paragraphs: each group joined with
    blank lines, behind the overlap taken from the last paragraph of the
    group before it. *)
Fixpoint chunks_of (overlap_chars : Z) (groups : list (list (list C)))
    (overlap_text : list C) : list (list C) :=
  match groups with
  | [] => []
  | group :: rest =>
      emit [newline; newline] group overlap_text
      :: chunks_of overlap_chars rest
           (py_suffix (default [] (last group)) overlap_chars)
  end.

(** Each group is filled as long as the next paragraph fits. *)
Definition greedy (target_chars : Z) (groups : list (list (list C))) : Prop :=
  ∀ (i : nat) group next,
    groups !! i = Some group → groups !! S i = Some next →
    ∃ para, head next = Some para ∧ total group + len para > target_chars.

Lemma total_cons p g : total (p :: g) = len p + total g.
Proof. done. Qed.

Lemma total_app g1 g2 : total (g1 ++ g2) = total g1 + total g2.
Proof.
  induction g1 as [|p g1 IH]; [done|].
  rewrite <- app_comm_cons, !total_cons, IH. lia.
Qed.

Lemma total_nonneg g : 0 ≤ total g.
Proof.
  induction g as [|p g IH]; [done|]. rewrite total_cons. unfold len. lia.
Qed.

Lemma py_suffix_zero s : py_suffix s 0 = s.
Proof. done. Qed.

Lemma py_suffix_last s n :
  0 < n → py_suffix s n = drop (length s - Z.to_nat n) s
          ∧ len (py_suffix s n) = Z.min n (len s).
Proof.
  intros Hn. unfold py_suffix, len. rewrite decide_True by done.
  split; [done|]. rewrite length_drop. lia.
Qed.

Lemma length_chunks_of overlap_chars groups : ∀ overlap_text,
  length (chunks_of overlap_chars groups overlap_text) = length groups.
Proof.
  induction groups as [|group rest IH]; intros ov; cbn; [done|]. by rewrite IH.
Qed.

(** The loop over paragraphs none of which is longer than the target. *)
Lemma chunk_loop_groups target_chars overlap_chars paragraphs :
  ∀ current_chunk current_size overlap_text,
  Forall (λ p, len p ≤ target_chars) paragraphs →
  current_size = total current_chunk → total current_chunk ≤ target_chars →
  ∃ groups,
    concat groups = current_chunk ++ paragraphs
    ∧ Forall (λ group, group ≠ [] ∧ total group ≤ target_chars) groups
    ∧ greedy target_chars groups
    ∧ (current_chunk ≠ [] →
       ∃ group rest more, groups = group :: rest ∧ group = current_chunk ++ more)
    ∧ chunk_loop target_chars overlap_chars paragraphs current_chunk current_size
                 overlap_text
      = chunks_of overlap_chars groups overlap_text.
Proof.
  induction paragraphs as [|para rest IH];
    intros cur size ov Hsmall Hsize Hcur.
  - cbn [chunk_loop]. destruct (decide (cur = [])) as [->|Hne].
    + exists []. split; [done|]. split; [constructor|]. split; [|done].
      intros i group next Hi. by rewrite lookup_nil in Hi.
    + exists [cur]. rewrite app_nil_r. split; [by cbn; rewrite app_nil_r|].
      split; [by repeat constructor|]. split; [|split; [|done]].
      * intros i group next _ Hnext. destruct i; done.
      * intros _. exists cur, [], []. by rewrite app_nil_r.
  - apply list.Forall_cons in Hsmall as [Hpara Hrest]. cbn [chunk_loop]. cbn zeta.
    rewrite decide_False by lia.
    destruct (decide (size + len para > target_chars ∧ cur ≠ [])) as [[Hover Hne]|Hfit].
    + destruct (IH [para] (len para) (py_suffix (default [] (last cur)) overlap_chars)
                  Hrest) as (groups & Hcat & Hall & Hgreedy & Hfirst & Hrun).
      { cbn. lia. }
      { cbn. lia. }
      destruct Hfirst as (group & rest' & more & -> & ->); [done|].
      exists (cur :: ([para] ++ more) :: rest'). split; [|split; [|split; [|split]]].
      * cbn [concat] in Hcat |- *. by rewrite Hcat.
      * constructor; [|done]. split; [done | lia].
      * intros [|i] group next Hi Hnext.
        -- injection Hi as <-. injection Hnext as <-. exists para.
           split; [done | lia].
        -- by apply (Hgreedy i).
      * intros _. exists cur, (([para] ++ more) :: rest'), []. by rewrite app_nil_r.
      * by rewrite Hrun.
    + assert (Hfits : total (cur ++ [para]) ≤ target_chars).
      { rewrite total_app. cbn. destruct (decide (cur = [])) as [->|Hne]; [cbn; lia|].
        destruct (decide (size + len para > target_chars)); [by destruct Hfit | lia]. }
      destruct (IH (cur ++ [para]) (size + len para) ov Hrest) as
        (groups & Hcat & Hall & Hgreedy & Hfirst & Hrun); [|done|].
      { rewrite total_app. cbn. lia. }
      exists groups. split; [by rewrite Hcat, <- app_assoc|]. split; [done|].
      split; [done|]. split; [|done].
      intros _. destruct Hfirst as (group & rest' & more & -> & ->).
      { by destruct cur. }
      exists ((cur ++ [para]) ++ more), rest', ([para] ++ more).
      by rewrite <- app_assoc.
Qed.

(** X26. [chunk_text] on a text none of whose paragraphs is longer than
    [target_chars] packs the paragraphs, in their order and each one once,
    into groups: a group is filled as long as the next paragraph fits in
    [target_chars] (separators not counted), and every chunk is a group
    joined with blank lines behind the overlap, which is [p[-overlap_chars:]]
    of the last paragraph [p] of the group before. For [overlap_chars = 0]
    that slice is all of [p]: a chunk then repeats the whole last paragraph
    of the chunk before it instead of nothing. *)
Theorem chunk_text_packs_paragraphs text target_chars overlap_chars :
  strip text ≠ [] →
  Forall (λ p, len p ≤ target_chars) (stripped_paragraphs text) →
  ∃ groups,
    concat groups = stripped_paragraphs text
    ∧ Forall (λ group, group ≠ [] ∧ total group ≤ target_chars) groups
    ∧ greedy target_chars groups
    ∧ chunk_text text target_chars overlap_chars = chunks_of overlap_chars groups []
    ∧ length (chunk_text text target_chars overlap_chars) = length groups
    ∧ (overlap_chars = 0 → ∀ p, py_suffix p overlap_chars = p)
    ∧ (0 < overlap_chars →
       ∀ p, py_suffix p overlap_chars = drop (length p - Z.to_nat overlap_chars) p).
Proof.
  intros Htext Hsmall. unfold chunk_text. rewrite decide_False by done. cbn zeta.
  assert (Hsuffix : (overlap_chars = 0 → ∀ p, py_suffix p overlap_chars = p)
                    ∧ (0 < overlap_chars →
                       ∀ p, py_suffix p overlap_chars
                            = drop (length p - Z.to_nat overlap_chars) p)).
  { split; [by intros -> p|]. intros Hpos p. by apply py_suffix_last. }
  destruct (stripped_paragraphs text) as [|p ps] eqn:Hps.
  - exists []. rewrite decide_True by done.
    split; [done|]. split; [constructor|]. split; [|done].
    intros i group next Hi. by rewrite lookup_nil in Hi.
  - rewrite decide_False by done.
    assert (Htarget : 0 ≤ target_chars).
    { apply list.Forall_cons in Hsmall as [Hp _]. unfold len in Hp. lia. }
    destruct (chunk_loop_groups target_chars overlap_chars (p :: ps) [] 0 [] Hsmall eq_refl)
      as (groups & Hcat & Hall & Hgreedy & _ & Hrun); [done|].
    exists groups. rewrite Hrun. do 4 (split; [done|]). split; [|done].
    apply length_chunks_of.
Qed.

(** X27. A text whose paragraphs have at most [target_chars] characters
    together is one chunk: its paragraphs, stripped, joined with blank
    lines, with no overlap; a text without a paragraph gives no chunk. *)
Theorem chunk_text_short text target_chars overlap_chars :
  strip text ≠ [] →
  total (stripped_paragraphs text) ≤ target_chars →
  chunk_text text target_chars overlap_chars
  = if decide (stripped_paragraphs text = []) then []
    else [strip (join [newline; newline] (stripped_paragraphs text))].
Proof.
  intros Htext Htotal. unfold chunk_text. rewrite decide_False by done. cbn zeta.
  destruct (decide (stripped_paragraphs text = [])) as [|Hne]; [done|].
  assert (Hsmall : Forall (λ p, len p ≤ target_chars) (stripped_paragraphs text)).
  { revert Htotal. generalize (stripped_paragraphs text). intros ps.
    induction ps as [|p ps IH]; intros Ht; [constructor|].
    rewrite total_cons in Ht. pose proof (total_nonneg ps).
    constructor; [lia|]. apply IH. unfold len in Ht. lia. }
  assert (Htarget : 0 ≤ target_chars).
  { pose proof (total_nonneg (stripped_paragraphs text)). lia. }
  destruct (chunk_loop_groups target_chars overlap_chars (stripped_paragraphs text)
              [] 0 [] Hsmall eq_refl Htarget)
    as (groups & Hcat & Hall & Hgreedy & _ & ->).
  cbn [app] in Hcat. destruct groups as [|g1 [|g2 rest]].
  - by rewrite <- Hcat in Hne.
  - cbn in Hcat. rewrite app_nil_r in Hcat. subst g1. cbn [chunks_of]. unfold emit.
    by rewrite decide_True.
  - exfalso. destruct (Hgreedy 0%nat g1 g2 eq_refl eq_refl) as (para & Hhead & Hover).
    rewrite <- Hcat in Htotal. cbn [concat] in Htotal. rewrite !total_app in Htotal.
    destruct g2 as [|p g2]; [done|]. injection Hhead as ->.
    rewrite total_cons in Htotal.
    pose proof (total_nonneg g2). pose proof (total_nonneg (concat rest)). lia.
Qed.

(** The chunks of consecutive groups of sentences: each group joined with
    spaces, behind the overlap taken from the end of the joined group
    before it. *)
Fixpoint sentence_chunks (overlap_chars : Z) (groups : list (list (list C)))
    (overlap_text : list C) : list (list C) :=
  match groups with
  | [] => []
  | group :: rest =>
      emit [space] group overlap_text
      :: sentence_chunks overlap_chars rest (py_suffix (join [space] group) overlap_chars)
  end.

Lemma split_loop_groups target_chars overlap_chars sentences :
  ∀ current_chunk current_size overlap_text,
  current_size = total current_chunk →
  total current_chunk ≤ target_chars ∨ (length current_chunk ≤ 1)%nat →
  ∃ groups,
    concat groups = current_chunk ++ sentences
    ∧ Forall (λ group, group ≠ [] ∧ (total group ≤ target_chars ∨ length group = 1%nat))
             groups
    ∧ greedy target_chars groups
    ∧ (current_chunk ≠ [] →
       ∃ group rest more, groups = group :: rest ∧ group = current_chunk ++ more)
    ∧ split_loop target_chars overlap_chars sentences current_chunk current_size
                 overlap_text
      = sentence_chunks overlap_chars groups overlap_text.
Proof.
  induction sentences as [|sent rest IH]; intros cur size ov Hsize Hcur.
  - cbn [split_loop]. destruct (decide (cur = [])) as [->|Hne].
    + exists []. split; [done|]. split; [constructor|]. split; [|done].
      intros i group next Hi. by rewrite lookup_nil in Hi.
    + exists [cur]. rewrite app_nil_r. split; [by cbn; rewrite app_nil_r|].
      split; [|split; [|split; [|done]]].
      * constructor; [|constructor]. split; [done|].
        destruct Hcur as [?|Hone]; [by left | right].
        destruct cur as [|? [|]]; cbn in *; try done; lia.
      * intros i group next _ Hnext. destruct i; done.
      * intros _. exists cur, [], []. by rewrite app_nil_r.
  - cbn [split_loop]. cbn zeta.
    destruct (decide (size + len sent > target_chars ∧ cur ≠ [])) as [[Hover Hne]|Hfit].
    + destruct (IH [sent] (len sent) (py_suffix (join [space] cur) overlap_chars))
        as (groups & Hcat & Hall & Hgreedy & Hfirst & Hrun).
      { rewrite total_cons. cbn. lia. }
      { right. cbn. lia. }
      destruct Hfirst as (group & rest' & more & -> & ->); [done|].
      exists (cur :: ([sent] ++ more) :: rest'). split; [|split; [|split; [|split]]].
      * cbn [concat] in Hcat |- *. by rewrite Hcat.
      * constructor; [|done]. split; [done|].
        destruct Hcur as [?|Hone]; [by left | right].
        destruct cur as [|? [|]]; cbn in *; try done; lia.
      * intros [|i] group next Hi Hnext.
        -- injection Hi as <-. injection Hnext as <-. exists sent.
           split; [done | lia].
        -- by apply (Hgreedy i).
      * intros _. exists cur, (([sent] ++ more) :: rest'), []. by rewrite app_nil_r.
      * by rewrite Hrun.
    + destruct (IH (cur ++ [sent]) (size + len sent) ov) as
        (groups & Hcat & Hall & Hgreedy & Hfirst & Hrun).
      { rewrite total_app, total_cons. cbn. lia. }
      { destruct (decide (cur = [])) as [->|Hne]; [right; cbn; lia|]. left.
        rewrite total_app, total_cons. cbn.
        destruct (decide (size + len sent > target_chars)); [by destruct Hfit | lia]. }
      exists groups. split; [by rewrite Hcat, <- app_assoc|]. split; [done|].
      split; [done|]. split; [|done].
      intros _. destruct Hfirst as (group & rest' & more & -> & ->).
      { by destruct cur. }
      exists ((cur ++ [sent]) ++ more), rest', ([sent] ++ more).
      by rewrite <- app_assoc.
Qed.

Lemma elem_of_concat {A} (x : A) (ls : list (list A)) :
  x ∈ concat ls → ∃ l, x ∈ l ∧ l ∈ ls.
Proof.
  induction ls as [|l ls IH]; cbn; [by intros ?%elem_of_nil|].
  intros [Hl|Hls]%elem_of_app.
  - exists l. split; [done | by left].
  - destruct (IH Hls) as (l' & ? & ?). exists l'. split; [done | by right].
Qed.

(** X28. [_split_long_paragraph] packs the sentences of the paragraph, in
    their order and each one once, into groups joined with single spaces: a
    group is filled as long as the next sentence fits in [target_chars], and
    a sentence is never cut, so that a sentence longer than [target_chars]
    is a chunk of its own, however long it is. The overlap in front of a
    chunk is taken from the end of the joined group before it. *)
Theorem _split_long_paragraph_packs text target_chars overlap_chars :
  ∃ groups,
    concat groups = split_sentences text
    ∧ Forall (λ group, group ≠ [] ∧ (total group ≤ target_chars ∨ length group = 1%nat))
             groups
    ∧ greedy target_chars groups
    ∧ _split_long_paragraph text target_chars overlap_chars
      = sentence_chunks overlap_chars groups []
    ∧ ∀ sent, sent ∈ split_sentences text → len sent > target_chars →
              [sent] ∈ groups.
Proof.
  destruct (split_loop_groups target_chars overlap_chars (split_sentences text) [] 0 []
              eq_refl) as (groups & Hcat & Hall & Hgreedy & _ & Hrun).
  { right. cbn. lia. }
  exists groups. do 4 (split; [done|]).
  intros sent Hsent Hlong. cbn [app] in Hcat. rewrite <- Hcat in Hsent.
  apply elem_of_concat in Hsent as (group & Hin & Hgroup).
  rewrite Forall_forall in Hall. destruct (Hall group Hgroup) as [_ [Hfit|Hone]].
  - exfalso. apply list_elem_of_split in Hin as (l1 & l2 & ->).
    rewrite total_app, total_cons in Hfit.
    pose proof (total_nonneg l1). pose proof (total_nonneg l2). lia.
  - destruct group as [|x [|]]; try done.
    apply list_elem_of_singleton in Hin. by subst x.
Qed.

End Chunking.

(** *** Instances *)

(** ASCII texts: the white space of [str.strip], and a splitter at the runs
    of two or more newlines. *)
Definition LF : Ascii.ascii := Ascii.ascii_of_nat 10.
Definition SP : Ascii.ascii := Ascii.ascii_of_nat 32.

Definition ascii_isspace (c : Ascii.ascii) : bool :=
  bool_decide (Ascii.nat_of_ascii c ∈ [9; 10; 11; 12; 13; 28; 29; 30; 31; 32]%nat).

Fixpoint split_blank_lines (skipping : bool) (text : list Ascii.ascii) (current : list Ascii.ascii)
    : list (list Ascii.ascii) :=
  match text with
  | [] => [reverse current]
  | c :: rest =>
      if skipping then
        if decide (c = LF) then split_blank_lines true rest current
        else split_blank_lines false rest [c]
      else if decide (c = LF ∧ head rest = Some LF)
      then reverse current :: split_blank_lines true rest []
      else split_blank_lines false rest (c :: current)
  end.

Definition ascii_paragraphs (text : list Ascii.ascii) : list (list Ascii.ascii) :=
  split_blank_lines false text [].

Definition one_sentence (text : list Ascii.ascii) : list (list Ascii.ascii) := [text].

(** Two paragraphs of five characters each. *)
Definition two_paragraphs : list Ascii.ascii :=
  String.list_ascii_of_string "alpha" ++ [LF; LF] ++ String.list_ascii_of_string "omega"
  ++ [LF].

(** X26 on the two paragraphs with [target_chars = 5] and
    [overlap_chars = 0]: the second chunk repeats the first paragraph. *)
Lemma chunk_text_packs_paragraphs_witness :
  ∃ groups,
    concat groups = [String.list_ascii_of_string "alpha"; String.list_ascii_of_string "omega"]
    ∧ length (chunk_text ascii_isspace LF SP ascii_paragraphs one_sentence
                         two_paragraphs 5 0) = length groups
    ∧ chunk_text ascii_isspace LF SP ascii_paragraphs one_sentence two_paragraphs 5 0
      = [String.list_ascii_of_string "alpha";
         String.list_ascii_of_string "alpha" ++ [LF; LF]
         ++ String.list_ascii_of_string "omega"].
Proof.
  destruct (chunk_text_packs_paragraphs ascii_isspace LF SP ascii_paragraphs one_sentence
              two_paragraphs 5 0) as (groups & Hcat & _ & _ & _ & Hlen & _).
  - by vm_compute.
  - repeat constructor; by vm_compute.
  - exists groups. split; [exact Hcat|]. split; [exact Hlen|]. by vm_compute.
Defined.

(** X27 on the two paragraphs with the default sizes: one chunk. *)
Lemma chunk_text_short_witness :
  chunk_text ascii_isspace LF SP ascii_paragraphs one_sentence two_paragraphs
             TARGET_CHARS OVERLAP_CHARS
  = [String.list_ascii_of_string "alpha" ++ [LF; LF]
     ++ String.list_ascii_of_string "omega"].
Proof.
  rewrite (chunk_text_short ascii_isspace LF SP ascii_paragraphs one_sentence
             two_paragraphs TARGET_CHARS OVERLAP_CHARS).
  - by vm_compute.
  - by vm_compute.
  - by vm_compute.
Defined.

End Chunker.
